(** * Dungeon crawler: a shallow embedding of the generator and the
      turn-resolution engine, with the properties of its specification.

    The Go sources (player, dungeon, item and main files, concatenated in
    [src/player.go]) are embedded function by function:
    - Go's [int] is a 64-bit two's complement integer: values are [Z] and
      every arithmetic operation wraps ([+i], [-i], [*i], [/i]);
    - [rune]s (tiles, symbols) are their code points in [Z];
    - slices are lists; an index expression out of range panics;
    - the global [math/rand] source and standard output are threaded through
      a small state-and-panic monad, [Go];
    - a pointer into a slice ([*Enemy], [*Item]) is the index of the element
      it points to;
    - the recursion of [CheckLevelUp] is bounded by a [fuel] argument, and a
      loop whose counter cannot pass its bound diverges.

    Embedded: the player's actions, the dungeon generator and its queries,
    the enemies' moves, the commands of the playing state, the start of the
    game, the inventory and game-over screens of the main loop once their
    answer has been read (what [fmt.Sscanf] makes of the answer is a
    parameter), and the item constructors. Left out: the rendering
    ([Print], [DisplayStatus], [DisplayInventory]). *)

From Stdlib Require Import ZArith String Ascii DecimalString Lia.
From stdpp Require Import base list strings.

Local Open Scope Z_scope.

(** ** Machine integers *)

Definition int_min : Z := - 2 ^ 63.
Definition int_max : Z := 2 ^ 63 - 1.

Definition wrap (z : Z) : Z := (z + 2 ^ 63) mod 2 ^ 64 - 2 ^ 63.

Definition is_int (z : Z) : Prop := int_min <= z <= int_max.

Definition add (a b : Z) : Z := wrap (a + b).
Definition sub (a b : Z) : Z := wrap (a - b).
Definition mul (a b : Z) : Z := wrap (a * b).
(** Go's [/] truncates toward zero. *)
Definition quo (a b : Z) : Z := wrap (Z.quot a b).

Infix "+i" := add (at level 50, left associativity).
Infix "-i" := sub (at level 50, left associativity).
Infix "*i" := mul (at level 40, left associativity).
Infix "/i" := quo (at level 40, left associativity).

(** [l[i]] for a Go slice: [None] stands for the index-out-of-range panic. *)
Definition index {A : Type} (l : list A) (i : Z) : option A :=
  if i <? 0 then None else l !! Z.to_nat i.

(** [l[i] = v]. *)
Definition assign {A : Type} (l : list A) (i : Z) (v : A) : option (list A) :=
  match index l i with
  | Some _ => Some (<[Z.to_nat i := v]> l)
  | None => None
  end.

(** [len(l)]. A slice has at most [int_max] elements, so arithmetic whose
    result stays between [-1] and the length of a slice cannot wrap; it is
    written with the operations of [Z]. *)
Definition len {A : Type} (l : list A) : Z := Z.of_nat (length l).

(** ** Runes and strings *)

Definition rune (c : ascii) : Z := Z.of_N (N_of_ascii c).

Definition nl : string := String (ascii_of_nat 10) EmptyString.

(** The [%d] verb of [fmt.Printf]. *)
Definition fmt_d (z : Z) : string := NilZero.string_of_int (Z.to_int z).

(** ** The ambient state: random source and standard output *)

(** [rand_draws] is the stream of raw values the global source will produce,
    [rand_pos] the number of values consumed so far.  [rand.Seed] replaces the
    stream by another one; every statement below holds for all streams, so the
    re-seeding in [NewDungeon] is not modelled separately. *)
Record World := mkWorld {
  rand_draws : nat -> Z;
  rand_pos : nat;
  stdout : list string
}.

(** How a call ends: normally, with a run-time panic, or never (a loop whose
    counter cannot reach its bound, or a recursion deeper than the [fuel]
    allotted to it). *)
Inductive outcome (A : Type) : Type :=
| Done (a : A) (w : World)
| Panic
| Diverge.
Arguments Done {A} a w.
Arguments Panic {A}.
Arguments Diverge {A}.

Definition Go (A : Type) : Type := World -> outcome A.

Definition ret {A : Type} (a : A) : Go A := fun w => Done a w.

Definition bind {A B : Type} (m : Go A) (k : A -> Go B) : Go B :=
  fun w =>
    match m w with
    | Done a w' => k a w'
    | Panic => Panic
    | Diverge => Diverge
    end.

Declare Scope go_scope.
Delimit Scope go_scope with go.
Notation "x <- m ;; k" := (bind m (fun x => k))
  (at level 100, m at next level, right associativity) : go_scope.
Notation "m ;;; k" := (bind m (fun _ => k))
  (at level 100, right associativity) : go_scope.
Local Open Scope go_scope.

Definition panic {A : Type} : Go A := fun _ => Panic.
Definition diverge {A : Type} : Go A := fun _ => Diverge.

(** A slice access inside a [Go] computation. *)
Definition must {A : Type} (o : option A) : Go A :=
  match o with
  | Some a => ret a
  | None => panic
  end.

(** [rand.Intn(n)]: panics when [n <= 0], otherwise a value of [[0, n)]. *)
Definition Intn (n : Z) : Go Z :=
  fun w =>
    if n <=? 0 then Panic
    else Done (rand_draws w (rand_pos w) mod n)
              (mkWorld (rand_draws w) (S (rand_pos w)) (stdout w)).

(** [fmt.Printf] with the text already formatted. *)
Definition Printf (s : string) : Go unit :=
  fun w => Done tt (mkWorld (rand_draws w) (rand_pos w) (stdout w ++ [s])).

Definition Println (s : string) : Go unit := Printf (s +:+ nl).

(** ** Data model *)

(** [TileType] is a rune; the grid stores runes. *)
Definition Floor : Z := rune ".".
Definition Wall : Z := rune "#".
Definition Door : Z := rune "+".
Definition Treasure : Z := rune "$".
Definition Trap : Z := rune "^".
Definition StairsDown : Z := rune ">".

Inductive ItemType : Type :=
| ItemGold
| ItemPotion
| ItemWeapon
| ItemArmor
| ItemTreasure
| ItemKey.

Module Item.
Record t := mk {
  X : Z;
  Y : Z;
  Type_ : ItemType;
  Name : string;
  Description : string;
  Value : Z;
  Symbol : Z;
  Collected : bool
}.
Definition set_Collected (b : bool) (i : t) : t :=
  mk (X i) (Y i) (Type_ i) (Name i) (Description i) (Value i) (Symbol i) b.
End Item.

Module Room.
Record t := mk { X : Z; Y : Z; Width : Z; Height : Z }.
End Room.

Module Enemy.
Record t := mk {
  X : Z;
  Y : Z;
  Health : Z;
  Symbol : Z;
  Name : string;
  Damage : Z;
  Hostile : bool
}.
Definition set_Health (h : Z) (e : t) : t :=
  mk (X e) (Y e) h (Symbol e) (Name e) (Damage e) (Hostile e).
Definition set_XY (x y : Z) (e : t) : t :=
  mk x y (Health e) (Symbol e) (Name e) (Damage e) (Hostile e).
End Enemy.

Module Dungeon.
Record t := mk {
  Width : Z;
  Height : Z;
  Grid : list (list Z);
  Rooms : list Room.t;
  Enemies : list Enemy.t;
  Items : list Item.t;
  Level : Z
}.
Definition set_Grid (g : list (list Z)) (d : t) : t :=
  mk (Width d) (Height d) g (Rooms d) (Enemies d) (Items d) (Level d).
Definition set_Rooms (r : list Room.t) (d : t) : t :=
  mk (Width d) (Height d) (Grid d) r (Enemies d) (Items d) (Level d).
Definition set_Enemies (e : list Enemy.t) (d : t) : t :=
  mk (Width d) (Height d) (Grid d) (Rooms d) e (Items d) (Level d).
Definition set_Items (i : list Item.t) (d : t) : t :=
  mk (Width d) (Height d) (Grid d) (Rooms d) (Enemies d) i (Level d).
Definition set_Level (l : Z) (d : t) : t :=
  mk (Width d) (Height d) (Grid d) (Rooms d) (Enemies d) (Items d) l.
End Dungeon.

Module Player.
Record t := mk {
  X : Z;
  Y : Z;
  Health : Z;
  MaxHealth : Z;
  Attack : Z;
  Defense : Z;
  Gold : Z;
  Level : Z;
  Exp : Z;
  Inventory : list Item.t
}.
Definition set_XY (x y : Z) (p : t) : t :=
  mk x y (Health p) (MaxHealth p) (Attack p) (Defense p) (Gold p)
     (Level p) (Exp p) (Inventory p).
Definition set_Health (h : Z) (p : t) : t :=
  mk (X p) (Y p) h (MaxHealth p) (Attack p) (Defense p) (Gold p)
     (Level p) (Exp p) (Inventory p).
Definition set_Attack (a : Z) (p : t) : t :=
  mk (X p) (Y p) (Health p) (MaxHealth p) a (Defense p) (Gold p)
     (Level p) (Exp p) (Inventory p).
Definition set_Defense (a : Z) (p : t) : t :=
  mk (X p) (Y p) (Health p) (MaxHealth p) (Attack p) a (Gold p)
     (Level p) (Exp p) (Inventory p).
Definition set_Gold (g : Z) (p : t) : t :=
  mk (X p) (Y p) (Health p) (MaxHealth p) (Attack p) (Defense p) g
     (Level p) (Exp p) (Inventory p).
Definition set_Exp (e : Z) (p : t) : t :=
  mk (X p) (Y p) (Health p) (MaxHealth p) (Attack p) (Defense p) (Gold p)
     (Level p) e (Inventory p).
Definition set_Inventory (i : list Item.t) (p : t) : t :=
  mk (X p) (Y p) (Health p) (MaxHealth p) (Attack p) (Defense p) (Gold p)
     (Level p) (Exp p) i.
End Player.

(** ** Dungeon queries *)

(** [d.Grid[y][x]]. *)
Definition cell (g : list (list Z)) (x y : Z) : option Z :=
  match index g y with
  | Some row => index row x
  | None => None
  end.

(** [d.Grid[y][x] = v]. *)
Definition set_cell (g : list (list Z)) (x y v : Z) : option (list (list Z)) :=
  match index g y with
  | Some row =>
      match assign row x v with
      | Some row' => assign g y row'
      | None => None
      end
  | None => None
  end.

Definition write (d : Dungeon.t) (x y v : Z) : option Dungeon.t :=
  match set_cell (Dungeon.Grid d) x y v with
  | Some g => Some (Dungeon.set_Grid g d)
  | None => None
  end.

Definition out_of_bounds (d : Dungeon.t) (x y : Z) : bool :=
  (x <? 0) || (y <? 0) || (x >=? Dungeon.Width d) || (y >=? Dungeon.Height d).

Definition walkable_tile (tile : Z) : bool :=
  (tile =? Floor) || (tile =? Door) || (tile =? Treasure) || (tile =? Trap)
  || (tile =? StairsDown).

Definition IsWalkable (d : Dungeon.t) (x y : Z) : option bool :=
  if out_of_bounds d x y then Some false
  else
    match cell (Dungeon.Grid d) x y with
    | Some tile => Some (walkable_tile tile)
    | None => None
    end.

Definition GetTileAt (d : Dungeon.t) (x y : Z) : option Z :=
  if out_of_bounds d x y then Some Wall
  else cell (Dungeon.Grid d) x y.

(** The first index whose element satisfies [f], counting from [i]. *)
Fixpoint find_from {A : Type} (f : A -> bool) (l : list A) (i : nat) : option nat :=
  match l with
  | [] => None
  | a :: l' => if f a then Some i else find_from f l' (S i)
  end.

(** [GetEnemyAt] returns a pointer to the first living enemy standing on
    [(x, y)], here its index in [d.Enemies]; [None] is [nil]. *)
Definition GetEnemyAt (d : Dungeon.t) (x y : Z) : option nat :=
  find_from
    (fun e => (Enemy.X e =? x) && (Enemy.Y e =? y) && (Enemy.Health e >? 0))
    (Dungeon.Enemies d) 0.

(** [GetItemAt] returns [&d.Items[i]] for the first uncollected item on
    [(x, y)]. *)
Definition GetItemAt (d : Dungeon.t) (x y : Z) : option nat :=
  find_from
    (fun it => (Item.X it =? x) && (Item.Y it =? y) && negb (Item.Collected it))
    (Dungeon.Items d) 0.

(** [RemoveEnemy]: the pointers of [d.Enemies] are pairwise distinct, so the
    first element equal to the pointer is the one at its index. *)
Definition RemoveEnemy (i : nat) (d : Dungeon.t) : Dungeon.t :=
  if (i <? length (Dungeon.Enemies d))%nat
  then Dungeon.set_Enemies
         (take i (Dungeon.Enemies d) ++ drop (S i) (Dungeon.Enemies d)) d
  else d.

(** ** Player actions *)

Definition NewPlayer (x y : Z) : Player.t :=
  Player.mk x y 20 20 3 1 0 1 0 [].

(** [CheckLevelUp] calls itself; [fuel] bounds the depth of the recursion. *)
Fixpoint CheckLevelUp (fuel : nat) (p : Player.t) : Go Player.t :=
  let expNeeded := 100 *i Player.Level p in
  if Player.Exp p >=? expNeeded then
    match fuel with
    | O => diverge
    | S fuel' =>
        let level := Player.Level p +i 1 in
        let exp := Player.Exp p -i expNeeded in
        let maxHealth := Player.MaxHealth p +i 5 in
        let health := maxHealth in
        let attack := Player.Attack p +i 1 in
        let p' :=
          Player.mk (Player.X p) (Player.Y p) health maxHealth attack
                    (Player.Defense p) (Player.Gold p) level exp
                    (Player.Inventory p) in
        Printf ("Level up! You are now level " +:+ fmt_d level +:+ "." +:+ nl) ;;;
        Printf ("Your health increased to " +:+ fmt_d maxHealth
                +:+ " and your attack increased to " +:+ fmt_d attack
                +:+ "." +:+ nl) ;;;
        CheckLevelUp fuel' p'
    end
  else ret p.

(** [AttackEnemy]; [i] is the attacked enemy's pointer. *)
Definition AttackEnemy (fuel : nat) (i : nat) (p : Player.t) (d : Dungeon.t)
  : Go (Player.t * Dungeon.t) :=
  e0 <- must (Dungeon.Enemies d !! i) ;;
  let damage := Player.Attack p in
  let e := Enemy.set_Health (Enemy.Health e0 -i damage) e0 in
  let d1 := Dungeon.set_Enemies (<[i := e]> (Dungeon.Enemies d)) d in
  Printf ("You attack the " +:+ Enemy.Name e +:+ " for " +:+ fmt_d damage
          +:+ " damage!" +:+ nl) ;;;
  if Enemy.Health e <=? 0 then
    Printf ("You defeated the " +:+ Enemy.Name e +:+ "!" +:+ nl) ;;;
    let expGain := 5 +i Enemy.Damage e *i 2 in
    let p1 := Player.set_Exp (Player.Exp p +i expGain) p in
    Printf ("You gained " +:+ fmt_d expGain +:+ " experience points." +:+ nl) ;;;
    p2 <- CheckLevelUp fuel p1 ;;
    let d2 := RemoveEnemy i d1 in
    r <- Intn 2 ;;
    if r =? 0 then
      g <- Intn 10 ;;
      let goldAmount := 1 +i g in
      let p3 := Player.set_Gold (Player.Gold p2 +i goldAmount) p2 in
      Printf ("You found " +:+ fmt_d goldAmount +:+ " gold!" +:+ nl) ;;;
      ret (p3, d2)
    else ret (p2, d2)
  else
    let enemyDamage := Enemy.Damage e -i Player.Defense p in
    let enemyDamage := if enemyDamage <? 1 then 1 else enemyDamage in
    let p1 := Player.set_Health (Player.Health p -i enemyDamage) p in
    Printf ("The " +:+ Enemy.Name e +:+ " attacks you for " +:+ fmt_d enemyDamage
            +:+ " damage!" +:+ nl) ;;;
    (if Player.Health p1 <=? 0
     then Println "You have been defeated! Game over."
     else ret tt) ;;;
    ret (p1, d1).

(** [CollectItem]; [i] is the pointer [&d.Items[i]]. *)
Definition CollectItem (i : nat) (p : Player.t) (d : Dungeon.t)
  : Go (Player.t * Dungeon.t) :=
  it0 <- must (Dungeon.Items d !! i) ;;
  let it := Item.set_Collected true it0 in
  let d1 := Dungeon.set_Items (<[i := it]> (Dungeon.Items d)) d in
  match Item.Type_ it with
  | ItemGold =>
      let p1 := Player.set_Gold (Player.Gold p +i Item.Value it) p in
      Printf ("You collected " +:+ fmt_d (Item.Value it) +:+ " gold! You now have "
              +:+ fmt_d (Player.Gold p1) +:+ " gold." +:+ nl) ;;;
      ret (p1, d1)
  | ItemPotion | ItemWeapon | ItemArmor =>
      let p1 := Player.set_Inventory (Player.Inventory p ++ [it]) p in
      Printf ("You picked up a " +:+ Item.Name it +:+ "." +:+ nl) ;;;
      ret (p1, d1)
  | ItemTreasure | ItemKey => ret (p, d1)
  end.

(** [CheckPosition]: the effect of the tile under the player, then the pickup
    of an item lying there. *)
Definition CheckPosition (p : Player.t) (d : Dungeon.t)
  : Go (Player.t * Dungeon.t) :=
  tile <- must (GetTileAt d (Player.X p) (Player.Y p)) ;;
  r <- (if tile =? Treasure then
          n <- Intn 20 ;;
          let p1 := Player.set_Gold (Player.Gold p +i (10 +i n)) p in
          Printf ("You found some gold! You now have " +:+ fmt_d (Player.Gold p1)
                  +:+ " gold." +:+ nl) ;;;
          d1 <- must (write d (Player.X p) (Player.Y p) Floor) ;;
          ret (p1, d1)
        else if tile =? Trap then
          n <- Intn 3 ;;
          let damage := 2 +i n in
          let p1 := Player.set_Health (Player.Health p -i damage) p in
          Printf ("You triggered a trap! You take " +:+ fmt_d damage
                  +:+ " damage." +:+ nl) ;;;
          d1 <- must (write d (Player.X p) (Player.Y p) Floor) ;;
          (if Player.Health p1 <=? 0
           then Println "You died from a trap! Game over."
           else ret tt) ;;;
          ret (p1, d1)
        else if tile =? Door then
          Println "You open the door." ;;;
          d1 <- must (write d (Player.X p) (Player.Y p) Floor) ;;
          ret (p, d1)
        else if tile =? StairsDown then
          Println "You found stairs leading down! Press '>' to descend to the next level." ;;;
          ret (p, d)
        else ret (p, d)) ;;
  let p1 := fst r in
  let d1 := snd r in
  match GetItemAt d1 (Player.X p1) (Player.Y p1) with
  | Some i => CollectItem i p1 d1
  | None => ret (p1, d1)
  end.

Definition Move (fuel : nat) (dx dy : Z) (p : Player.t) (d : Dungeon.t)
  : Go (Player.t * Dungeon.t) :=
  let newX := Player.X p +i dx in
  let newY := Player.Y p +i dy in
  match GetEnemyAt d newX newY with
  | Some i => AttackEnemy fuel i p d
  | None =>
      walkable <- must (IsWalkable d newX newY) ;;
      if walkable then CheckPosition (Player.set_XY newX newY p) d
      else Println "You can't move there!" ;;; ret (p, d)
  end.

Definition UseItem (itemIndex : Z) (p : Player.t) : Go Player.t :=
  if (itemIndex <? 0) || (itemIndex >=? len (Player.Inventory p)) then
    Println "Invalid item index." ;;; ret p
  else
    item <- must (index (Player.Inventory p) itemIndex) ;;
    match Item.Type_ item with
    | ItemPotion =>
        let healAmount := Item.Value item in
        let health := Player.Health p +i healAmount in
        let health := if health >? Player.MaxHealth p then Player.MaxHealth p else health in
        let p1 := Player.set_Health health p in
        Printf ("You drink the " +:+ Item.Name item +:+ " and heal for "
                +:+ fmt_d healAmount +:+ " health points." +:+ nl) ;;;
        ret (Player.set_Inventory
               (take (Z.to_nat itemIndex) (Player.Inventory p1)
                ++ drop (Z.to_nat (itemIndex + 1)) (Player.Inventory p1)) p1)
    | ItemWeapon =>
        let p1 := Player.set_Attack (Item.Value item) p in
        Printf ("You equip the " +:+ Item.Name item +:+ ". Your attack is now "
                +:+ fmt_d (Player.Attack p1) +:+ "." +:+ nl) ;;;
        ret p1
    | ItemArmor =>
        let p1 := Player.set_Defense (Item.Value item) p in
        Printf ("You equip the " +:+ Item.Name item +:+ ". Your defense is now "
                +:+ fmt_d (Player.Defense p1) +:+ "." +:+ nl) ;;;
        ret p1
    | _ => ret p
    end.

(** ** Loops *)

(** [for _, a := range l { s = body(a, s) }]. *)
Fixpoint for_each {A S : Type} (l : list A) (body : A -> S -> Go S) (s : S) : Go S :=
  match l with
  | [] => ret s
  | a :: l' => s' <- body a s ;; for_each l' body s'
  end.

(** The values taken by [i] in [for i := lo; i < hi; i++]. *)
Definition range (lo hi : Z) : list Z := seqZ lo (hi - lo).

(** [for i := 0; i < n; i++ { s = body(s) }]. *)
Fixpoint times {S : Type} (n : nat) (body : S -> Go S) (s : S) : Go S :=
  match n with
  | O => ret s
  | S n' => s' <- body s ;; times n' body s'
  end.

(** ** Dungeon generation *)

Definition roomsOverlap (r1 r2 : Room.t) : bool :=
  (Room.X r1 -i 1 <=? Room.X r2 +i Room.Width r2)
  && (Room.X r1 +i Room.Width r1 +i 1 >=? Room.X r2)
  && (Room.Y r1 -i 1 <=? Room.Y r2 +i Room.Height r2)
  && (Room.Y r1 +i Room.Height r1 +i 1 >=? Room.Y r2).

Definition put (x y v : Z) (d : Dungeon.t) : Go Dungeon.t := must (write d x y v).

Definition carveRoom (room : Room.t) (d : Dungeon.t) : Go Dungeon.t :=
  for_each (range (Room.Y room) (Room.Y room +i Room.Height room))
    (fun y d =>
       for_each (range (Room.X room) (Room.X room +i Room.Width room))
         (fun x d => put x y Floor d) d) d.

Definition minSize : Z := 4.
Definition maxSize : Z := 10.

(** One iteration of the placement loop of [generateRooms]. *)
Definition placeRoom (d : Dungeon.t) : Go Dungeon.t :=
  rw <- Intn (maxSize -i minSize +i 1) ;;
  let width := minSize +i rw in
  rh <- Intn (maxSize -i minSize +i 1) ;;
  let height := minSize +i rh in
  rx <- Intn (Dungeon.Width d -i width -i 2) ;;
  let x := 1 +i rx in
  ry <- Intn (Dungeon.Height d -i height -i 2) ;;
  let y := 1 +i ry in
  let newRoom := Room.mk x y width height in
  let overlap := existsb (roomsOverlap newRoom) (Dungeon.Rooms d) in
  if negb overlap then
    d1 <- carveRoom newRoom d ;;
    ret (Dungeon.set_Rooms (Dungeon.Rooms d1 ++ [newRoom]) d1)
  else ret d.

Definition generateRooms (minRooms maxRooms : Z) (d : Dungeon.t) : Go Dungeon.t :=
  n <- Intn (maxRooms -i minRooms +i 1) ;;
  let numRooms := minRooms +i n in
  d1 <- times (Z.to_nat numRooms) placeRoom d ;;
  if len (Dungeon.Rooms d1) =? 0 then
    let room := Room.mk (Dungeon.Width d1 /i 4) (Dungeon.Height d1 /i 4)
                        (Dungeon.Width d1 /i 2) (Dungeon.Height d1 /i 2) in
    d2 <- carveRoom room d1 ;;
    ret (Dungeon.set_Rooms (Dungeon.Rooms d2 ++ [room]) d2)
  else ret d1.

Definition in_grid (d : Dungeon.t) (x y : Z) : bool :=
  (y >=? 0) && (y <? Dungeon.Height d) && (x >=? 0) && (x <? Dungeon.Width d).

(** The loop [for x := x1; x <= x2; x++] never ends when [x2] is the largest
    [int]. *)
Definition createHorizontalCorridor (x1 x2 y : Z) (d : Dungeon.t) : Go Dungeon.t :=
  let lo := if x1 >? x2 then x2 else x1 in
  let hi := if x1 >? x2 then x1 else x2 in
  if hi =? int_max then diverge
  else
    for_each (range lo (hi + 1))
      (fun x d => if in_grid d x y then put x y Floor d else ret d) d.

Definition createVerticalCorridor (y1 y2 x : Z) (d : Dungeon.t) : Go Dungeon.t :=
  let lo := if y1 >? y2 then y2 else y1 in
  let hi := if y1 >? y2 then y1 else y2 in
  if hi =? int_max then diverge
  else
    for_each (range lo (hi + 1))
      (fun y d => if in_grid d x y then put x y Floor d else ret d) d.

Definition connectRooms (d : Dungeon.t) : Go Dungeon.t :=
  if len (Dungeon.Rooms d) <=? 1 then ret d
  else
    for_each (range 0 (len (Dungeon.Rooms d) - 1))
      (fun i d =>
         r1 <- must (index (Dungeon.Rooms d) i) ;;
         r2 <- must (index (Dungeon.Rooms d) (i + 1)) ;;
         let x1 := Room.X r1 +i Room.Width r1 /i 2 in
         let y1 := Room.Y r1 +i Room.Height r1 /i 2 in
         let x2 := Room.X r2 +i Room.Width r2 /i 2 in
         let y2 := Room.Y r2 +i Room.Height r2 /i 2 in
         c <- Intn 2 ;;
         if c =? 0 then
           d1 <- createHorizontalCorridor x1 x2 y1 d ;;
           createVerticalCorridor y1 y2 x2 d1
         else
           d1 <- createVerticalCorridor y1 y2 x1 d ;;
           createHorizontalCorridor x1 x2 y2 d1) d.

Definition tile_at (d : Dungeon.t) (x y : Z) : Go Z :=
  must (cell (Dungeon.Grid d) x y).

(** The body of the scan of [addDoors]; [&&] and [||] evaluate their right
    operand only when needed. *)
Definition addDoor (x y : Z) (d : Dungeon.t) : Go Dungeon.t :=
  c <- tile_at d x y ;;
  if c =? Floor then
    up <- tile_at d x (y -i 1) ;;
    vertical <- (if up =? Wall
                 then down <- tile_at d x (y +i 1) ;; ret (down =? Wall)
                 else ret false) ;;
    pinched <- (if vertical : bool then ret true
                else
                  left <- tile_at d (x -i 1) y ;;
                  if left =? Wall
                  then right <- tile_at d (x +i 1) y ;; ret (right =? Wall)
                  else ret false) ;;
    if pinched : bool then
      n <- Intn 100 ;;
      if n <? 10 then put x y Door d else ret d
    else ret d
  else ret d.

Definition addDoors (d : Dungeon.t) : Go Dungeon.t :=
  for_each (range 1 (Dungeon.Height d -i 1))
    (fun y d => for_each (range 1 (Dungeon.Width d -i 1)) (fun x d => addDoor x y d) d) d.

(** The body of the loop of [addTreasures]. *)
Definition addTreasure (room : Room.t) (d : Dungeon.t) : Go Dungeon.t :=
  n <- Intn 100 ;;
  if n <? 40 then
    rx <- Intn (Room.Width room) ;;
    let treasureX := Room.X room +i rx in
    ry <- Intn (Room.Height room) ;;
    let treasureY := Room.Y room +i ry in
    d1 <- put treasureX treasureY Treasure d ;;
    v <- Intn 90 ;;
    ret (Dungeon.set_Items
           (Dungeon.Items d1
            ++ [Item.mk treasureX treasureY ItemTreasure "Gold" "" (10 +i v)
                        (rune "$") false]) d1)
  else ret d.

Definition addTreasures (d : Dungeon.t) : Go Dungeon.t :=
  for_each (Dungeon.Rooms d) addTreasure d.

(** The inner loop of [addTraps]: up to [attempts] tries to place one trap. *)
Fixpoint placeTrap (attempts : nat) (d : Dungeon.t) : Go Dungeon.t :=
  match attempts with
  | O => ret d
  | S attempts' =>
      rx <- Intn (Dungeon.Width d -i 2) ;;
      let x := 1 +i rx in
      ry <- Intn (Dungeon.Height d -i 2) ;;
      let y := 1 +i ry in
      c <- tile_at d x y ;;
      if c =? Floor then put x y Trap d
      else placeTrap attempts' d
  end.

Definition addTraps (d : Dungeon.t) : Go Dungeon.t :=
  n <- Intn 4 ;;
  let numTraps := 2 +i n in
  times (Z.to_nat numTraps) (placeTrap 50) d.

Definition addFeatures (d : Dungeon.t) : Go Dungeon.t :=
  d1 <- addDoors d ;;
  d2 <- addTreasures d1 ;;
  d3 <- addTraps d2 ;;
  if len (Dungeon.Rooms d3) >? 0 then
    lastRoom <- must (index (Dungeon.Rooms d3) (len (Dungeon.Rooms d3) - 1)) ;;
    let stairsX := Room.X lastRoom +i Room.Width lastRoom /i 2 in
    let stairsY := Room.Y lastRoom +i Room.Height lastRoom /i 2 in
    put stairsX stairsY StairsDown d3
  else ret d3.

Module EnemyType.
Record t := mk { name : string; symbol : Z; health : Z; damage : Z }.
End EnemyType.

(** The table of [spawnEnemies]. *)
Definition enemyTypes : list EnemyType.t :=
  [ EnemyType.mk "Goblin" (rune "g") 3 1;
    EnemyType.mk "Orc" (rune "o") 5 2;
    EnemyType.mk "Troll" (rune "T") 8 3;
    EnemyType.mk "Rat" (rune "r") 1 1;
    EnemyType.mk "Skeleton" (rune "s") 4 2 ].

(** [&Enemy{...}] of the given type at [(x, y)]. *)
Definition newEnemy (x y : Z) (enemyType : EnemyType.t) : Enemy.t :=
  Enemy.mk x y (EnemyType.health enemyType) (EnemyType.symbol enemyType)
           (EnemyType.name enemyType) (EnemyType.damage enemyType) true.

(** The loop of [spawnEnemies], with its [break]. *)
Fixpoint spawnLoop (n : nat) (d : Dungeon.t) : Go Dungeon.t :=
  match n with
  | O => ret d
  | S n' =>
      if len (Dungeon.Rooms d) <=? 1 then ret d
      else
        ri <- Intn (len (Dungeon.Rooms d) - 1) ;;
        let roomIndex := 1 + ri in
        room <- must (index (Dungeon.Rooms d) roomIndex) ;;
        rx <- Intn (Room.Width room) ;;
        let x := Room.X room +i rx in
        ry <- Intn (Room.Height room) ;;
        let y := Room.Y room +i ry in
        k <- Intn (len enemyTypes) ;;
        enemyType <- must (index enemyTypes k) ;;
        let enemy := newEnemy x y enemyType in
        spawnLoop n' (Dungeon.set_Enemies (Dungeon.Enemies d ++ [enemy]) d)
  end.

Definition spawnEnemies (min max : Z) (d : Dungeon.t) : Go Dungeon.t :=
  n <- Intn (max -i min +i 1) ;;
  let numEnemies := min +i n in
  spawnLoop (Z.to_nat numEnemies) d.

(** [make([][]rune, h)] and its rows, every cell a wall; [make] panics on a
    negative length. *)
Definition makeGrid (w h : Z) : option (list (list Z)) :=
  if h <? 0 then None
  else if (0 <? h) && (w <? 0) then None
  else Some (replicate (Z.to_nat h) (replicate (Z.to_nat w) Wall)).

Definition NewDungeon (w h : Z) : Go Dungeon.t :=
  grid <- must (makeGrid w h) ;;
  let d := Dungeon.mk w h grid [] [] [] 1 in
  d1 <- generateRooms 4 8 d ;;
  d2 <- connectRooms d1 ;;
  d3 <- addFeatures d2 ;;
  spawnEnemies 3 6 d3.

(** ** Enemy movement *)

Definition is_Some_bool {A : Type} (o : option A) : bool :=
  match o with Some _ => true | None => false end.

Definition abs (x : Z) : Z := if x <? 0 then 0 -i x else x.

Definition directions : list (Z * Z) := [(0, -1); (1, 0); (0, 1); (-1, 0)].

(** The body of the loop of [MoveEnemies] for the enemy pointed to by [i]. *)
Definition moveEnemy (player : Player.t) (i : nat) (d : Dungeon.t) : Go Dungeon.t :=
  enemy <- must (Dungeon.Enemies d !! i) ;;
  if Enemy.Health enemy <=? 0 then ret d
  else
    let distX := Player.X player -i Enemy.X enemy in
    let distY := Player.Y player -i Enemy.Y enemy in
    let distance := abs distX +i abs distY in
    dir <- (if (distance <? 5) && Enemy.Hostile enemy then
              if abs distX >? abs distY
              then ret (if distX >? 0 then (1, 0) else (-1, 0))
              else ret (if distY >? 0 then (0, 1) else (0, -1))
            else
              r <- Intn 3 ;;
              if r >? 0 then
                k <- Intn (len directions) ;;
                must (index directions k)
              else ret (0, 0)) ;;
    let newX := Enemy.X enemy +i fst dir in
    let newY := Enemy.Y enemy +i snd dir in
    if (newX =? Player.X player) && (newY =? Player.Y player) then ret d
    else
      walkable <- must (IsWalkable d newX newY) ;;
      if walkable && negb (is_Some_bool (GetEnemyAt d newX newY))
      then ret (Dungeon.set_Enemies
                  (<[i := Enemy.set_XY newX newY enemy]> (Dungeon.Enemies d)) d)
      else ret d.

Definition MoveEnemies (player : Player.t) (d : Dungeon.t) : Go Dungeon.t :=
  for_each (seq 0 (length (Dungeon.Enemies d))) (moveEnemy player) d.

(** ** The driver: commands of the playing state *)

Definition positions : list (Z * Z) :=
  [(-1, -1); (0, -1); (1, -1); (-1, 0); (1, 0); (-1, 1); (0, 1); (1, 1)].

(** The table of [spawnEnemyNearPlayer]. *)
Definition nearEnemyTypes : list EnemyType.t :=
  [ EnemyType.mk "Goblin" (rune "g") 3 1;
    EnemyType.mk "Rat" (rune "r") 1 1 ].

(** The loop of [spawnEnemyNearPlayer] over the remaining [positions]. *)
Fixpoint spawnNear (ps : list (Z * Z)) (player : Player.t) (dungeon : Dungeon.t)
  : Go Dungeon.t :=
  match ps with
  | [] => ret dungeon
  | pos :: ps' =>
      let x := Player.X player +i fst pos in
      let y := Player.Y player +i snd pos in
      walkable <- must (IsWalkable dungeon x y) ;;
      if walkable && negb (is_Some_bool (GetEnemyAt dungeon x y)) then
        k <- Intn (len nearEnemyTypes) ;;
        enemyType <- must (index nearEnemyTypes k) ;;
        let enemy := newEnemy x y enemyType in
        Printf ("A " +:+ Enemy.Name enemy +:+ " appears!" +:+ nl) ;;;
        ret (Dungeon.set_Enemies (Dungeon.Enemies dungeon ++ [enemy]) dungeon)
      else spawnNear ps' player dungeon
  end.

Definition spawnEnemyNearPlayer (player : Player.t) (dungeon : Dungeon.t)
  : Go Dungeon.t :=
  spawnNear positions player dungeon.

(** The player standing in the centre of the first room, or on [(1, 1)]. *)
Definition firstRoomCentre (dungeon : Dungeon.t) : Go (Z * Z) :=
  if len (Dungeon.Rooms dungeon) >? 0 then
    room <- must (index (Dungeon.Rooms dungeon) 0) ;;
    ret (Room.X room +i Room.Width room /i 2, Room.Y room +i Room.Height room /i 2)
  else ret (1, 1).

(** The case [">"] of the command switch. *)
Definition descend (player : Player.t) (dungeon : Dungeon.t)
  : Go (Player.t * Dungeon.t) :=
  tile <- must (GetTileAt dungeon (Player.X player) (Player.Y player)) ;;
  if tile =? StairsDown then
    dungeon <- NewDungeon 80 24 ;;
    let dungeon := Dungeon.set_Level (Dungeon.Level dungeon +i 1) dungeon in
    xy <- firstRoomCentre dungeon ;;
    let player := Player.set_XY (fst xy) (snd xy) player in
    Printf ("You descend to dungeon level " +:+ fmt_d (Dungeon.Level dungeon)
            +:+ "..." +:+ nl) ;;;
    ret (player, dungeon)
  else
    Println "There are no stairs here." ;;;
    ret (player, dungeon).

(** The case ["r"], ["rest"]. *)
Definition rest (player : Player.t) (dungeon : Dungeon.t)
  : Go (Player.t * Dungeon.t) :=
  r <- Intn 3 ;;
  if r =? 0 then
    Println "Your rest is interrupted by a wandering monster!" ;;;
    dungeon <- spawnEnemyNearPlayer player dungeon ;;
    ret (player, dungeon)
  else
    n <- Intn 3 ;;
    let healAmount := 2 +i n in
    let health := Player.Health player +i healAmount in
    let health := if health >? Player.MaxHealth player
                  then Player.MaxHealth player else health in
    let player := Player.set_Health health player in
    Printf ("You rest and recover " +:+ fmt_d healAmount +:+ " health points." +:+ nl) ;;;
    dungeon <- MoveEnemies player dungeon ;;
    ret (player, dungeon).

(** A movement command: the player's move, then the enemies'. *)
Definition step (fuel : nat) (dx dy : Z) (player : Player.t) (dungeon : Dungeon.t)
  : Go (Player.t * Dungeon.t) :=
  r <- Move fuel dx dy player dungeon ;;
  dungeon <- MoveEnemies (fst r) (snd r) ;;
  ret (fst r, dungeon).

Inductive GameState : Type :=
| StateMainMenu
| StatePlaying
| StateInventory
| StateGameOver.

Definition printHelp : Go unit :=
  for_each
    [ nl +:+ "=== Instructions ===";
      "Movement: w/up, a/left, s/down, d/right";
      "Actions:";
      "  i - Open inventory";
      "  > - Descend stairs (when standing on them)";
      "  r - Rest to recover health";
      "  h - Show this help";
      "  q - Quit game";
      nl +:+ "Symbols:";
      "  @ - Player";
      "  . - Floor";
      "  # - Wall";
      "  + - Door";
      "  $ - Treasure";
      "  ^ - Trap";
      "  > - Stairs down";
      "  g/o/T/s - Enemies (goblin, orc, troll, skeleton)";
      nl +:+ "Combat: Move into enemies to attack them";
      "" ]
    (fun line _ => Println line) tt.

Definition said (input a b : string) : bool :=
  String.eqb input a || String.eqb input b.

(** One pass of the main loop in the playing state, after the command has
    been read: the command switch, then the check of the player's death.
    The state [None] is the [return] that ends the program. *)
Definition playing (fuel : nat) (input : string) (player : Player.t)
    (dungeon : Dungeon.t) : Go (option GameState * (Player.t * Dungeon.t)) :=
  if said input "q" "quit" then
    Println "Thanks for playing! Goodbye!" ;;;
    ret (None, (player, dungeon))
  else
    r <- (if said input "w" "up" then
            r <- step fuel 0 (-1) player dungeon ;; ret (StatePlaying, r)
          else if said input "s" "down" then
            r <- step fuel 0 1 player dungeon ;; ret (StatePlaying, r)
          else if said input "a" "left" then
            r <- step fuel (-1) 0 player dungeon ;; ret (StatePlaying, r)
          else if said input "d" "right" then
            r <- step fuel 1 0 player dungeon ;; ret (StatePlaying, r)
          else if said input "i" "inventory" then
            ret (StateInventory, (player, dungeon))
          else if String.eqb input ">" then
            r <- descend player dungeon ;; ret (StatePlaying, r)
          else if said input "h" "help" then
            printHelp ;;; ret (StatePlaying, (player, dungeon))
          else if said input "r" "rest" then
            r <- rest player dungeon ;; ret (StatePlaying, r)
          else
            Println "Unknown command. Type 'h' or 'help' for instructions." ;;;
            ret (StatePlaying, (player, dungeon))) ;;
    if Player.Health (fst (snd r)) <=? 0
    then ret (Some StateGameOver, snd r)
    else ret (Some (fst r), snd r).

(** ** Vocabulary of the specification *)

(** [run fail m w Q]: from the world [w], [m] returns a value satisfying [Q];
    [fail] is what a panic or a divergence counts for ([False] for total
    correctness, [True] for partial correctness). *)
Definition run {A : Type} (fail : Prop) (m : Go A) (w : World) (Q : A -> Prop) : Prop :=
  match m w with
  | Done a _ => Q a
  | Panic | Diverge => fail
  end.

(** The grid has [Height] rows of [Width] cells. *)
Definition grid_ok (d : Dungeon.t) : Prop :=
  length (Dungeon.Grid d) = Z.to_nat (Dungeon.Height d)
  /\ Forall (fun row => length row = Z.to_nat (Dungeon.Width d)) (Dungeon.Grid d).

(** What the tile queries read of a dungeon. *)
Definition terrain (d : Dungeon.t) : Z * Z * list (list Z) :=
  (Dungeon.Width d, Dungeon.Height d, Dungeon.Grid d).

(** The level-up loop in the words of the specification, on mathematical
    integers. *)
Definition threshold (p : Player.t) : Z := 100 * Player.Level p.

Definition levelUp (p : Player.t) : Player.t :=
  Player.mk (Player.X p) (Player.Y p) (Player.MaxHealth p + 5)
            (Player.MaxHealth p + 5) (Player.Attack p + 1) (Player.Defense p)
            (Player.Gold p) (Player.Level p + 1)
            (Player.Exp p - threshold p) (Player.Inventory p).

Inductive Cascade : Player.t -> Player.t -> Prop :=
| Cascade_stop p : Player.Exp p < threshold p -> Cascade p p
| Cascade_step p q :
    threshold p <= Player.Exp p -> Cascade (levelUp p) q -> Cascade p q.

(** Statistics small enough for the level-up loop not to overflow. *)
Definition modest (p : Player.t) : Prop :=
  1 <= Player.Level p <= 2 ^ 48
  /\ 0 <= Player.Exp p <= 2 ^ 48
  /\ - 2 ^ 48 <= Player.MaxHealth p <= 2 ^ 48
  /\ - 2 ^ 48 <= Player.Attack p <= 2 ^ 48.

(** The invariant of the level-up loop behind [modest]. *)
Definition safe (p : Player.t) : Prop :=
  1 <= Player.Level p
  /\ 0 <= Player.Exp p
  /\ 100 * Player.Level p + Player.Exp p <= 2 ^ 62
  /\ - 2 ^ 62 <= Player.MaxHealth p /\ Player.MaxHealth p + Player.Exp p <= 2 ^ 62
  /\ - 2 ^ 62 <= Player.Attack p /\ Player.Attack p + Player.Exp p <= 2 ^ 62.

(** [later d d']: the dungeon [d] has become [d'] through commands of the
    playing state other than the descent, which replaces the dungeon. *)
Inductive later : Dungeon.t -> Dungeon.t -> Prop :=
| later_now d : later d d
| later_command d d1 d2 fuel input p p' s w w' :
    later d d1 ->
    input <> ">"%string ->
    playing fuel input p d1 w = Done (s, (p', d2)) w' ->
    later d d2.

(** A room inside the border of a [W] by [H] grid. *)
Definition room_ok (W H : Z) (r : Room.t) : Prop :=
  1 <= Room.X r /\ 1 <= Room.Width r /\ Room.X r + Room.Width r <= W - 1
  /\ 1 <= Room.Y r /\ 1 <= Room.Height r /\ Room.Y r + Room.Height r <= H - 1.

(** A dungeon under generation: its dimensions, level and rooms, a grid of
    the declared dimensions, every room inside the border. *)
Definition shaped (W H L : Z) (rooms : list Room.t) (d : Dungeon.t) : Prop :=
  Dungeon.Width d = W /\ Dungeon.Height d = H /\ Dungeon.Level d = L
  /\ Dungeon.Rooms d = rooms /\ grid_ok d /\ Forall (room_ok W H) rooms.

(** The cells of a room and of the one-tile margin around it. *)
Definition padded (r : Room.t) (x y : Z) : Prop :=
  Room.X r - 1 <= x <= Room.X r + Room.Width r
  /\ Room.Y r - 1 <= y <= Room.Y r + Room.Height r.

Definition padded_meet (r1 r2 : Room.t) : Prop :=
  exists x y, padded r1 x y /\ padded r2 x y.

(** No two rooms of the list have padded boxes that meet. *)
Definition apart (rooms : list Room.t) : Prop :=
  forall i j r1 r2, i <> j -> rooms !! i = Some r1 -> rooms !! j = Some r2 ->
                    ~ padded_meet r1 r2.

(** What [addTreasures] registers for a treasure tile: an item of type
    [ItemTreasure] named "Gold", worth 10 to 99, lying on a [Treasure] tile
    of the grid [g] inside one of the [rooms]. *)
Definition treasure_item (rooms : list Room.t) (g : list (list Z)) (it : Item.t) : Prop :=
  Item.Type_ it = ItemTreasure /\ Item.Name it = "Gold"%string
  /\ 10 <= Item.Value it <= 99 /\ Item.Collected it = false
  /\ cell g (Item.X it) (Item.Y it) = Some Treasure
  /\ exists room rx ry,
       room ∈ rooms /\ 0 <= rx < Room.Width room /\ 0 <= ry < Room.Height room
       /\ Item.X it = Room.X room +i rx /\ Item.Y it = Room.Y room +i ry.

(** The treasure tiles of [g'] that [g] did not have lie under the items [new]. *)
Definition treasures_covered (g g' : list (list Z)) (new : list Item.t) : Prop :=
  forall x y, cell g' x y = Some Treasure ->
              cell g x y = Some Treasure
              \/ exists it, it ∈ new /\ Item.X it = x /\ Item.Y it = y.

(** An enemy made from an entry of the table [types]. *)
Definition spawned_from (types : list EnemyType.t) (e : Enemy.t) : Prop :=
  exists enemyType x y, enemyType ∈ types /\ e = newEnemy x y enemyType.

(** ** Sample worlds and dungeons *)

(** A sample world: a fixed stream of raw draws (256 values of a quadratic
    congruence, then zeros), nothing printed yet. *)
Definition sample_numbers : list Z :=
  Eval vm_compute in
    map (fun i => (Z.of_nat i * 7919 + 104729 * (Z.of_nat i * Z.of_nat i) + 13)
                  mod 1000003)
        (seq 0 256).
Definition sample_draws (i : nat) : Z := nth i sample_numbers 0.
Definition sample_world : World := mkWorld sample_draws 0 [].

(** The world whose fourth draw is [k], the others 0. *)
Definition fourth_draw_world (k : Z) : World :=
  mkWorld (fun i => match i with 3%nat => k | _ => 0 end) 0 [].

(** The world whose random source always draws [k]. *)
Definition constant_world (k : Z) : World := mkWorld (fun _ => k) 0 [].

(** A sample dungeon: two floor cells inside walls, a troll on the second. *)
Definition sample_enemy : Enemy.t :=
  newEnemy 2 1 (EnemyType.mk "Troll" (rune "T") 8 3).

Definition sample_dungeon : Dungeon.t :=
  Dungeon.mk 4 3
    [[Wall; Wall; Wall; Wall]; [Wall; Floor; Floor; Wall]; [Wall; Wall; Wall; Wall]]
    [] [sample_enemy] [] 1.

(** A sample dungeon with a trap under the player's feet. *)
Definition trap_dungeon : Dungeon.t :=
  Dungeon.mk 3 3
    [[Wall; Wall; Wall]; [Wall; Trap; Wall]; [Wall; Wall; Wall]]
    [] [] [] 1.

(** A level-2 dungeon with the stairs under the player's feet. *)
Definition stairs_dungeon : Dungeon.t :=
  Dungeon.mk 3 3
    [[Wall; Wall; Wall]; [Wall; StairsDown; Wall]; [Wall; Wall; Wall]]
    [] [] [] 2.

(** The dungeon [NewDungeon 80 24] starts from: walls only. *)
Definition blank_dungeon : Dungeon.t :=
  Dungeon.mk 80 24 (replicate 24 (replicate 80 Wall)) [] [] [] 1.

(** A dungeon of one room, not yet furnished. *)
Definition one_room : Dungeon.t :=
  Dungeon.mk 6 5
    [[Wall; Wall; Wall; Wall; Wall; Wall];
     [Wall; Floor; Floor; Floor; Floor; Wall];
     [Wall; Floor; Floor; Floor; Floor; Wall];
     [Wall; Floor; Floor; Floor; Floor; Wall];
     [Wall; Wall; Wall; Wall; Wall; Wall]]
    [Room.mk 1 1 4 3] [] [] 1.

(** A dungeon with two rooms listed. *)
Definition two_rooms : Dungeon.t :=
  Dungeon.mk 80 24 (replicate 24 (replicate 80 Wall))
    [Room.mk 1 1 4 4; Room.mk 10 10 5 5] [] [] 1.

(** A dungeon of floor tiles only. *)
Definition open_dungeon : Dungeon.t :=
  Dungeon.mk 3 3 (replicate 3 (replicate 3 Floor)) [] [] [] 1.

(** The player put on the stairs of [d], the centre of its last room. *)
Definition on_stairs (p : Player.t) (d : Dungeon.t) : Player.t :=
  match last (Dungeon.Rooms d) with
  | Some r =>
      Player.set_XY (Room.X r +i Room.Width r /i 2) (Room.Y r +i Room.Height r /i 2) p
  | None => p
  end.

(** ** Vocabulary of the generated layout *)

(** The tiles the generator lays before the stairs. *)
Definition furnishing (v : Z) : Prop :=
  v = Floor \/ v = Door \/ v = Treasure \/ v = Trap.

(** A cell inside the one-tile border of a [W] by [H] grid. *)
Definition interior (W H x y : Z) : Prop := 1 <= x <= W - 2 /\ 1 <= y <= H - 2.

(** Every cell walkable in [d] is walkable in [d']. *)
Definition extends (d d' : Dungeon.t) : Prop :=
  forall x y, IsWalkable d x y = Some true -> IsWalkable d' x y = Some true.

(** Every cell of the room is walkable. *)
Definition room_open (d : Dungeon.t) (r : Room.t) : Prop :=
  forall x y,
    Room.X r <= x < Room.X r + Room.Width r ->
    Room.Y r <= y < Room.Y r + Room.Height r ->
    IsWalkable d x y = Some true.

(** The centre of a room, where the player, the corridors and the stairs go. *)
Definition centre (r : Room.t) : Z * Z :=
  (Room.X r + Room.Width r / 2, Room.Y r + Room.Height r / 2).

(** Two cells one step apart along an axis. *)
Definition adjacent (a b : Z * Z) : Prop :=
  Z.abs (fst a - fst b) + Z.abs (snd a - snd b) = 1.

(** [linked d a b]: a walk from [a] to [b] over walkable cells, one step
    along an axis at a time. *)
Inductive linked (d : Dungeon.t) : Z * Z -> Z * Z -> Prop :=
| linked_here a : IsWalkable d (fst a) (snd a) = Some true -> linked d a a
| linked_step a b c :
    linked d a b -> adjacent b c -> IsWalkable d (fst c) (snd c) = Some true ->
    linked d a c.

(** The outer ring of the grid is made of walls. *)
Definition border_walls (d : Dungeon.t) : Prop :=
  forall x y,
    0 <= x < Dungeon.Width d -> 0 <= y < Dungeon.Height d ->
    x = 0 \/ x = Dungeon.Width d - 1 \/ y = 0 \/ y = Dungeon.Height d - 1 ->
    cell (Dungeon.Grid d) x y = Some Wall.

Definition no_stairs (d : Dungeon.t) : Prop :=
  forall x y, cell (Dungeon.Grid d) x y <> Some StairsDown.

(** The cell [(x, y)] lies in the room. *)
Definition inside (r : Room.t) (x y : Z) : Prop :=
  Room.X r <= x < Room.X r + Room.Width r /\ Room.Y r <= y < Room.Y r + Room.Height r.

(** An enemy of the table of [spawnEnemies] standing in a room other than
    the first. *)
Definition garrisoned (rooms : list Room.t) (e : Enemy.t) : Prop :=
  spawned_from enemyTypes e
  /\ exists i room, (1 <= i)%nat /\ rooms !! i = Some room
                    /\ inside room (Enemy.X e) (Enemy.Y e).

(** What [NewDungeon] builds. *)
Record laid_out (d : Dungeon.t) : Prop := {
  laid_shaped : exists rooms, shaped (Dungeon.Width d) (Dungeon.Height d) 1 rooms d
                              /\ rooms <> [] /\ apart rooms;
  laid_open : Forall (room_open d) (Dungeon.Rooms d);
  laid_linked : forall i r1 r2,
      index (Dungeon.Rooms d) i = Some r1 -> index (Dungeon.Rooms d) (i + 1) = Some r2 ->
      linked d (centre r1) (centre r2);
  laid_border : border_walls d;
  laid_stairs : forall rl,
      index (Dungeon.Rooms d) (len (Dungeon.Rooms d) - 1) = Some rl ->
      forall x y, cell (Dungeon.Grid d) x y = Some StairsDown <-> (x, y) = centre rl;
  laid_enemies : Forall (garrisoned (Dungeon.Rooms d)) (Dungeon.Enemies d);
  laid_count : if len (Dungeon.Rooms d) <=? 1 then Dungeon.Enemies d = []
               else 3 <= len (Dungeon.Enemies d) <= 6;
  laid_items : Forall (fun it => Item.Type_ it = ItemTreasure) (Dungeon.Items d)
}.

(** ** The game: screens and states *)

(** An enemy in play around a player on [(px, py)]: alive, with the health
    and the damage of the spawn tables, on a walkable cell that is not the
    player's. *)
Definition enemy_ok (d : Dungeon.t) (px py : Z) (e : Enemy.t) : Prop :=
  0 < Enemy.Health e <= 8 /\ 1 <= Enemy.Damage e <= 3
  /\ IsWalkable d (Enemy.X e) (Enemy.Y e) = Some true
  /\ ~ (Enemy.X e = px /\ Enemy.Y e = py).

(** The dungeon in play around a player on [(px, py)]. *)
Definition arena (d : Dungeon.t) (px py : Z) : Prop :=
  grid_ok d
  /\ IsWalkable d px py = Some true
  /\ Forall (enemy_ok d px py) (Dungeon.Enemies d)
  /\ Forall (fun it => Item.Type_ it = ItemTreasure) (Dungeon.Items d).

(** The player in play: nothing carried, nothing equipped, the statistics
    those of the level. *)
Definition fit (p : Player.t) : Prop :=
  1 <= Player.Level p
  /\ 0 <= Player.Exp p < 100 * Player.Level p
  /\ Player.MaxHealth p = 15 + 5 * Player.Level p
  /\ Player.Attack p = 2 + Player.Level p
  /\ Player.Defense p = 1
  /\ Player.Health p <= Player.MaxHealth p
  /\ Player.Inventory p = [].

Definition sound (p : Player.t) (d : Dungeon.t) : Prop :=
  arena d (Player.X p) (Player.Y p) /\ fit p.

(** The start of [main] and the restart of the game-over screen: a new
    dungeon, a new player in the centre of its first room. *)
Definition newGame : Go (Player.t * Dungeon.t) :=
  dungeon <- NewDungeon 80 24 ;;
  xy <- firstRoomCentre dungeon ;;
  ret (NewPlayer (fst xy) (snd xy), dungeon).

(** One pass of the main loop in the inventory state, after the answer has
    been read; [scanned] is what [fmt.Sscanf(input, "%d", &itemIndex)] makes
    of it, [None] when it returns an error. *)
Definition inventoryScreen (input : string) (scanned : option Z) (player : Player.t)
  : Go (GameState * Player.t) :=
  if said input "b" "back" then ret (StatePlaying, player)
  else
    match scanned with
    | Some itemIndex =>
        if (itemIndex >? 0) && (itemIndex <=? len (Player.Inventory player)) then
          player <- UseItem (itemIndex -i 1) player ;;
          ret (StateInventory, player)
        else
          Println "Invalid item selection." ;;; ret (StateInventory, player)
    | None => Println "Invalid item selection." ;;; ret (StateInventory, player)
    end.

(** One pass of the main loop in the game-over state, after the answer has
    been read.  The state [None] is the [return] that ends the program. *)
Definition gameOver (input : string) (player : Player.t) (dungeon : Dungeon.t)
  : Go (option GameState * (Player.t * Dungeon.t)) :=
  if said input "r" "restart" then
    r <- newGame ;; ret (Some StatePlaying, r)
  else if said input "q" "quit" then
    Println "Thanks for playing! Goodbye!" ;;; ret (None, (player, dungeon))
  else ret (Some StateGameOver, (player, dungeon)).

(** [reachable n s p d]: the main loop can be in state [s] with the player
    [p] and the dungeon [d] after [n] answers. *)
Inductive reachable : nat -> GameState -> Player.t -> Dungeon.t -> Prop :=
| reachable_start w p d w' :
    newGame w = Done (p, d) w' -> reachable 0 StatePlaying p d
| reachable_playing n fuel input p d w s p' d' w' :
    reachable n StatePlaying p d ->
    playing fuel input p d w = Done (Some s, (p', d')) w' ->
    reachable (S n) s p' d'
| reachable_inventory n input scanned p d w s p' w' :
    reachable n StateInventory p d ->
    inventoryScreen input scanned p w = Done (s, p') w' ->
    reachable (S n) s p' d
| reachable_gameOver n input p d w s p' d' w' :
    reachable n StateGameOver p d ->
    gameOver input p d w = Done (Some s, (p', d')) w' ->
    reachable (S n) s p' d'.

(** What a round of [MoveEnemies] may do to an enemy: nothing, or, if it is
    alive, one step along an axis onto a walkable cell that is not the
    player's. *)
Definition stepped (player : Player.t) (d : Dungeon.t) (e e' : Enemy.t) : Prop :=
  e' = e
  \/ exists dx dy,
       Z.abs dx + Z.abs dy <= 1
       /\ e' = Enemy.set_XY (Enemy.X e +i dx) (Enemy.Y e +i dy) e
       /\ 0 < Enemy.Health e
       /\ IsWalkable d (Enemy.X e') (Enemy.Y e') = Some true
       /\ ~ (Enemy.X e' = Player.X player /\ Enemy.Y e' = Player.Y player).

(** A cell where [spawnEnemyNearPlayer] puts no enemy: not walkable, or
    held by a living enemy. *)
Definition blocked (d : Dungeon.t) (x y : Z) : Prop :=
  IsWalkable d x y = Some false \/ GetEnemyAt d x y <> None.

(** A sample dungeon with a treasure under the player's feet, and the item
    registered for it. *)
Definition treasure_dungeon : Dungeon.t :=
  Dungeon.mk 3 3
    [[Wall; Wall; Wall]; [Wall; Treasure; Wall]; [Wall; Wall; Wall]]
    [] [] [Item.mk 1 1 ItemTreasure "Gold" "" 57 (rune "$") false] 1.

(** The sample dungeon with a goblin in place of the troll. *)
Definition goblin_dungeon : Dungeon.t :=
  Dungeon.set_Enemies [newEnemy 2 1 (EnemyType.mk "Goblin" (rune "g") 3 1)]
    sample_dungeon.

(** ** Items *)

Definition byte (z : Z) : ascii := ascii_of_N (Z.to_N z).

(** [string(i)] for an integer [i]: the UTF-8 encoding of the code point [i],
    of U+FFFD when [i] is not a valid code point. *)
Definition string_of_rune (r : Z) : string :=
  if (r <? 0) || (r >? 1114111) || ((55296 <=? r) && (r <=? 57343)) then
    String (byte 239) (String (byte 191) (String (byte 189) EmptyString))
  else if r <? 128 then String (byte r) EmptyString
  else if r <? 2048 then
    String (byte (192 + r / 64)) (String (byte (128 + r mod 64)) EmptyString)
  else if r <? 65536 then
    String (byte (224 + r / 4096))
      (String (byte (128 + (r / 64) mod 64))
         (String (byte (128 + r mod 64)) EmptyString))
  else
    String (byte (240 + r / 262144))
      (String (byte (128 + (r / 4096) mod 64))
         (String (byte (128 + (r / 64) mod 64))
            (String (byte (128 + r mod 64)) EmptyString))).

Definition NewHealthPotion (x y : Z) : Item.t :=
  Item.mk x y ItemPotion "Health Potion" "Restores 10 health points" 10
          (rune "!") false.

Definition NewWeapon (x y : Z) (name : string) (damage : Z) : Item.t :=
  Item.mk x y ItemWeapon name ("Increases attack by " +:+ string_of_rune damage)
          damage (rune "/") false.

Definition NewArmor (x y : Z) (name : string) (defense : Z) : Item.t :=
  Item.mk x y ItemArmor name ("Increases defense by " +:+ string_of_rune defense)
          defense (rune "[") false.

Definition NewGold (x y : Z) (amount : Z) : Item.t :=
  Item.mk x y ItemGold "Gold" ("Worth " +:+ string_of_rune amount +:+ " gold")
          amount (rune "$") false.

Definition NewKey (x y : Z) : Item.t :=
  Item.mk x y ItemKey "Key" "Can unlock doors" 1 (rune "k") false.

(** ** Machine arithmetic *)

Lemma wrap_small z : is_int z -> wrap z = z.
Proof.
  unfold is_int, int_min, int_max, wrap. intros H.
  rewrite Z.mod_small by lia. lia.
Qed.

Lemma wrap_is_int z : is_int (wrap z).
Proof.
  unfold is_int, int_min, int_max, wrap.
  pose proof (Z.mod_pos_bound (z + 2 ^ 63) (2 ^ 64) ltac:(lia)). lia.
Qed.

Lemma is_int_iff z : is_int z <-> - 9223372036854775808 <= z <= 9223372036854775807.
Proof. unfold is_int, int_min, int_max. lia. Qed.

(** Evaluates the powers of two in the goal and the hypotheses. *)
Ltac pow2 :=
  repeat match goal with
         | |- context [2 ^ ?n] =>
             let v := eval vm_compute in (2 ^ n) in change (2 ^ n) with v in *
         | H : context [2 ^ ?n] |- _ =>
             let v := eval vm_compute in (2 ^ n) in change (2 ^ n) with v in *
         end.

(** Removes the wrap-arounds whose argument [lia] can bound. *)
Ltac unwrap :=
  unfold add, sub, mul, quo in *;
  repeat match goal with
         | |- context [wrap ?z] =>
             rewrite (wrap_small z) by (apply is_int_iff; lia)
         | H : context [wrap ?z] |- _ =>
             rewrite (wrap_small z) in H by (apply is_int_iff; lia)
         end.

(** [unwrap] for quotients. *)
Ltac unwrap_div :=
  unfold add, sub, mul, quo in *;
  repeat match goal with
         | |- context [wrap ?z] =>
             rewrite (wrap_small z)
               by (apply is_int_iff; Z.to_euclidean_division_equations; lia)
         end.

(** ** Rules for [run] *)

Section Run.
Variable fail : Prop.

Lemma run_ret {A} (a : A) w (Q : A -> Prop) : Q a -> run fail (ret a) w Q.
Proof. intros H. exact H. Qed.

Lemma run_bind {A B} (m : Go A) (k : A -> Go B) w (Q : B -> Prop) :
  run fail m w (fun a => forall w', run fail (k a) w' Q) ->
  run fail (bind m k) w Q.
Proof.
  unfold run, bind. destruct (m w) as [a w'| |]; auto.
  intros H. apply H.
Qed.

Lemma run_mono {A} (m : Go A) w (Q Q' : A -> Prop) :
  run fail m w Q -> (forall a, Q a -> Q' a) -> run fail m w Q'.
Proof. unfold run. destruct (m w); auto. Qed.

Lemma run_Intn n w (Q : Z -> Prop) :
  (n <= 0 -> fail) -> (forall r, 0 <= r < n -> Q r) -> run fail (Intn n) w Q.
Proof.
  intros Hf HQ. unfold run, Intn.
  destruct (Z.leb_spec n 0); [auto|].
  apply HQ, Z.mod_pos_bound. lia.
Qed.

Lemma run_must {A} (o : option A) w (Q : A -> Prop) :
  (o = None -> fail) -> (forall a, o = Some a -> Q a) -> run fail (must o) w Q.
Proof. destruct o; unfold run; simpl; auto. Qed.

Lemma run_Printf s w (Q : unit -> Prop) : Q tt -> run fail (Printf s) w Q.
Proof. auto. Qed.

Lemma run_Println s w (Q : unit -> Prop) : Q tt -> run fail (Println s) w Q.
Proof. auto. Qed.

Lemma run_for_each {A S} (I : S -> Prop) (l : list A) (body : A -> S -> Go S) :
  (forall a s w, a ∈ l -> I s -> run fail (body a s) w I) ->
  forall s w, I s -> run fail (for_each l body s) w I.
Proof.
  induction l as [|a l IH]; intros Hb s w Hs; simpl.
  - exact Hs.
  - apply run_bind. eapply run_mono.
    + apply Hb; [left | exact Hs].
    + intros s' Hs' w'. apply IH; [|exact Hs'].
      intros a' s0 w0 Hin. apply Hb. now right.
Qed.

Lemma run_times {S} (I : S -> Prop) (n : nat) (body : S -> Go S) :
  (forall s w, I s -> run fail (body s) w I) ->
  forall s w, I s -> run fail (times n body s) w I.
Proof.
  intros Hb. induction n as [|n IH]; intros s w Hs; simpl.
  - exact Hs.
  - apply run_bind. eapply run_mono; [apply Hb, Hs|].
    intros s' Hs' w'. now apply IH.
Qed.
End Run.

Lemma total_Done {A} (m : Go A) w (Q : A -> Prop) :
  run False m w Q -> exists a w', m w = Done a w' /\ Q a.
Proof. unfold run. destruct (m w) as [a w'| |]; [eauto | tauto | tauto]. Qed.

Lemma partial_Done {A} (m : Go A) w (Q : A -> Prop) a w' :
  run True m w Q -> m w = Done a w' -> Q a.
Proof. unfold run. intros H E. now rewrite E in H. Qed.


(** One step through a [Go] computation under [run]. *)
Ltac run_step :=
  lazymatch goal with
  | |- run _ (ret _) _ _ => apply run_ret
  | |- run _ (must (Some ?a)) _ ?Q => change (Q a)
  | |- run _ (Printf _) _ _ => apply run_Printf
  | |- run _ (Println _) _ _ => apply run_Println
  | |- run _ (bind _ _) _ _ => apply run_bind
  end;
  cbv beta; intros; cbv beta.

(** ** Tile queries *)

Lemma cell_in_grid d x y :
  grid_ok d -> 0 <= x < Dungeon.Width d -> 0 <= y < Dungeon.Height d ->
  exists tile, cell (Dungeon.Grid d) x y = Some tile.
Proof.
  intros [Hh Hw] Hx Hy. unfold cell, index.
  destruct (Z.ltb_spec y 0); [lia|].
  destruct (lookup_lt_is_Some_2 (Dungeon.Grid d) (Z.to_nat y)) as [row Hrow]; [lia|].
  rewrite Hrow.
  destruct (Z.ltb_spec x 0); [lia|].
  apply lookup_lt_is_Some_2.
  rewrite Forall_forall in Hw. rewrite (Hw row); [lia|].
  eapply list_elem_of_lookup_2, Hrow.
Qed.

Lemma out_of_bounds_true d x y :
  out_of_bounds d x y = true
  <-> x < 0 \/ y < 0 \/ Dungeon.Width d <= x \/ Dungeon.Height d <= y.
Proof. unfold out_of_bounds. rewrite !orb_true_iff. lia. Qed.

Lemma out_of_bounds_false d x y :
  out_of_bounds d x y = false
  <-> 0 <= x < Dungeon.Width d /\ 0 <= y < Dungeon.Height d.
Proof. unfold out_of_bounds. rewrite !orb_false_iff. lia. Qed.

Lemma walkable_tile_true tile :
  walkable_tile tile = true
  <-> tile = Floor \/ tile = Door \/ tile = Treasure \/ tile = Trap \/ tile = StairsDown.
Proof. unfold walkable_tile. rewrite !orb_true_iff, !Z.eqb_eq. tauto. Qed.

(** C10. On a dungeon whose grid has the declared dimensions, the two tile
    queries answer at every coordinate without indexing outside the grid:
    outside the bounds [GetTileAt] is [Wall] and [IsWalkable] is false;
    inside, [GetTileAt] is the stored tile and [IsWalkable] is true exactly
    for [Floor], [Door], [Treasure], [Trap] and [StairsDown]. *)
Theorem tile_queries_total d x y :
  grid_ok d ->
  (x < 0 \/ y < 0 \/ Dungeon.Width d <= x \/ Dungeon.Height d <= y ->
   GetTileAt d x y = Some Wall /\ IsWalkable d x y = Some false)
  /\ (0 <= x < Dungeon.Width d /\ 0 <= y < Dungeon.Height d ->
      exists tile b,
        cell (Dungeon.Grid d) x y = Some tile
        /\ GetTileAt d x y = Some tile
        /\ IsWalkable d x y = Some b
        /\ (b = true <->
            tile = Floor \/ tile = Door \/ tile = Treasure \/ tile = Trap
            \/ tile = StairsDown)).
Proof.
  intros Hg. split.
  - intros Hout. apply out_of_bounds_true in Hout.
    unfold GetTileAt, IsWalkable. now rewrite Hout.
  - intros [Hx Hy]. destruct (cell_in_grid d x y Hg Hx Hy) as [tile Ht].
    exists tile, (walkable_tile tile).
    assert (out_of_bounds d x y = false) as Hin by now apply out_of_bounds_false.
    unfold GetTileAt, IsWalkable. rewrite Hin, Ht.
    repeat split; apply walkable_tile_true.
Qed.

Lemma sample_dungeon_grid_ok : grid_ok sample_dungeon.
Proof. split; [reflexivity|]. repeat constructor. Qed.

Lemma tile_queries_total_witness :
  grid_ok sample_dungeon
  /\ GetTileAt sample_dungeon (-1) 7 = Some Wall
  /\ IsWalkable sample_dungeon (-1) 7 = Some false
  /\ GetTileAt sample_dungeon 1 1 = Some Floor
  /\ IsWalkable sample_dungeon 1 1 = Some true.
Proof.
  split; [exact sample_dungeon_grid_ok|].
  destruct (tile_queries_total sample_dungeon (-1) 7 sample_dungeon_grid_ok)
    as [Hout _].
  destruct Hout as [Ht Hw]; [left; reflexivity|].
  split; [exact Ht|]. split; [exact Hw|]. split; reflexivity.
Defined.

(** ** Levelling up *)

Lemma CheckLevelUp_below fuel p w :
  (Player.Exp p >=? 100 *i Player.Level p) = false -> CheckLevelUp fuel p w = Done p w.
Proof. intros H. destruct fuel; cbn [CheckLevelUp]; rewrite H; reflexivity. Qed.

Lemma CheckLevelUp_above fuel p w :
  (Player.Exp p >=? 100 *i Player.Level p) = true ->
  exists w',
    CheckLevelUp (S fuel) p w
    = CheckLevelUp fuel
        (Player.mk (Player.X p) (Player.Y p) (Player.MaxHealth p +i 5)
           (Player.MaxHealth p +i 5) (Player.Attack p +i 1) (Player.Defense p)
           (Player.Gold p) (Player.Level p +i 1)
           (Player.Exp p -i 100 *i Player.Level p) (Player.Inventory p)) w'.
Proof.
  intros H. cbn [CheckLevelUp]. rewrite H. unfold bind, Printf. eexists. reflexivity.
Qed.

(** C2, as the code has it. From level 1 with 250 experience points the
    level-up check stops at level 2 with 150 points left: the second
    threshold is 200. *)
Theorem CheckLevelUp_250 x y h mh a df g inv fuel w :
  exists w',
    CheckLevelUp (S fuel) (Player.mk x y h mh a df g 1 250 inv) w
    = Done (Player.mk x y (mh +i 5) (mh +i 5) (a +i 1) df g 2 150 inv) w'.
Proof.
  destruct (CheckLevelUp_above fuel (Player.mk x y h mh a df g 1 250 inv) w)
    as [w' E]; [reflexivity|].
  exists w'. rewrite E. apply CheckLevelUp_below. reflexivity.
Qed.

(** C2, as stated, fails: a new player given 250 experience points ends at
    level 2 with 150 points, not at level 3 with 50. *)
Example CheckLevelUp_250_stops_at_level_2 :
  exists p w',
    CheckLevelUp 5 (Player.mk 0 0 20 20 3 1 0 1 250 []) sample_world = Done p w'
    /\ Player.Level p = 2 /\ Player.Exp p = 150
    /\ Player.Level p <> 3 /\ Player.Exp p <> 50.
Proof.
  destruct (CheckLevelUp_above 4 (Player.mk 0 0 20 20 3 1 0 1 250 []) sample_world)
    as [w' E]; [reflexivity|].
  exists (Player.mk 0 0 25 25 4 1 0 2 150 []), w'.
  split; [|repeat split; discriminate].
  rewrite E. apply (CheckLevelUp_below 4 (Player.mk 0 0 25 25 4 1 0 2 150 [])).
  reflexivity.
Qed.

Lemma modest_safe p : modest p -> safe p.
Proof. unfold modest, safe. pow2. lia. Qed.

Lemma safe_levelUp p : safe p -> threshold p <= Player.Exp p -> safe (levelUp p).
Proof.
  unfold safe, levelUp. cbn -[Z.mul Z.add Z.sub Z.pow]. unfold threshold. pow2. lia.
Qed.

Lemma CheckLevelUp_stop fuel p w :
  safe p -> Player.Exp p < threshold p -> CheckLevelUp fuel p w = Done p w.
Proof.
  unfold safe, threshold. pow2. intros Hs Hlt.
  apply CheckLevelUp_below. unwrap. lia.
Qed.

Lemma CheckLevelUp_step fuel p w :
  safe p -> threshold p <= Player.Exp p ->
  exists w', CheckLevelUp (S fuel) p w = CheckLevelUp fuel (levelUp p) w'.
Proof.
  unfold safe. pow2. intros Hs Hle.
  destruct (CheckLevelUp_above fuel p w) as [w' E].
  - unfold threshold in Hle. unwrap. lia.
  - exists w'. rewrite E. unfold levelUp, threshold in *. unwrap. reflexivity.
Qed.

Lemma CheckLevelUp_runs fuel : forall p,
  safe p -> (Z.to_nat (Player.Exp p) <= fuel)%nat ->
  exists q, Cascade p q /\ forall w, exists w', CheckLevelUp fuel p w = Done q w'.
Proof.
  induction fuel as [|fuel IH]; intros p Hs Hf.
  - exists p.
    assert (Player.Exp p < threshold p) by (unfold safe, threshold in *; pow2; lia).
    split; [now constructor|]. intros w. exists w. now apply CheckLevelUp_stop.
  - destruct (Z.lt_ge_cases (Player.Exp p) (threshold p)) as [Hlt|Hge].
    + exists p. split; [now constructor|].
      intros w. exists w. now apply CheckLevelUp_stop.
    + destruct (IH (levelUp p)) as (q & Hc & Hq).
      * now apply safe_levelUp.
      * unfold safe, levelUp in *. cbn -[Z.mul Z.add Z.sub Z.pow Z.to_nat].
        unfold threshold in *. pow2. lia.
      * exists q. split; [now apply Cascade_step|].
        intros w. destruct (CheckLevelUp_step fuel p w Hs Hge) as [w1 ->]. apply Hq.
Qed.

Lemma Cascade_functional p q : Cascade p q -> forall q', Cascade p q' -> q = q'.
Proof.
  induction 1 as [p Hlt|p q Hge Hc IH]; intros q' Hq'; inversion Hq'; subst;
    try lia; auto.
Qed.

(** C5. The level-up check is the loop of the specification: while the
    experience reaches 100 times the level, the level goes up by one, the
    threshold is taken off the experience, the maximum health grows by 5,
    the health is set to it and the attack grows by one; the threshold is
    that of the new level at every turn. The recursion ends: as many calls
    as there are experience points are always enough. *)
Theorem CheckLevelUp_cascade p :
  modest p ->
  exists q,
    Cascade p q
    /\ forall fuel w, (Z.to_nat (Player.Exp p) <= fuel)%nat ->
         exists w', CheckLevelUp fuel p w = Done q w'.
Proof.
  intros Hm. apply modest_safe in Hm.
  destruct (CheckLevelUp_runs (Z.to_nat (Player.Exp p)) p Hm (le_n _)) as (q & Hc & _).
  exists q. split; [exact Hc|]. intros fuel w Hf.
  destruct (CheckLevelUp_runs fuel p Hm Hf) as (q' & Hc' & Hq').
  rewrite (Cascade_functional _ _ Hc _ Hc'). apply Hq'.
Qed.

Lemma CheckLevelUp_cascade_witness :
  modest (Player.mk 0 0 20 20 3 1 0 1 300 [])
  /\ exists q,
       Cascade (Player.mk 0 0 20 20 3 1 0 1 300 []) q
       /\ exists w', CheckLevelUp 300 (Player.mk 0 0 20 20 3 1 0 1 300 []) sample_world
                     = Done q w'.
Proof.
  assert (modest (Player.mk 0 0 20 20 3 1 0 1 300 [])) as Hm.
  { unfold modest. cbn. pow2. lia. }
  split; [exact Hm|].
  destruct (CheckLevelUp_cascade _ Hm) as (q & Hc & Hq).
  exists q. split; [exact Hc|]. apply Hq. cbn. lia.
Defined.

(** ** Combat *)

Lemma at_least_one z : (if z <? 1 then 1 else z) = Z.max 1 z.
Proof. destruct (Z.ltb_spec z 1); lia. Qed.

Lemma AttackEnemy_survivor fuel i p d w e :
  Dungeon.Enemies d !! i = Some e ->
  0 < Enemy.Health e -i Player.Attack p ->
  run False (AttackEnemy fuel i p d) w
    (fun r =>
       r = (Player.set_Health
              (Player.Health p -i Z.max 1 (Enemy.Damage e -i Player.Defense p)) p,
            Dungeon.set_Enemies
              (<[i := Enemy.set_Health (Enemy.Health e -i Player.Attack p) e]>
                 (Dungeon.Enemies d)) d)).
Proof.
  intros He Halive. unfold AttackEnemy.
  run_step. apply run_must; [now rewrite He|].
  intros e0 E w1. rewrite He in E. injection E as <-.
  cbn [Enemy.set_Health Enemy.Health Enemy.Damage Enemy.Name].
  run_step. run_step.
  destruct (Z.leb_spec (Enemy.Health e -i Player.Attack p) 0) as [|_]; [lia|].
  cbv zeta. rewrite at_least_one.
  run_step. run_step. run_step.
  destruct (_ <=? 0); run_step; run_step; reflexivity.
Qed.

(** C6. When the attacked enemy survives the player's hit, the player loses
    exactly [max(1, enemy.Damage - p.Defense)] health points, an amount that
    is at least 1 whatever the damage and the defense are; the subtractions
    are those of the machine, and they are the mathematical ones as long as
    the results fit an [int]. *)
Theorem AttackEnemy_counterattack fuel i p d w e :
  Dungeon.Enemies d !! i = Some e ->
  0 < Enemy.Health e -i Player.Attack p ->
  exists dealt p' d' w',
    AttackEnemy fuel i p d w = Done (p', d') w'
    /\ p' = Player.set_Health (Player.Health p -i dealt) p
    /\ dealt = Z.max 1 (Enemy.Damage e -i Player.Defense p)
    /\ 1 <= dealt
    /\ (is_int (Enemy.Damage e - Player.Defense p) ->
        is_int (Player.Health p - Z.max 1 (Enemy.Damage e - Player.Defense p)) ->
        Player.Health p'
        = Player.Health p - Z.max 1 (Enemy.Damage e - Player.Defense p)).
Proof.
  intros He Halive.
  destruct (total_Done _ _ _ (AttackEnemy_survivor fuel i p d w e He Halive))
    as ([p' d'] & w' & E & [= -> ->]).
  eexists _, _, _, w'. split; [exact E|].
  split; [reflexivity|]. split; [reflexivity|]. split; [lia|].
  intros Hd Hh. cbn [Player.set_Health Player.Health].
  unfold sub. rewrite (wrap_small _ Hd). now rewrite (wrap_small _ Hh).
Qed.

Lemma AttackEnemy_counterattack_witness :
  Dungeon.Enemies sample_dungeon !! 0%nat = Some sample_enemy
  /\ 0 < Enemy.Health sample_enemy -i Player.Attack (NewPlayer 1 1)
  /\ exists p' d' w',
       AttackEnemy 0 0 (NewPlayer 1 1) sample_dungeon sample_world = Done (p', d') w'
       /\ Player.Health p' = 18.
Proof.
  split; [reflexivity|]. split; [reflexivity|].
  destruct (AttackEnemy_counterattack 0 0 (NewPlayer 1 1) sample_dungeon sample_world
              sample_enemy) as (dealt & p' & d' & w' & E & Hp & Hd & _);
    [reflexivity | reflexivity |].
  exists p', d', w'. split; [exact E|].
  rewrite Hp, Hd. reflexivity.
Defined.

(** ** The inventory *)

(** C7. With an index outside the inventory (negative, or not below its
    length) [UseItem] prints its complaint and returns the player as it
    was. *)
Theorem UseItem_invalid_index itemIndex p w :
  itemIndex < 0 \/ len (Player.Inventory p) <= itemIndex ->
  UseItem itemIndex p w
  = Done p (mkWorld (rand_draws w) (rand_pos w)
                    (stdout w ++ ["Invalid item index." +:+ nl])).
Proof.
  intros H. unfold UseItem.
  assert ((itemIndex <? 0) || (itemIndex >=? len (Player.Inventory p)) = true) as ->.
  { apply orb_true_iff. destruct H; [left|right]; lia. }
  reflexivity.
Qed.

Lemma UseItem_invalid_index_witness :
  (3 < 0 \/ len (Player.Inventory (NewPlayer 1 1)) <= 3)
  /\ UseItem 3 (NewPlayer 1 1) sample_world
     = Done (NewPlayer 1 1)
            (mkWorld sample_draws 0 ["Invalid item index." +:+ nl]).
Proof.
  split; [right; vm_compute; discriminate|].
  apply (UseItem_invalid_index 3 (NewPlayer 1 1) sample_world).
  right. vm_compute. discriminate.
Defined.

(** ** Arriving on a tile *)

Lemma index_Some {A} (l : list A) i a :
  index l i = Some a <-> 0 <= i /\ l !! Z.to_nat i = Some a.
Proof. unfold index. destruct (Z.ltb_spec i 0); [split; [discriminate | lia] | split; [auto | tauto]]. Qed.

Lemma set_cell_Some g x y v g' :
  set_cell g x y v = Some g' ->
  exists row, 0 <= x /\ 0 <= y /\ g !! Z.to_nat y = Some row
              /\ (Z.to_nat x < length row)%nat
              /\ g' = <[Z.to_nat y := <[Z.to_nat x := v]> row]> g.
Proof.
  unfold set_cell, assign. destruct (index g y) as [row|] eqn:Ey; [|discriminate].
  destruct (index row x) as [c|] eqn:Ex; [|discriminate].
  intros [= <-]. apply index_Some in Ey as [? ?], Ex as [? Hx].
  exists row. repeat split; auto. eapply lookup_lt_Some, Hx.
Qed.

Lemma cell_set_cell g px py v g' x y :
  set_cell g px py v = Some g' ->
  cell g' x y = if (x =? px) && (y =? py) then Some v else cell g x y.
Proof.
  intros H. apply set_cell_Some in H as (row & Hx & Hy & Hrow & Hlt & ->).
  unfold cell, index. destruct (Z.ltb_spec y 0).
  { destruct (Z.eqb_spec y py); [lia|]. now rewrite andb_false_r. }
  destruct (Z.eqb_spec y py) as [->|Hne].
  - rewrite list_lookup_insert_eq by (eapply lookup_lt_Some, Hrow). rewrite Hrow.
    destruct (Z.ltb_spec x 0).
    { destruct (Z.eqb_spec x px); [lia|]. reflexivity. }
    destruct (Z.eqb_spec x px) as [->|Hnx]; cbn [andb].
    + now rewrite list_lookup_insert_eq.
    + rewrite list_lookup_insert_ne by lia. reflexivity.
  - rewrite andb_false_r. rewrite list_lookup_insert_ne by lia. reflexivity.
Qed.

Lemma set_cell_total g x y v c : cell g x y = Some c -> exists g', set_cell g x y v = Some g'.
Proof.
  unfold cell, set_cell, assign. destruct (index g y) as [row|]; [|discriminate].
  intros ->. eauto.
Qed.

Lemma find_from_Some {A} (f : A -> bool) l : forall k i,
  find_from f l k = Some i ->
  exists a, (k <= i)%nat /\ l !! (i - k)%nat = Some a /\ f a = true.
Proof.
  induction l as [|a l IH]; intros k i; cbn [find_from]; [discriminate|].
  destruct (f a) eqn:Ef.
  - intros [= <-]. exists a. rewrite Nat.sub_diag. auto.
  - intros H. apply IH in H as (b & Hk & Hb & Hf). exists b.
    replace (i - k)%nat with (S (i - S k)) by lia. repeat split; auto; lia.
Qed.

Lemma run_trivial {A} (m : Go A) w : run True m w (fun _ => True).
Proof. unfold run. now destruct (m w). Qed.

Lemma GetTileAt_terrain d d' x y :
  terrain d' = terrain d -> GetTileAt d' x y = GetTileAt d x y.
Proof.
  unfold terrain, GetTileAt, out_of_bounds. intros [= -> -> ->]. reflexivity.
Qed.

Lemma IsWalkable_terrain d d' x y :
  terrain d' = terrain d -> IsWalkable d' x y = IsWalkable d x y.
Proof.
  unfold terrain, IsWalkable, out_of_bounds. intros [= -> -> ->]. reflexivity.
Qed.

Lemma GetTileAt_Some_cell d x y t :
  GetTileAt d x y = Some t -> t <> Wall -> cell (Dungeon.Grid d) x y = Some t.
Proof.
  unfold GetTileAt. destruct (out_of_bounds d x y); [|auto]. intros [= <-]. tauto.
Qed.

Lemma GetTileAt_write d px py v d' x y :
  write d px py v = Some d' ->
  GetTileAt d' x y
  = if out_of_bounds d x y then Some Wall
    else if (x =? px) && (y =? py) then Some v else cell (Dungeon.Grid d) x y.
Proof.
  unfold write. destruct (set_cell (Dungeon.Grid d) px py v) as [g|] eqn:E; [|discriminate].
  intros [= <-]. unfold GetTileAt, out_of_bounds. cbn.
  destruct (_ || _); [reflexivity|]. now apply cell_set_cell.
Qed.

Lemma write_Floor_keeps d px py d' x y :
  write d px py Floor = Some d' ->
  GetTileAt d x y = Some Floor -> GetTileAt d' x y = Some Floor.
Proof.
  intros Hw. rewrite (GetTileAt_write _ _ _ _ _ _ _ Hw). unfold GetTileAt.
  destruct (out_of_bounds d x y); [auto|].
  now destruct ((x =? px) && (y =? py)).
Qed.

Section Arrival.
Variable fail : Prop.

Lemma CollectItem_spec i p d w :
  is_Some (Dungeon.Items d !! i) ->
  run fail (CollectItem i p d) w
    (fun r => Player.Health (fst r) = Player.Health p /\ terrain (snd r) = terrain d).
Proof.
  intros [it Hit]. unfold CollectItem.
  run_step. apply run_must; [now rewrite Hit|]. intros it0 _ w1.
  destruct (Item.Type_ _); repeat run_step; auto.
Qed.

Lemma pickup_spec p d w :
  run fail
    (match GetItemAt d (Player.X p) (Player.Y p) with
     | Some i => CollectItem i p d
     | None => ret (p, d)
     end) w
    (fun r => Player.Health (fst r) = Player.Health p /\ terrain (snd r) = terrain d).
Proof.
  destruct (GetItemAt d _ _) as [i|] eqn:E.
  - apply CollectItem_spec. apply find_from_Some in E as (a & _ & Ha & _).
    rewrite Nat.sub_0_r in Ha. eauto.
  - now apply run_ret.
Qed.

Lemma CheckPosition_floor p d w :
  GetTileAt d (Player.X p) (Player.Y p) = Some Floor ->
  run fail (CheckPosition p d) w
    (fun r => Player.Health (fst r) = Player.Health p /\ terrain (snd r) = terrain d).
Proof.
  intros Ht. unfold CheckPosition. rewrite Ht.
  run_step. run_step. run_step.
  change (Floor =? Treasure) with false. change (Floor =? Trap) with false.
  change (Floor =? Door) with false. change (Floor =? StairsDown) with false.
  cbv iota. run_step. cbn [fst snd]. apply pickup_spec.
Qed.

Lemma CheckPosition_trap p d w :
  GetTileAt d (Player.X p) (Player.Y p) = Some Trap ->
  run fail (CheckPosition p d) w
    (fun r => exists n d1,
         0 <= n < 3
         /\ Player.Health (fst r) = Player.Health p -i (2 +i n)
         /\ write d (Player.X p) (Player.Y p) Floor = Some d1
         /\ terrain (snd r) = terrain d1).
Proof.
  intros Ht. unfold CheckPosition. rewrite Ht.
  run_step. run_step. run_step.
  change (Trap =? Treasure) with false. change (Trap =? Trap) with true. cbv iota.
  run_step. apply run_Intn; [lia|]. intros n Hn w1.
  run_step. run_step. run_step.
  apply GetTileAt_Some_cell in Ht; [|discriminate].
  destruct (set_cell_total _ _ _ Floor _ Ht) as [g Hg].
  apply run_must; [unfold write; now rewrite Hg|]. intros d1 Hd1 w2.
  run_step. eapply run_mono with (Q := fun _ => True).
  { destruct (_ <=? 0); now run_step. }
  intros _ _ w3. run_step. cbn [fst snd].
  eapply run_mono; [apply pickup_spec|].
  intros r [Hh Hterr]. exists n, d1. cbn in Hh. auto.
Qed.
End Arrival.

(** Walks through a computation for a partial-correctness goal. *)
Ltac run_partial :=
  repeat first
    [ run_step
    | lazymatch goal with
      | |- run True (Intn _) _ _ => apply run_Intn; [trivial | intros]
      | |- run True (must _) _ _ => apply run_must; [trivial | intros]
      | |- run True (if ?b then _ else _) _ _ => destruct b eqn:?
      | |- run True (match ?o with Some _ => _ | None => _ end) _ _ =>
          destruct o eqn:?
      end ].

Lemma write_terrain d x y v d' :
  write d x y v = Some d' ->
  Dungeon.Width d' = Dungeon.Width d /\ Dungeon.Height d' = Dungeon.Height d
  /\ Dungeon.Rooms d' = Dungeon.Rooms d /\ Dungeon.Enemies d' = Dungeon.Enemies d
  /\ Dungeon.Items d' = Dungeon.Items d /\ Dungeon.Level d' = Dungeon.Level d.
Proof.
  unfold write. destruct (set_cell _ _ _ _); [|discriminate]. now intros [= <-].
Qed.

Lemma RemoveEnemy_terrain i d : terrain (RemoveEnemy i d) = terrain d.
Proof. unfold RemoveEnemy. now destruct (_ <? _)%nat. Qed.

Lemma AttackEnemy_terrain fuel i p d w :
  run True (AttackEnemy fuel i p d) w (fun r => terrain (snd r) = terrain d).
Proof.
  unfold AttackEnemy.
  run_step. apply run_must; [trivial|]. intros e0 _ w1.
  run_step. run_step.
  destruct (_ <=? 0).
  - run_step. run_step. cbv zeta. run_step. run_step. run_step.
    eapply run_mono; [apply run_trivial|]. intros p2 _ w2.
    run_partial; cbn [snd]; now rewrite RemoveEnemy_terrain.
  - cbv zeta. run_step. run_step. run_step.
    eapply run_mono; [apply run_trivial|]. intros _ _ w2.
    now run_step.
Qed.

Lemma moveEnemy_terrain player i d w :
  run True (moveEnemy player i d) w (fun d' => terrain d' = terrain d).
Proof.
  unfold moveEnemy.
  run_step. apply run_must; [trivial|]. intros enemy _ w1.
  destruct (_ <=? 0); [now run_step|]. cbv zeta.
  run_step. eapply run_mono; [apply run_trivial|]. intros dir _ w2.
  run_partial; reflexivity.
Qed.

Lemma MoveEnemies_terrain player d w :
  run True (MoveEnemies player d) w (fun d' => terrain d' = terrain d).
Proof.
  unfold MoveEnemies.
  apply run_for_each with (I := fun d' => terrain d' = terrain d); [|reflexivity].
  intros i d1 w1 _ H1. eapply run_mono; [apply moveEnemy_terrain|].
  intros d2 H2. congruence.
Qed.

Lemma spawnNear_terrain ps player d w :
  run True (spawnNear ps player d) w (fun d' => terrain d' = terrain d).
Proof.
  revert w. induction ps as [|pos ps IH]; intros w; cbn [spawnNear].
  - now run_step.
  - cbv zeta. run_step. apply run_must; [trivial|]. intros walkable _ w1.
    destruct (_ && _); [|apply IH].
    run_partial. reflexivity.
Qed.

(** A property of the dungeon that only depends on its terrain and that
    turning a tile into [Floor] keeps is kept by every command of the
    playing state but the descent. *)
Section Kept.
Variable P : Dungeon.t -> Prop.
Hypothesis P_terrain : forall d d', terrain d' = terrain d -> P d -> P d'.
Hypothesis P_floor : forall d x y d', write d x y Floor = Some d' -> P d -> P d'.

Lemma kept_terrain {A} (m : Go A) w d (f : A -> Dungeon.t) :
  P d ->
  run True m w (fun r => terrain (f r) = terrain d) ->
  run True m w (fun r => P (f r)).
Proof.
  intros Hd H. eapply run_mono; [exact H|].
  intros r Ht. exact (P_terrain _ _ Ht Hd).
Qed.

Lemma CheckPosition_kept p d w :
  P d -> run True (CheckPosition p d) w (fun r => P (snd r)).
Proof.
  intros Hd. unfold CheckPosition.
  run_step. apply run_must; [trivial|]. intros tile _ w1.
  run_step.
  apply run_mono with (Q := fun r => P (snd r)).
  - unfold put. run_partial; cbn [snd]; eauto.
  - intros [p1 d1] H1 w2. cbn [fst snd] in *.
    eapply run_mono; [apply pickup_spec|].
    intros r [_ Ht]. exact (P_terrain _ _ Ht H1).
Qed.

Lemma Move_kept fuel dx dy p d w :
  P d -> run True (Move fuel dx dy p d) w (fun r => P (snd r)).
Proof.
  intros Hd. unfold Move. cbv zeta.
  destruct (GetEnemyAt d _ _).
  - apply (kept_terrain _ _ d snd Hd), AttackEnemy_terrain.
  - run_step. apply run_must; [trivial|]. intros [|] _ w1.
    + now apply CheckPosition_kept.
    + run_step. run_step. now run_step.
Qed.

Lemma step_kept fuel dx dy p d w :
  P d -> run True (step fuel dx dy p d) w (fun r => P (snd r)).
Proof.
  intros Hd. unfold step.
  run_step. eapply run_mono; [apply Move_kept, Hd|].
  intros [p1 d1] H1 w1. cbn [fst snd] in *.
  run_step.
  eapply run_mono; [apply (kept_terrain _ _ d1 id H1), MoveEnemies_terrain|].
  intros d2 H2 w2. now run_step.
Qed.

Lemma rest_kept p d w :
  P d -> run True (rest p d) w (fun r => P (snd r)).
Proof.
  intros Hd. unfold rest.
  run_step. apply run_Intn; [trivial|]. intros r _ w1.
  destruct (r =? 0).
  - run_step. run_step. run_step.
    eapply run_mono; [apply (kept_terrain _ _ d id Hd), spawnNear_terrain|].
    intros d2 H2 w2. now run_step.
  - run_step. apply run_Intn; [trivial|]. intros n _ w2. cbv zeta.
    run_step. run_step. run_step.
    eapply run_mono; [apply (kept_terrain _ _ d id Hd), MoveEnemies_terrain|].
    intros d2 H2 w3. now run_step.
Qed.

Lemma playing_kept fuel input p d w :
  input <> ">"%string ->
  P d -> run True (playing fuel input p d) w (fun r => P (snd (snd r))).
Proof.
  intros Hin Hd. apply String.eqb_neq in Hin. unfold playing. rewrite Hin.
  destruct (said input "q" "quit"); [run_step; run_step; now run_step|].
  run_step.
  apply run_mono with (Q := fun r => P (snd (snd r))).
  - repeat lazymatch goal with
           | |- run True (if ?b then _ else _) _ _ => destruct b
           end;
      try (run_step;
           (eapply run_mono; [first [apply step_kept | apply rest_kept]; exact Hd|]);
           intros; now run_step).
    + now run_step.
    + run_step. eapply run_mono; [apply run_trivial|]. intros. now run_step.
    + run_step. run_step. now run_step.
  - intros r Hr w1. destruct (_ <=? 0); now run_step.
Qed.

Lemma later_kept d d' : later d d' -> P d -> P d'.
Proof.
  induction 1 as [|d d1 d2 fuel input p p' s w w' _ IH Hin Hrun]; intros Hd;
    [exact Hd|].
  exact (partial_Done _ _ _ _ _ (playing_kept fuel input p d1 w Hin (IH Hd)) Hrun).
Qed.
End Kept.

Lemma later_keeps d d' x y :
  later d d' -> GetTileAt d x y = Some Floor -> GetTileAt d' x y = Some Floor.
Proof.
  apply (later_kept (fun d => GetTileAt d x y = Some Floor)).
  - intros d1 d2 Ht. now rewrite (GetTileAt_terrain _ _ _ _ Ht).
  - intros d1 px py d2. apply write_Floor_keeps.
Qed.

(** C8. A player arriving on a [Trap] tile loses between 2 and 4 health
    points and the tile becomes [Floor]; from then on, whatever commands are
    played on this dungeon, an arrival on the same cell leaves the health as
    it is and the cell a [Floor]. *)
Theorem trap_triggers_once p d w :
  GetTileAt d (Player.X p) (Player.Y p) = Some Trap ->
  exists damage p' d' w',
    CheckPosition p d w = Done (p', d') w'
    /\ 2 <= damage <= 4
    /\ Player.Health p' = Player.Health p -i damage
    /\ (is_int (Player.Health p - damage) ->
        Player.Health p' = Player.Health p - damage)
    /\ GetTileAt d' (Player.X p) (Player.Y p) = Some Floor
    /\ forall d2 q w2,
         later d' d2 ->
         Player.X q = Player.X p -> Player.Y q = Player.Y p ->
         exists q' d3 w3,
           CheckPosition q d2 w2 = Done (q', d3) w3
           /\ Player.Health q' = Player.Health q
           /\ GetTileAt d3 (Player.X p) (Player.Y p) = Some Floor.
Proof.
  intros Ht.
  destruct (total_Done _ _ _ (CheckPosition_trap False p d w Ht))
    as ([p' d'] & w' & E & n & d1 & Hn & Hh & Hw & Hterr).
  cbn [fst snd] in *.
  assert (GetTileAt d' (Player.X p) (Player.Y p) = Some Floor) as Hfloor.
  { rewrite (GetTileAt_terrain _ _ _ _ Hterr), (GetTileAt_write _ _ _ _ _ _ _ Hw).
    unfold GetTileAt in Ht. destruct (out_of_bounds d _ _); [discriminate|].
    now rewrite !Z.eqb_refl. }
  exists (2 + n), p', d', w'.
  assert (2 +i n = 2 + n) as En by (unwrap; reflexivity).
  rewrite En in Hh.
  split; [exact E|]. split; [lia|]. split; [exact Hh|].
  split; [intros Hi; rewrite Hh; unfold sub; now rewrite wrap_small|].
  split; [exact Hfloor|].
  intros d2 q w2 Hl Hx Hy.
  pose proof (later_keeps _ _ _ _ Hl Hfloor) as Hf2.
  rewrite <- Hx, <- Hy in Hf2.
  destruct (total_Done _ _ _ (CheckPosition_floor False q d2 w2 Hf2))
    as ([q' d3] & w3 & E3 & Hq & Ht3).
  exists q', d3, w3. cbn [fst snd] in *. split; [exact E3|]. split; [exact Hq|].
  rewrite (GetTileAt_terrain _ _ _ _ Ht3). now rewrite <- Hx, <- Hy.
Qed.

Lemma trap_triggers_once_witness :
  GetTileAt trap_dungeon 1 1 = Some Trap
  /\ exists damage p' d' w',
       CheckPosition (NewPlayer 1 1) trap_dungeon sample_world = Done (p', d') w'
       /\ 2 <= damage <= 4
       /\ Player.Health p' = 20 - damage
       /\ GetTileAt d' 1 1 = Some Floor.
Proof.
  split; [reflexivity|].
  destruct (trap_triggers_once (NewPlayer 1 1) trap_dungeon sample_world)
    as (damage & p' & d' & w' & E & Hd & _ & Hh & Hf & _); [reflexivity|].
  exists damage, p', d', w'. split; [exact E|]. split; [exact Hd|].
  split; [|exact Hf]. apply Hh. apply is_int_iff. cbn. lia.
Defined.

(** ** Generation keeps the dungeon well formed *)

Lemma write_grid_ok d x y v d' : grid_ok d -> write d x y v = Some d' -> grid_ok d'.
Proof.
  intros [Hh Hw]. unfold write.
  destruct (set_cell _ _ _ _) as [g|] eqn:E; [|discriminate]. intros [= <-].
  apply set_cell_Some in E as (row & _ & _ & Hrow & _ & ->).
  split; cbn.
  - now rewrite length_insert.
  - apply Forall_insert; [exact Hw|]. rewrite length_insert.
    rewrite Forall_forall in Hw. eapply Hw, list_elem_of_lookup_2, Hrow.
Qed.

Section Generation.
Variables W H L : Z.
Hypothesis HW : 13 <= W <= 2 ^ 31.
Hypothesis HH : 13 <= H <= 2 ^ 31.
Variable fail : Prop.

Lemma shaped_write rooms d x y v d' :
  shaped W H L rooms d -> write d x y v = Some d' -> shaped W H L rooms d'.
Proof.
  intros (? & ? & ? & ? & Hg & ?) Hw.
  pose proof (write_grid_ok _ _ _ _ _ Hg Hw).
  apply write_terrain in Hw as (? & ? & ? & ? & ? & ?).
  do 4 (split; [congruence|]). split; assumption.
Qed.

Lemma tile_at_shaped rooms d x y w (Q : Z -> Prop) :
  shaped W H L rooms d -> 0 <= x < W -> 0 <= y < H ->
  (forall t, cell (Dungeon.Grid d) x y = Some t -> Q t) ->
  run fail (tile_at d x y) w Q.
Proof.
  intros (HdW & HdH & _ & _ & Hg & _) Hx Hy HQ. unfold tile_at.
  destruct (cell_in_grid d x y Hg) as [t Ht]; [lia | lia |].
  rewrite Ht. run_step. now apply HQ.
Qed.

Lemma put_shaped rooms d x y v w :
  shaped W H L rooms d -> 0 <= x < W -> 0 <= y < H ->
  run fail (put x y v d) w
    (fun d' => shaped W H L rooms d' /\ write d x y v = Some d').
Proof.
  intros Hs Hx Hy. pose proof Hs as (HdW & HdH & _ & _ & Hg & _). unfold put.
  destruct (cell_in_grid d x y Hg) as [t Ht]; [lia | lia |].
  destruct (set_cell_total _ _ _ v _ Ht) as [g Hg'].
  assert (write d x y v = Some (Dungeon.set_Grid g d)) as Hw
      by (unfold write; now rewrite Hg').
  rewrite Hw. run_step. split; [|reflexivity]. eapply shaped_write; eauto.
Qed.

Lemma elem_of_range x lo hi : x ∈ range lo hi <-> lo <= x < hi.
Proof. unfold range. rewrite elem_of_seqZ. lia. Qed.

Lemma carveRoom_shaped rooms room d w :
  shaped W H L rooms d -> room_ok W H room ->
  run fail (carveRoom room d) w (shaped W H L rooms).
Proof.
  intros Hs (Hx & Hw & Hxw & Hy & Hh & Hyh). unfold carveRoom. pow2. unwrap.
  apply run_for_each with (I := shaped W H L rooms); [|assumption].
  intros y d1 w1 Hiny Hs1. apply elem_of_range in Hiny.
  apply run_for_each with (I := shaped W H L rooms); [|assumption].
  intros x d2 w2 Hinx Hs2. apply elem_of_range in Hinx.
  eapply run_mono; [apply put_shaped; [eassumption | lia | lia]|].
  now intros d3 [? _].
Qed.

Lemma roomsOverlap_meet r1 r2 :
  room_ok W H r1 -> room_ok W H r2 ->
  roomsOverlap r1 r2 = true <-> padded_meet r1 r2.
Proof.
  unfold room_ok, roomsOverlap, padded_meet, padded. pow2. intros Hr1 Hr2. unwrap.
  rewrite !andb_true_iff, !Z.leb_le, !Z.geb_le. split.
  - intros Hc.
    exists (Z.max (Room.X r1 - 1) (Room.X r2 - 1)),
           (Z.max (Room.Y r1 - 1) (Room.Y r2 - 1)). lia.
  - intros (x & y & Hp1 & Hp2). lia.
Qed.

Lemma apart_snoc rooms room :
  apart rooms -> (forall r, r ∈ rooms -> ~ padded_meet room r) ->
  apart (rooms ++ [room]).
Proof.
  intros Ha Hnew i j r1 r2 Hij Hi Hj.
  apply lookup_snoc_Some in Hi as [[Hi1 Hi]|[-> <-]];
    apply lookup_snoc_Some in Hj as [[Hj1 Hj]|[-> <-]].
  - eapply Ha; eauto.
  - intros (x & y & ? & ?). eapply (Hnew r1); [eapply list_elem_of_lookup_2, Hi|].
    exists x, y. auto.
  - eapply Hnew, list_elem_of_lookup_2, Hj.
  - congruence.
Qed.

Lemma placeRoom_spec d w :
  (exists rooms, shaped W H L rooms d /\ apart rooms) ->
  run fail (placeRoom d) w (fun d' => exists rooms, shaped W H L rooms d' /\ apart rooms).
Proof.
  intros (rooms & Hs & Ha). pose proof Hs as (HdW & HdH & HdL & HdR & Hg & Hrooms).
  unfold placeRoom. change (maxSize -i minSize +i 1) with 7. unfold minSize.
  pow2. rewrite HdW, HdH, HdR.
  run_step. apply run_Intn; [lia|]. intros rw Hrw w1.
  run_step. apply run_Intn; [lia|]. intros rh Hrh w2. cbv zeta. unwrap.
  run_step. apply run_Intn; [lia|]. intros rx Hrx w3.
  run_step. apply run_Intn; [lia|]. intros ry Hry w4. unwrap.
  set (room := Room.mk (1 + rx) (1 + ry) (4 + rw) (4 + rh)).
  assert (room_ok W H room) as Hroom by (unfold room_ok, room; cbn; lia).
  destruct (existsb (roomsOverlap room) rooms) eqn:Eo; cbn [negb].
  - run_step. eauto.
  - run_step. eapply run_mono; [apply carveRoom_shaped; eassumption|].
    intros d1 Hs1 w5. run_step.
    pose proof Hs1 as (? & ? & ? & Hr1 & Hg1 & _).
    exists (rooms ++ [room]). split.
    + rewrite Hr1. do 3 (split; [assumption|]). split; [reflexivity|].
      split; [exact Hg1|]. apply Forall_app. split; [assumption|]. now constructor.
    + apply apart_snoc; [exact Ha|]. intros r Hr Hmeet.
      rewrite Forall_forall in Hrooms.
      apply roomsOverlap_meet in Hmeet; [|assumption|now apply Hrooms].
      assert (existsb (roomsOverlap room) rooms = true); [|congruence].
      apply existsb_exists. exists r. split; [now apply list_elem_of_In|assumption].
Qed.

Lemma generateRooms_spec minRooms maxRooms d w :
  - 2 ^ 31 <= minRooms <= maxRooms -> maxRooms <= 2 ^ 31 ->
  shaped W H L [] d ->
  run fail (generateRooms minRooms maxRooms d) w
    (fun d' => exists rooms, shaped W H L rooms d' /\ rooms <> [] /\ apart rooms).
Proof.
  intros Hmin Hmax Hs. unfold generateRooms. pow2. unwrap.
  run_step. apply run_Intn; [lia|]. intros n Hn w1. cbv zeta.
  run_step. eapply run_mono.
  { apply run_times with (I := fun d' => exists rooms, shaped W H L rooms d' /\ apart rooms).
    - intros. now apply placeRoom_spec.
    - exists []. split; [exact Hs|]. intros i j r1 r2 _ Hi. discriminate. }
  intros d1 (rooms & Hs1 & Ha1) w2.
  pose proof Hs1 as (HdW & HdH & HdL & HdR & Hg & Hrooms).
  unfold len. rewrite HdR.
  destruct rooms as [|r rooms]; cbn [length].
  - rewrite HdW, HdH. unwrap_div. cbv zeta.
    set (room := Room.mk _ _ _ _).
    assert (room_ok W H room) as Hroom.
    { unfold room_ok, room. cbn -[Z.quot]. Z.to_euclidean_division_equations. lia. }
    change (Z.of_nat 0 =? 0) with true. cbv iota.
    run_step. eapply run_mono; [apply carveRoom_shaped; eassumption|].
    intros d2 Hs2 w3. run_step.
    pose proof Hs2 as (? & ? & ? & Hr2 & Hg2 & _).
    exists [room]. rewrite Hr2. split; [|split].
    + do 3 (split; [assumption|]). split; [reflexivity|]. split; [exact Hg2|].
      constructor; [exact Hroom|constructor].
    + discriminate.
    + intros [|[|i]] [|[|j]] r1 r2 Hij; try discriminate; congruence.
  - destruct (Z.eqb_spec (Z.of_nat (S (length rooms))) 0); [lia|].
    run_step. exists (r :: rooms). split; [exact Hs1|]. split; [discriminate|exact Ha1].
Qed.

Lemma index_total {A} (l : list A) i :
  0 <= i < len l -> exists a, index l i = Some a /\ a ∈ l.
Proof.
  unfold len, index. intros Hi. destruct (Z.ltb_spec i 0); [lia|].
  destruct (lookup_lt_is_Some_2 l (Z.to_nat i)) as [a Ha]; [lia|].
  exists a. split; [exact Ha|]. eapply list_elem_of_lookup_2, Ha.
Qed.

Lemma corridor_cell_shaped rooms d x y w :
  shaped W H L rooms d ->
  run fail (if in_grid d x y then put x y Floor d else ret d) w (shaped W H L rooms).
Proof.
  intros Hs. pose proof Hs as (HdW & HdH & _).
  destruct (in_grid d x y) eqn:E; [|now run_step].
  unfold in_grid in E. rewrite HdW, HdH in E.
  eapply run_mono; [apply put_shaped; [exact Hs| lia | lia]|]. now intros d' [? _].
Qed.

Lemma createHorizontalCorridor_shaped rooms d x1 x2 y w :
  shaped W H L rooms d -> x1 <= 2 ^ 32 -> x2 <= 2 ^ 32 ->
  run fail (createHorizontalCorridor x1 x2 y d) w (shaped W H L rooms).
Proof.
  intros Hs H1 H2. unfold createHorizontalCorridor. cbv zeta. pow2.
  destruct (Z.eqb_spec (if x1 >? x2 then x1 else x2) int_max) as [E|_].
  { unfold int_max in E. pow2. destruct (x1 >? x2); lia. }
  apply run_for_each with (I := shaped W H L rooms); [|exact Hs].
  intros x d1 w1 _ Hs1. now apply corridor_cell_shaped.
Qed.

Lemma createVerticalCorridor_shaped rooms d y1 y2 x w :
  shaped W H L rooms d -> y1 <= 2 ^ 32 -> y2 <= 2 ^ 32 ->
  run fail (createVerticalCorridor y1 y2 x d) w (shaped W H L rooms).
Proof.
  intros Hs H1 H2. unfold createVerticalCorridor. cbv zeta. pow2.
  destruct (Z.eqb_spec (if y1 >? y2 then y1 else y2) int_max) as [E|_].
  { unfold int_max in E. pow2. destruct (y1 >? y2); lia. }
  apply run_for_each with (I := shaped W H L rooms); [|exact Hs].
  intros y d1 w1 _ Hs1. now apply corridor_cell_shaped.
Qed.

Lemma centre_bounds r :
  room_ok W H r ->
  Room.X r +i Room.Width r /i 2 = Room.X r + Room.Width r / 2
  /\ Room.Y r +i Room.Height r /i 2 = Room.Y r + Room.Height r / 2
  /\ Room.X r <= Room.X r + Room.Width r / 2 < Room.X r + Room.Width r
  /\ Room.Y r <= Room.Y r + Room.Height r / 2 < Room.Y r + Room.Height r.
Proof.
  unfold room_ok. pow2. intros Hr.
  unfold quo. rewrite !Z.quot_div_nonneg by lia. unwrap_div.
  Z.to_euclidean_division_equations. lia.
Qed.

Lemma connectRooms_shaped rooms d w :
  shaped W H L rooms d -> run fail (connectRooms d) w (shaped W H L rooms).
Proof.
  intros Hs. pose proof Hs as (_ & _ & _ & HdR & _ & Hrooms).
  unfold connectRooms. destruct (_ <=? 1); [now run_step|].
  apply run_for_each with (I := shaped W H L rooms); [|exact Hs].
  intros i d1 w1 Hi Hs1. apply elem_of_range in Hi.
  pose proof Hs1 as (_ & _ & _ & HdR1 & _). rewrite HdR1. rewrite HdR in Hi.
  destruct (index_total rooms i) as (r1 & E1 & Hr1); [lia|].
  destruct (index_total rooms (i + 1)) as (r2 & E2 & Hr2); [lia|].
  rewrite E1, E2. run_step. run_step. run_step. run_step. cbv zeta.
  rewrite Forall_forall in Hrooms.
  destruct (centre_bounds r1 (Hrooms _ Hr1)) as (-> & -> & Hx1 & Hy1).
  destruct (centre_bounds r2 (Hrooms _ Hr2)) as (-> & -> & Hx2 & Hy2).
  pose proof (Hrooms _ Hr1) as Hk1. pose proof (Hrooms _ Hr2) as Hk2.
  unfold room_ok in Hk1, Hk2. pow2.
  run_step. apply run_Intn; [lia|]. intros c _ w2.
  destruct (c =? 0); run_step.
  - eapply run_mono; [apply createHorizontalCorridor_shaped; [exact Hs1|pow2; lia..]|].
    intros d2 Hs2 w3. apply createVerticalCorridor_shaped; [exact Hs2|pow2; lia..].
  - eapply run_mono; [apply createVerticalCorridor_shaped; [exact Hs1|pow2; lia..]|].
    intros d2 Hs2 w3. apply createHorizontalCorridor_shaped; [exact Hs2|pow2; lia..].
Qed.

Lemma shaped_set_Items rooms d items :
  shaped W H L rooms d -> shaped W H L rooms (Dungeon.set_Items items d).
Proof. intros Hs. exact Hs. Qed.

Lemma shaped_set_Enemies rooms d enemies :
  shaped W H L rooms d -> shaped W H L rooms (Dungeon.set_Enemies enemies d).
Proof. intros Hs. exact Hs. Qed.

(** Reads a tile at a position that [lia] finds inside the grid. *)
Ltac read_tile :=
  eapply tile_at_shaped; [eassumption | lia | lia | intros ? _ ?].

Lemma addDoor_shaped rooms x y d w :
  shaped W H L rooms d -> 1 <= x <= W - 2 -> 1 <= y <= H - 2 ->
  run fail (addDoor x y d) w (shaped W H L rooms).
Proof.
  intros Hs Hx Hy. unfold addDoor. pow2. unwrap.
  run_step. read_tile.
  destruct (_ =? Floor); [|now run_step].
  run_step. read_tile. run_step.
  apply run_mono with (Q := fun _ => True).
  { destruct (_ =? Wall); [|now run_step]. run_step. read_tile. now run_step. }
  intros vertical _ w1. run_step.
  apply run_mono with (Q := fun _ => True).
  { destruct vertical; [now run_step|]. run_step. read_tile.
    destruct (_ =? Wall); [|now run_step]. run_step. read_tile. now run_step. }
  intros pinched _ w2. destruct pinched; [|now run_step].
  run_step. apply run_Intn; [lia|]. intros n _ w3.
  destruct (n <? 10); [|now run_step].
  eapply run_mono; [apply put_shaped; [exact Hs|lia|lia]|]. now intros d' [? _].
Qed.

Lemma addDoors_shaped rooms d w :
  shaped W H L rooms d -> run fail (addDoors d) w (shaped W H L rooms).
Proof.
  intros Hs. unfold addDoors. pose proof Hs as (_ & HdH & _). rewrite HdH.
  pow2. unwrap.
  apply run_for_each with (I := shaped W H L rooms); [|exact Hs].
  intros y d1 w1 Hy Hs1. apply elem_of_range in Hy.
  pose proof Hs1 as (HdW1 & _). rewrite HdW1. unwrap.
  apply run_for_each with (I := shaped W H L rooms); [|exact Hs1].
  intros x d2 w2 Hx Hs2. apply elem_of_range in Hx.
  apply addDoor_shaped; [exact Hs2|lia|lia].
Qed.

Lemma addTreasure_shaped rooms room d w :
  shaped W H L rooms d -> room_ok W H room ->
  run fail (addTreasure room d) w (shaped W H L rooms).
Proof.
  intros Hs Hroom. unfold addTreasure, room_ok in *. pow2.
  run_step. apply run_Intn; [lia|]. intros n _ w1.
  destruct (n <? 40); [|now run_step].
  run_step. apply run_Intn; [lia|]. intros rx Hrx w2. cbv zeta.
  run_step. apply run_Intn; [lia|]. intros ry Hry w3. unwrap.
  run_step. eapply run_mono; [apply put_shaped; [exact Hs|lia|lia]|].
  intros d1 [Hs1 _] w4.
  run_step. apply run_Intn; [lia|]. intros v _ w5.
  run_step. now apply shaped_set_Items.
Qed.

Lemma addTreasures_shaped rooms d w :
  shaped W H L rooms d -> run fail (addTreasures d) w (shaped W H L rooms).
Proof.
  intros Hs. unfold addTreasures. pose proof Hs as (_ & _ & _ & HdR & _ & Hrooms).
  rewrite HdR.
  apply run_for_each with (I := shaped W H L rooms); [|exact Hs].
  intros room d1 w1 Hin Hs1. apply addTreasure_shaped; [exact Hs1|].
  rewrite Forall_forall in Hrooms. now apply Hrooms.
Qed.

Lemma placeTrap_shaped rooms attempts : forall d w,
  shaped W H L rooms d -> run fail (placeTrap attempts d) w (shaped W H L rooms).
Proof.
  induction attempts as [|attempts IH]; intros d w Hs; cbn [placeTrap].
  - now run_step.
  - pose proof Hs as (HdW & HdH & _). rewrite HdW, HdH. pow2. unwrap.
    run_step. apply run_Intn; [lia|]. intros rx Hrx w1. cbv zeta.
    run_step. apply run_Intn; [lia|]. intros ry Hry w2. unwrap.
    run_step. read_tile.
    destruct (_ =? Floor); [|now apply IH].
    eapply run_mono; [apply put_shaped; [exact Hs|lia|lia]|]. now intros d' [? _].
Qed.

Lemma addTraps_shaped rooms d w :
  shaped W H L rooms d -> run fail (addTraps d) w (shaped W H L rooms).
Proof.
  intros Hs. unfold addTraps.
  run_step. apply run_Intn; [lia|]. intros n _ w1. cbv zeta.
  apply run_times with (I := shaped W H L rooms); [|exact Hs].
  intros. now apply placeTrap_shaped.
Qed.

Lemma addFeatures_shaped rooms d w :
  shaped W H L rooms d -> run fail (addFeatures d) w (shaped W H L rooms).
Proof.
  intros Hs. unfold addFeatures.
  run_step. eapply run_mono; [apply addDoors_shaped, Hs|]. intros d1 Hs1 w1.
  run_step. eapply run_mono; [apply addTreasures_shaped, Hs1|]. intros d2 Hs2 w2.
  run_step. eapply run_mono; [apply addTraps_shaped, Hs2|]. intros d3 Hs3 w3.
  pose proof Hs3 as (_ & _ & _ & HdR & _ & Hrooms). rewrite HdR.
  destruct (Z.gtb_spec (len rooms) 0); [|now run_step].
  destruct (index_total rooms (len rooms - 1)) as (r & -> & Hr); [lia|].
  run_step. run_step. cbv zeta.
  rewrite Forall_forall in Hrooms. pose proof (Hrooms _ Hr) as Hk.
  destruct (centre_bounds r Hk) as (-> & -> & Hx & Hy). unfold room_ok in Hk.
  eapply run_mono; [apply put_shaped; [exact Hs3|lia|lia]|]. now intros d' [? _].
Qed.

Lemma spawnLoop_shaped rooms n : forall d w,
  shaped W H L rooms d -> run fail (spawnLoop n d) w (shaped W H L rooms).
Proof.
  induction n as [|n IH]; intros d w Hs; cbn [spawnLoop].
  - now run_step.
  - pose proof Hs as (_ & _ & _ & HdR & _ & Hrooms). rewrite HdR.
    destruct (Z.leb_spec (len rooms) 1); [now run_step|].
    run_step. apply run_Intn; [lia|]. intros ri Hri w1. cbv zeta.
    destruct (index_total rooms (1 + ri)) as (r & -> & Hr); [lia|].
    run_step. run_step.
    rewrite Forall_forall in Hrooms. pose proof (Hrooms _ Hr) as Hk.
    unfold room_ok in Hk.
    run_step. apply run_Intn; [lia|]. intros rx Hrx w2.
    run_step. apply run_Intn; [lia|]. intros ry Hry w3.
    run_step. apply run_Intn; [unfold len; cbn; lia|]. intros k Hk5 w4.
    destruct (index_total enemyTypes k) as (t & -> & _); [exact Hk5|].
    run_step. run_step. apply IH. now apply shaped_set_Enemies.
Qed.

Lemma spawnEnemies_shaped rooms min max d w :
  - 2 ^ 31 <= min <= max -> max <= 2 ^ 31 ->
  shaped W H L rooms d -> run fail (spawnEnemies min max d) w (shaped W H L rooms).
Proof.
  intros Hmin Hmax Hs. unfold spawnEnemies. pow2. unwrap.
  run_step. apply run_Intn; [lia|]. intros n _ w1. cbv zeta.
  now apply spawnLoop_shaped.
Qed.
End Generation.

Lemma makeGrid_shaped w h :
  0 <= w -> 0 <= h ->
  exists grid, makeGrid w h = Some grid
               /\ shaped w h 1 [] (Dungeon.mk w h grid [] [] [] 1).
Proof.
  intros Hw Hh. unfold makeGrid.
  destruct (Z.ltb_spec h 0); [lia|]. destruct (Z.ltb_spec w 0); [lia|].
  rewrite andb_false_r. eexists. split; [reflexivity|].
  do 4 (split; [reflexivity|]). split; [|constructor].
  split; cbn.
  - apply length_replicate.
  - apply Forall_replicate, length_replicate.
Qed.

Lemma NewDungeon_spec fail w h world :
  13 <= w <= 2 ^ 31 -> 13 <= h <= 2 ^ 31 ->
  run fail (NewDungeon w h) world
    (fun d => exists rooms, shaped w h 1 rooms d /\ rooms <> [] /\ apart rooms).
Proof.
  intros Hw Hh. unfold NewDungeon.
  destruct (makeGrid_shaped w h) as (grid & -> & Hs); [lia|lia|].
  run_step. run_step. cbv zeta.
  run_step. eapply run_mono.
  { eapply (generateRooms_spec w h 1); try eassumption; pow2; lia. }
  intros d1 (rooms & Hs1 & Hne & Ha) w1.
  run_step. eapply run_mono; [eapply (connectRooms_shaped w h 1); eassumption|].
  intros d2 Hs2 w2.
  run_step. eapply run_mono; [eapply (addFeatures_shaped w h 1); eassumption|].
  intros d3 Hs3 w3.
  eapply run_mono.
  { eapply (spawnEnemies_shaped w h 1); try eassumption; pow2; lia. }
  intros d4 Hs4. exists rooms. auto.
Qed.

(** C9. Room generation on a dungeon without rooms returns, with a room
    list that is not empty, in which no two distinct rooms have padded boxes
    that meet, every room inside the border of the grid. *)
Theorem generateRooms_rooms_apart minRooms maxRooms d w :
  13 <= Dungeon.Width d <= 2 ^ 31 -> 13 <= Dungeon.Height d <= 2 ^ 31 ->
  - 2 ^ 31 <= minRooms <= maxRooms -> maxRooms <= 2 ^ 31 ->
  grid_ok d -> Dungeon.Rooms d = [] ->
  exists d' w',
    generateRooms minRooms maxRooms d w = Done d' w'
    /\ Dungeon.Rooms d' <> []
    /\ apart (Dungeon.Rooms d')
    /\ Forall (room_ok (Dungeon.Width d) (Dungeon.Height d)) (Dungeon.Rooms d').
Proof.
  intros HW HH Hmin Hmax Hg Hr.
  assert (shaped (Dungeon.Width d) (Dungeon.Height d) (Dungeon.Level d) [] d) as Hs.
  { do 3 (split; [reflexivity|]). split; [exact Hr|]. split; [exact Hg|constructor]. }
  destruct (total_Done _ _ _
              (generateRooms_spec _ _ _ HW HH False minRooms maxRooms d w Hmin Hmax Hs))
    as (d' & w' & E & rooms & Hs' & Hne & Ha).
  destruct Hs' as (_ & _ & _ & Hr' & _ & Hok).
  exists d', w'. rewrite Hr'. auto.
Qed.

Lemma blank_dungeon_grid_ok : grid_ok blank_dungeon.
Proof.
  split; [reflexivity|]. apply Forall_replicate. reflexivity.
Qed.

Lemma generateRooms_rooms_apart_witness :
  exists d' w',
    generateRooms 4 8 blank_dungeon sample_world = Done d' w'
    /\ Dungeon.Rooms d' <> []
    /\ apart (Dungeon.Rooms d').
Proof.
  destruct (generateRooms_rooms_apart 4 8 blank_dungeon sample_world)
    as (d' & w' & E & Hne & Ha & _);
    [cbn; pow2; lia | cbn; pow2; lia | pow2; lia | pow2; lia
    | exact blank_dungeon_grid_ok | reflexivity |].
  exists d', w'. auto.
Defined.

(** ** Treasures *)

Lemma addTreasure_items d room d1 w :
  room ∈ Dungeon.Rooms d ->
  (exists new, Dungeon.Items d1 = Dungeon.Items d ++ new
               /\ Forall (treasure_item (Dungeon.Rooms d) (Dungeon.Grid d1)) new
               /\ treasures_covered (Dungeon.Grid d) (Dungeon.Grid d1) new) ->
  run True (addTreasure room d1) w
    (fun d2 => exists new, Dungeon.Items d2 = Dungeon.Items d ++ new
               /\ Forall (treasure_item (Dungeon.Rooms d) (Dungeon.Grid d2)) new
               /\ treasures_covered (Dungeon.Grid d) (Dungeon.Grid d2) new).
Proof.
  intros Hroom (new & Hitems & Hnew & Hcov). unfold addTreasure.
  run_step. apply run_Intn; [trivial|]. intros n _ w1.
  destruct (n <? 40); [|run_step; eauto].
  run_step. apply run_Intn; [trivial|]. intros rx Hrx w2. cbv zeta.
  run_step. apply run_Intn; [trivial|]. intros ry Hry w3.
  run_step. apply run_must; [trivial|]. intros d2 Hw w4.
  run_step. apply run_Intn; [trivial|]. intros v Hv w5. run_step.
  set (it := Item.mk _ _ _ _ _ _ _ _).
  pose proof (write_terrain _ _ _ _ _ Hw) as (_ & _ & _ & _ & Hi2 & _).
  unfold write in Hw.
  destruct (set_cell (Dungeon.Grid d1) _ _ Treasure) as [g|] eqn:Eg; [|discriminate].
  injection Hw as <-. cbn [Dungeon.set_Items Dungeon.set_Grid Dungeon.Items Dungeon.Grid] in *.
  pose proof (fun x y => cell_set_cell _ _ _ _ _ x y Eg) as Hcell.
  exists (new ++ [it]). split; [|split].
  - rewrite Hitems. now rewrite app_assoc.
  - apply Forall_app. split.
    + eapply Forall_impl; [exact Hnew|].
      intros it0 (? & ? & ? & ? & Hc0 & ?). do 4 (split; [assumption|]).
      split; [|assumption]. rewrite Hcell. now destruct (_ && _).
    + constructor; [|constructor]. unfold it, treasure_item.
      cbn [Item.Type_ Item.Name Item.Value Item.Collected Item.X Item.Y].
      do 2 (split; [reflexivity|]). split; [unwrap; lia|]. split; [reflexivity|].
      split; [rewrite Hcell; now rewrite !Z.eqb_refl|].
      exists room, rx, ry. auto.
  - intros x y Hxy. rewrite Hcell in Hxy.
    destruct ((x =? Room.X room +i rx) && (y =? Room.Y room +i ry)) eqn:Hb.
    + apply andb_true_iff in Hb as [Hx Hy]. apply Z.eqb_eq in Hx, Hy.
      right. exists it. split; [apply elem_of_app; right; now left|]. auto.
    + destruct (Hcov _ _ Hxy) as [|(it0 & ? & ?)]; [now left|].
      right. exists it0. split; [apply elem_of_app; now left|assumption].
Qed.

(** C3, as stated, fails: the item registered for a treasure tile is not
    of type [ItemGold]. *)
Example addTreasures_registers_ItemTreasure :
  exists d' w' it,
    addTreasures one_room sample_world = Done d' w'
    /\ Dungeon.Items d' = [it]
    /\ cell (Dungeon.Grid d') (Item.X it) (Item.Y it) = Some Treasure
    /\ Item.Type_ it = ItemTreasure
    /\ Item.Type_ it <> ItemGold.
Proof.
  eexists _, _, _. split; [vm_compute; reflexivity|].
  split; [reflexivity|]. split; [reflexivity|]. split; [reflexivity|discriminate].
Qed.

Lemma treasure_values_attainable v :
  10 <= v <= 99 ->
  exists d' w' it,
    addTreasures one_room (fourth_draw_world (v - 10)) = Done d' w'
    /\ Dungeon.Items d' = [it] /\ Item.Value it = v.
Proof.
  intros Hv. eexists _, _, _. split; [|split].
  - unfold addTreasures, one_room, fourth_draw_world. cbn [Dungeon.Rooms for_each].
    unfold addTreasure. unfold bind at 1. cbn. reflexivity.
  - reflexivity.
  - cbn. rewrite Z.mod_small by lia. unwrap. lia.
Qed.

(** C3, as the code has it. The items [addTreasures] appends are of type
    [ItemTreasure], named "Gold" and worth 10 to 99; each lies on a
    [Treasure] tile inside one of the rooms, and every treasure tile the pass
    has put on the grid has its item at the same position. Every value from
    10 to 99 can be drawn. *)
Theorem addTreasures_items :
  (forall d w d' w',
      addTreasures d w = Done d' w' ->
      exists new,
        Dungeon.Items d' = Dungeon.Items d ++ new
        /\ Forall (treasure_item (Dungeon.Rooms d) (Dungeon.Grid d')) new
        /\ treasures_covered (Dungeon.Grid d) (Dungeon.Grid d') new)
  /\ (forall v, 10 <= v <= 99 ->
        exists d' w' it,
          addTreasures one_room (fourth_draw_world (v - 10)) = Done d' w'
          /\ Dungeon.Items d' = [it] /\ Item.Value it = v).
Proof.
  split; [|exact treasure_values_attainable].
  intros d w d' w' E.
  refine (partial_Done _ _
            (fun d1 => exists new,
                 Dungeon.Items d1 = Dungeon.Items d ++ new
                 /\ Forall (treasure_item (Dungeon.Rooms d) (Dungeon.Grid d1)) new
                 /\ treasures_covered (Dungeon.Grid d) (Dungeon.Grid d1) new)
            _ _ _ E).
  unfold addTreasures. apply run_for_each.
  - intros room d1 w1 Hin HI. now apply addTreasure_items.
  - exists []. split; [now rewrite app_nil_r|]. split; [constructor|].
    intros x y Hxy. now left.
Qed.

(** ** Enemy types *)

Lemma index_elem_of {A} (l : list A) i a : index l i = Some a -> a ∈ l.
Proof.
  unfold index. destruct (i <? 0); [discriminate|]. apply list_elem_of_lookup_2.
Qed.

Lemma spawnLoop_enemies n : forall d w,
  run True (spawnLoop n d) w
    (fun d' => exists new, Dungeon.Enemies d' = Dungeon.Enemies d ++ new
                           /\ Forall (spawned_from enemyTypes) new).
Proof.
  induction n as [|n IH]; intros d w; cbn [spawnLoop].
  - run_step. exists []. split; [now rewrite app_nil_r|constructor].
  - destruct (_ <=? 1).
    { run_step. exists []. split; [now rewrite app_nil_r|constructor]. }
    run_step. apply run_Intn; [trivial|]. intros ri _ w1. cbv zeta.
    run_step. apply run_must; [trivial|]. intros room _ w2.
    run_step. apply run_Intn; [trivial|]. intros rx _ w3.
    run_step. apply run_Intn; [trivial|]. intros ry _ w4.
    run_step. apply run_Intn; [trivial|]. intros k _ w5.
    run_step. apply run_must; [trivial|]. intros enemyType Ht w6.
    eapply run_mono; [apply IH|].
    intros d' (new & Hd' & Hnew). cbn [Dungeon.set_Enemies Dungeon.Enemies] in Hd'.
    eexists (_ :: new). split; [rewrite Hd'; now rewrite <- app_assoc|].
    constructor; [|exact Hnew].
    eexists _, _, _. split; [eapply index_elem_of, Ht|reflexivity].
Qed.

Lemma spawnNear_enemies ps player d : forall w,
  run True (spawnNear ps player d) w
    (fun d' => exists new, Dungeon.Enemies d' = Dungeon.Enemies d ++ new
                           /\ (length new <= 1)%nat
                           /\ Forall (spawned_from nearEnemyTypes) new).
Proof.
  induction ps as [|pos ps IH]; intros w; cbn [spawnNear].
  - run_step. exists []. split; [now rewrite app_nil_r|]. split; [cbn; lia|constructor].
  - cbv zeta. run_step. apply run_must; [trivial|]. intros walkable _ w1.
    destruct (_ && _); [|apply IH].
    run_step. apply run_Intn; [trivial|]. intros k _ w2.
    run_step. apply run_must; [trivial|]. intros enemyType Ht w3.
    run_step. run_step. run_step.
    eexists [_]. split; [reflexivity|]. split; [cbn; lia|].
    constructor; [|constructor].
    eexists _, _, _. split; [eapply index_elem_of, Ht|reflexivity].
Qed.

(** C4, as the code has it. An enemy spawned by level generation is made
    from an entry of the five-entry table, and every entry can be drawn; the
    enemy spawned next to the player by an interrupted rest (at most one) is
    made from an entry of the two-entry table, Goblin or Rat, and both can be
    drawn. *)
Theorem spawned_enemy_types :
  (forall min max d w d' w',
      spawnEnemies min max d w = Done d' w' ->
      exists new, Dungeon.Enemies d' = Dungeon.Enemies d ++ new
                  /\ Forall (spawned_from enemyTypes) new)
  /\ (forall enemyType, enemyType ∈ enemyTypes ->
        exists w d' w' x y,
          spawnEnemies 1 1 two_rooms w = Done d' w'
          /\ Dungeon.Enemies d' = [newEnemy x y enemyType])
  /\ (forall player dungeon w dungeon' w',
        spawnEnemyNearPlayer player dungeon w = Done dungeon' w' ->
        exists new, Dungeon.Enemies dungeon' = Dungeon.Enemies dungeon ++ new
                    /\ (length new <= 1)%nat
                    /\ Forall (spawned_from nearEnemyTypes) new)
  /\ (forall enemyType, enemyType ∈ nearEnemyTypes ->
        exists w dungeon' w' x y,
          spawnEnemyNearPlayer (NewPlayer 1 1) open_dungeon w = Done dungeon' w'
          /\ Dungeon.Enemies dungeon' = [newEnemy x y enemyType]).
Proof.
  split; [|split; [|split]].
  - intros min max d w d' w' E.
    refine (partial_Done _ _ (fun d' => exists new, _ /\ _) _ _ _ E).
    unfold spawnEnemies. run_step. apply run_Intn; [trivial|]. intros n _ w1.
    apply spawnLoop_enemies.
  - intros enemyType Hin. unfold enemyTypes in Hin.
    repeat (apply elem_of_cons in Hin as [->|Hin]);
      [exists (constant_world 0) | exists (constant_world 1)
       | exists (constant_world 2) | exists (constant_world 3)
       | exists (constant_world 4) | now apply elem_of_nil in Hin];
      eexists _, _, _, _; (split; [vm_compute; reflexivity|reflexivity]).
  - intros player dungeon w dungeon' w' E.
    refine (partial_Done _ _ (fun d' => exists new, _ /\ _ /\ _) _ _ _ E).
    apply spawnNear_enemies.
  - intros enemyType Hin. unfold nearEnemyTypes in Hin.
    repeat (apply elem_of_cons in Hin as [->|Hin]);
      [exists (constant_world 0) | exists (constant_world 1)
       | now apply elem_of_nil in Hin];
      eexists _, _, _, _; (split; [vm_compute; reflexivity|reflexivity]).
Qed.

(** C4, as stated, fails: on the draw that makes level generation spawn a
    Troll, an interrupted rest spawns a Goblin, and it never spawns anything
    but a Goblin or a Rat. *)
Example rest_spawns_goblin_or_rat_only :
  (exists d' w' dungeon' w'',
      spawnEnemies 1 1 two_rooms (constant_world 2) = Done d' w'
      /\ map Enemy.Name (Dungeon.Enemies d') = ["Troll"%string]
      /\ spawnEnemyNearPlayer (NewPlayer 1 1) open_dungeon (constant_world 2)
         = Done dungeon' w''
      /\ map Enemy.Name (Dungeon.Enemies dungeon') = ["Goblin"%string])
  /\ (forall player dungeon w dungeon' w',
        spawnEnemyNearPlayer player dungeon w = Done dungeon' w' ->
        Forall (fun e => Enemy.Name e = "Goblin"%string \/ Enemy.Name e = "Rat"%string)
               (drop (length (Dungeon.Enemies dungeon)) (Dungeon.Enemies dungeon'))).
Proof.
  split.
  - eexists _, _, _, _.
    split; [vm_compute; reflexivity|]. split; [reflexivity|].
    split; [vm_compute; reflexivity|reflexivity].
  - intros player dungeon w dungeon' w' E.
    pose proof (partial_Done _ _ _ _ _ (spawnNear_enemies positions player dungeon w) E)
      as (new & -> & _ & Hnew).
    rewrite drop_app_length. eapply Forall_impl; [exact Hnew|].
    intros e (t & x & y & Ht & ->). unfold nearEnemyTypes in Ht.
    repeat (apply elem_of_cons in Ht as [->|Ht]); [now left|now right|].
    now apply elem_of_nil in Ht.
Qed.

(** ** Descending *)

Lemma descend_spec p d w :
  GetTileAt d (Player.X p) (Player.Y p) = Some StairsDown ->
  run False (descend p d) w
    (fun r => exists rooms, shaped 80 24 2 rooms (snd r) /\ rooms <> [] /\ apart rooms
                            /\ Player.Health (fst r) = Player.Health p).
Proof.
  intros Ht. unfold descend. rewrite Ht. run_step. run_step.
  change (StairsDown =? StairsDown) with true. cbv iota.
  run_step. eapply run_mono; [apply NewDungeon_spec; pow2; lia|].
  intros d1 (rooms & Hs & Hne & Ha) w1. cbv zeta.
  destruct Hs as (HdW & HdH & HdL & HdR & Hg & Hrooms).
  run_step. unfold firstRoomCentre. cbn [Dungeon.set_Level Dungeon.Rooms].
  rewrite HdR. destruct rooms as [|room rooms]; [congruence|].
  change (index (room :: rooms) 0) with (Some room).
  destruct (Z.gtb_spec (len (room :: rooms)) 0) as [_|Hl]; [|unfold len in Hl; cbn in Hl; lia].
  run_step. run_step. run_step. run_step. run_step. run_step.
  exists (room :: rooms). cbn [fst snd]. split; [|auto].
  rewrite HdL. change (1 +i 1) with 2.
  do 3 (split; [assumption || reflexivity|]). split; [exact HdR|]. split; assumption.
Qed.

(** C1, as the code has it. The command [">"] given on a [StairsDown] tile
    replaces the dungeon by a freshly generated one of 80 by 24 whose level
    counter is 2, whatever the level of the dungeon left: the counter is read
    from the new dungeon, not from the old one. *)
Theorem descend_level fuel p d w :
  GetTileAt d (Player.X p) (Player.Y p) = Some StairsDown ->
  exists s p' d' w',
    playing fuel ">" p d w = Done (s, (p', d')) w'
    /\ Dungeon.Width d' = 80 /\ Dungeon.Height d' = 24 /\ grid_ok d'
    /\ Dungeon.Level d' = 2.
Proof.
  intros Ht.
  assert (run False (playing fuel ">" p d) w
            (fun r => exists rooms, shaped 80 24 2 rooms (snd (snd r)))) as Hrun.
  { unfold playing. change (said ">" "q" "quit") with false. cbv iota.
    change (said ">" "w" "up") with false. change (said ">" "s" "down") with false.
    change (said ">" "a" "left") with false. change (said ">" "d" "right") with false.
    change (said ">" "i" "inventory") with false.
    change (">" =? ">")%string with true. cbv iota.
    run_step. run_step. eapply run_mono; [apply descend_spec, Ht|].
    intros r (rooms & Hs & _) w1. run_step.
    destruct (_ <=? 0); run_step; cbn [fst snd]; eauto. }
  destruct (total_Done _ _ _ Hrun) as ([s [p' d']] & w' & E & rooms & Hs).
  destruct Hs as (? & ? & ? & _ & ? & _).
  exists s, p', d', w'. auto.
Qed.

Lemma descend_level_witness :
  GetTileAt stairs_dungeon 1 1 = Some StairsDown
  /\ Dungeon.Level stairs_dungeon = 2
  /\ exists s p' d' w',
       playing 0 ">" (NewPlayer 1 1) stairs_dungeon sample_world = Done (s, (p', d')) w'
       /\ Dungeon.Level d' = 2.
Proof.
  split; [reflexivity|]. split; [reflexivity|].
  destruct (descend_level 0 (NewPlayer 1 1) stairs_dungeon sample_world)
    as (s & p' & d' & w' & E & _ & _ & _ & Hl); [reflexivity|].
  exists s, p', d', w'. auto.
Defined.

(** X1. [NewDungeon 80 24] never panics: it returns a level-1 dungeon whose
    grid has the declared dimensions, with rooms inside the border whose
    padded boxes do not meet. *)
Theorem NewDungeon_total world :
  exists d world',
    NewDungeon 80 24 world = Done d world'
    /\ Dungeon.Width d = 80 /\ Dungeon.Height d = 24 /\ Dungeon.Level d = 1
    /\ grid_ok d
    /\ Dungeon.Rooms d <> []
    /\ Forall (room_ok 80 24) (Dungeon.Rooms d)
    /\ apart (Dungeon.Rooms d).
Proof.
  destruct (total_Done _ _ _ (NewDungeon_spec False 80 24 world
                                ltac:(pow2; lia) ltac:(pow2; lia)))
    as (d & world' & E & rooms & Hs & Hne & Ha).
  destruct Hs as (? & ? & ? & <- & ? & ?).
  exists d, world'. auto 10.
Qed.

(** ** The grid keeps its dimensions *)

Lemma grid_ok_terrain d d' : terrain d' = terrain d -> grid_ok d -> grid_ok d'.
Proof. unfold terrain, grid_ok. now intros [= -> -> ->]. Qed.

Lemma total_partial {A} (m : Go A) w (Q : A -> Prop) :
  run False m w Q -> run True m w Q.
Proof. unfold run. now destruct (m w). Qed.

Lemma descend_grid_ok p d w :
  grid_ok d -> run True (descend p d) w (fun r => grid_ok (snd r)).
Proof.
  intros Hg.
  destruct (GetTileAt d (Player.X p) (Player.Y p)) as [tile|] eqn:Ht;
    [|unfold descend, run, bind; now rewrite Ht].
  destruct (Z.eqb_spec tile StairsDown) as [->|Hne].
  - eapply run_mono; [apply total_partial, descend_spec, Ht|].
    intros r (rooms & Hs & _). apply Hs.
  - unfold descend. rewrite Ht. run_step. run_step.
    destruct (Z.eqb_spec tile StairsDown); [contradiction|].
    run_step. run_step. now run_step.
Qed.

(** X2. The invariant of the data model: through every command of the playing
    state, the descent included, the grid has [Height] rows of [Width]
    cells. *)
Theorem playing_grid_ok fuel input p d w s p' d' w' :
  grid_ok d -> playing fuel input p d w = Done (s, (p', d')) w' -> grid_ok d'.
Proof.
  intros Hg E.
  refine (partial_Done _ _ (fun r => grid_ok (snd (snd r))) _ _ _ E).
  destruct (String.eqb_spec input ">") as [->|Hin].
  - unfold playing. change (said ">" "q" "quit") with false. cbv iota.
    change (said ">" "w" "up") with false. change (said ">" "s" "down") with false.
    change (said ">" "a" "left") with false. change (said ">" "d" "right") with false.
    change (said ">" "i" "inventory") with false.
    change (">" =? ">")%string with true. cbv iota.
    run_step. run_step. eapply run_mono; [apply descend_grid_ok, Hg|].
    intros r Hr w1. run_step. destruct (_ <=? 0); now run_step.
  - apply (playing_kept grid_ok grid_ok_terrain); [|exact Hin|exact Hg].
    intros d1 x y d2 Hw Hg1. exact (write_grid_ok _ _ _ _ _ Hg1 Hw).
Qed.

Lemma playing_grid_ok_witness :
  grid_ok sample_dungeon
  /\ exists s p' d' w',
       playing 0 "d" (NewPlayer 1 1) sample_dungeon sample_world = Done (s, (p', d')) w'
       /\ grid_ok d'.
Proof.
  split; [exact sample_dungeon_grid_ok|].
  eexists _, _, _, _. split; [vm_compute; reflexivity|].
  eapply (playing_grid_ok 0 "d" (NewPlayer 1 1) sample_dungeon sample_world);
    [exact sample_dungeon_grid_ok | vm_compute; reflexivity].
Defined.

(** ** The layout of a generated dungeon *)

Lemma run_conj {A} fail (m : Go A) w (Q1 Q2 : A -> Prop) :
  run fail m w Q1 -> run fail m w Q2 -> run fail m w (fun a => Q1 a /\ Q2 a).
Proof. unfold run. destruct (m w); auto. Qed.

Lemma run_for_each_prefix {A S} fail (I : list A -> S -> Prop)
    (body : A -> S -> Go S) (l : list A) :
  (forall done a todo s w,
      l = done ++ a :: todo -> I done s -> run fail (body a s) w (I (done ++ [a]))) ->
  forall s w, I [] s -> run fail (for_each l body s) w (I l).
Proof.
  intros Hb.
  assert (forall todo done, l = done ++ todo ->
            forall s w, I done s -> run fail (for_each todo body s) w (I l)) as Hgen.
  { induction todo as [|a todo IH]; intros done Hl s w Hs; cbn [for_each].
    - rewrite app_nil_r in Hl. subst done. exact Hs.
    - apply run_bind. eapply run_mono; [eapply Hb; eassumption|].
      intros s' Hs' w'. apply (IH (done ++ [a])); [|exact Hs'].
      now rewrite <- app_assoc. }
  intros s w Hs. now apply (Hgen l []).
Qed.

Lemma IsWalkable_write d px py v d' x y :
  write d px py v = Some d' ->
  IsWalkable d' x y
  = if out_of_bounds d x y then Some false
    else if (x =? px) && (y =? py) then Some (walkable_tile v)
         else IsWalkable d x y.
Proof.
  unfold write. destruct (set_cell (Dungeon.Grid d) px py v) as [g|] eqn:E; [|discriminate].
  intros [= <-]. unfold IsWalkable, out_of_bounds. cbn.
  destruct (_ || _); [reflexivity|]. rewrite (cell_set_cell _ _ _ _ _ x y E).
  now destruct ((x =? px) && (y =? py)).
Qed.

Lemma IsWalkable_true d x y :
  IsWalkable d x y = Some true ->
  0 <= x < Dungeon.Width d /\ 0 <= y < Dungeon.Height d
  /\ exists t, cell (Dungeon.Grid d) x y = Some t /\ walkable_tile t = true.
Proof.
  unfold IsWalkable. destruct (out_of_bounds d x y) eqn:E; [discriminate|].
  apply out_of_bounds_false in E. destruct (cell _ x y) as [t|]; [|discriminate].
  intros [= Ht]. destruct E as [Hx Hy]. split; [exact Hx|]. split; [exact Hy|]. eauto.
Qed.

Lemma extends_refl d : extends d d.
Proof. intros x y H. exact H. Qed.

Lemma extends_trans d1 d2 d3 : extends d1 d2 -> extends d2 d3 -> extends d1 d3.
Proof. intros H12 H23 x y H. auto. Qed.

Lemma extends_terrain d d' : terrain d' = terrain d -> extends d d'.
Proof. intros Ht x y. now rewrite (IsWalkable_terrain _ _ _ _ Ht). Qed.

Lemma extends_write d x y v d' :
  walkable_tile v = true -> write d x y v = Some d' -> extends d d'.
Proof.
  intros Hv Hw x' y' H. rewrite (IsWalkable_write _ _ _ _ _ _ _ Hw).
  destruct (IsWalkable_true _ _ _ H) as (Hx & Hy & _).
  assert (out_of_bounds d x' y' = false) as -> by now apply out_of_bounds_false.
  destruct (_ && _); [now rewrite Hv|exact H].
Qed.

Lemma written_walkable d x y v d' :
  walkable_tile v = true -> write d x y v = Some d' ->
  0 <= x < Dungeon.Width d -> 0 <= y < Dungeon.Height d ->
  IsWalkable d' x y = Some true.
Proof.
  intros Hv Hw Hx Hy. rewrite (IsWalkable_write _ _ _ _ _ _ _ Hw).
  assert (out_of_bounds d x y = false) as -> by now apply out_of_bounds_false.
  now rewrite !Z.eqb_refl, Hv.
Qed.

Lemma furnishing_walkable v : furnishing v -> walkable_tile v = true.
Proof. intros [-> | [-> | [-> | ->]]]; reflexivity. Qed.

Lemma room_ok_interior W H r x y :
  room_ok W H r ->
  Room.X r <= x < Room.X r + Room.Width r ->
  Room.Y r <= y < Room.Y r + Room.Height r ->
  interior W H x y.
Proof. unfold room_ok, interior. lia. Qed.

(** The generator keeps any property of the dungeon that survives a
    furnishing tile laid inside the border. *)
Section Furnish.
Variables W H L : Z.
Hypothesis HW : 13 <= W <= 2 ^ 31.
Hypothesis HH : 13 <= H <= 2 ^ 31.
Variable fail : Prop.
Variable P : Dungeon.t -> Prop.
Hypothesis P_write : forall d x y v d',
    Dungeon.Width d = W -> Dungeon.Height d = H ->
    interior W H x y -> furnishing v ->
    write d x y v = Some d' -> P d -> P d'.
Hypothesis P_frame : forall d d',
    terrain d' = terrain d -> Dungeon.Enemies d' = Dungeon.Enemies d ->
    Dungeon.Items d' = Dungeon.Items d -> P d -> P d'.
Hypothesis P_item : forall d it,
    Item.Type_ it = ItemTreasure -> P d ->
    P (Dungeon.set_Items (Dungeon.Items d ++ [it]) d).

Lemma put_kept rooms d x y v w :
  shaped W H L rooms d -> P d -> interior W H x y -> furnishing v ->
  run fail (put x y v d) w (fun d' => shaped W H L rooms d' /\ P d').
Proof.
  intros Hs HP Hi Hv. pose proof Hs as (HdW & HdH & _). destruct Hi as [Hx Hy].
  eapply run_mono; [apply (put_shaped W H L); [exact Hs|lia|lia]|].
  intros d' [Hs' Hw]. split; [exact Hs'|].
  eapply P_write; try eassumption. split; assumption.
Qed.

Lemma carveRoom_kept rooms room d w :
  shaped W H L rooms d -> P d -> room_ok W H room ->
  run fail (carveRoom room d) w (fun d' => shaped W H L rooms d' /\ P d').
Proof.
  intros Hs HP Hroom. pose proof Hroom as (Hx & Hw & Hxw & Hy & Hh & Hyh).
  unfold carveRoom. pow2. unwrap.
  apply run_for_each with (I := fun d' => shaped W H L rooms d' /\ P d'); [|auto].
  intros y d1 w1 Hiny [Hs1 HP1]. apply elem_of_range in Hiny.
  apply run_for_each with (I := fun d' => shaped W H L rooms d' /\ P d'); [|auto].
  intros x d2 w2 Hinx [Hs2 HP2]. apply elem_of_range in Hinx.
  apply put_kept; [assumption..| |now left].
  eapply room_ok_interior; eauto.
Qed.

Lemma placeRoom_kept d w :
  (exists rooms, shaped W H L rooms d /\ apart rooms) -> P d ->
  run fail (placeRoom d) w
    (fun d' => (exists rooms, shaped W H L rooms d' /\ apart rooms) /\ P d').
Proof.
  intros HI HP. apply run_conj; [now apply (placeRoom_spec W H L)|].
  destruct HI as (rooms & Hs & Ha).
  pose proof Hs as (HdW & HdH & HdL & HdR & Hg & Hrooms).
  unfold placeRoom. change (maxSize -i minSize +i 1) with 7. unfold minSize.
  pow2. rewrite HdW, HdH, HdR.
  run_step. apply run_Intn; [lia|]. intros rw Hrw w1.
  run_step. apply run_Intn; [lia|]. intros rh Hrh w2. cbv zeta. unwrap.
  run_step. apply run_Intn; [lia|]. intros rx Hrx w3.
  run_step. apply run_Intn; [lia|]. intros ry Hry w4. unwrap.
  set (room := Room.mk (1 + rx) (1 + ry) (4 + rw) (4 + rh)).
  assert (room_ok W H room) as Hroom by (unfold room_ok, room; cbn; lia).
  destruct (existsb (roomsOverlap room) rooms); cbn [negb]; [now run_step|].
  run_step. eapply run_mono; [apply carveRoom_kept; eassumption|].
  intros d1 [Hs1 HP1] w5. run_step.
  eapply P_frame; [| | |exact HP1]; reflexivity.
Qed.

Lemma generateRooms_kept minRooms maxRooms d w :
  - 2 ^ 31 <= minRooms <= maxRooms -> maxRooms <= 2 ^ 31 ->
  shaped W H L [] d -> P d ->
  run fail (generateRooms minRooms maxRooms d) w
    (fun d' => (exists rooms, shaped W H L rooms d' /\ rooms <> [] /\ apart rooms)
               /\ P d').
Proof.
  intros Hmin Hmax Hs HP.
  apply run_conj; [now apply (generateRooms_spec W H L)|].
  unfold generateRooms. pow2. unwrap.
  run_step. apply run_Intn; [lia|]. intros n Hn w1. cbv zeta.
  run_step. eapply run_mono.
  { apply run_times
      with (I := fun d' => (exists rooms, shaped W H L rooms d' /\ apart rooms) /\ P d').
    - intros s w0 [HI HP0]. now apply placeRoom_kept.
    - split; [|exact HP]. exists []. split; [exact Hs|].
      intros i j r1 r2 _ Hi. discriminate. }
  intros d1 [(rooms & Hs1 & Ha1) HP1] w2.
  pose proof Hs1 as (HdW & HdH & HdL & HdR & Hg & Hrooms).
  unfold len. rewrite HdR.
  destruct rooms as [|r rooms]; cbn [length].
  - rewrite HdW, HdH. unwrap_div. cbv zeta.
    set (room := Room.mk _ _ _ _).
    assert (room_ok W H room) as Hroom.
    { unfold room_ok, room. cbn -[Z.quot]. Z.to_euclidean_division_equations. lia. }
    change (Z.of_nat 0 =? 0) with true. cbv iota.
    run_step. eapply run_mono; [apply carveRoom_kept; eassumption|].
    intros d2 [Hs2 HP2] w3. run_step.
    eapply P_frame; [| | |exact HP2]; reflexivity.
  - destruct (Z.eqb_spec (Z.of_nat (S (length rooms))) 0); [lia|].
    now run_step.
Qed.

Lemma corridor_cell_kept rooms d x y w :
  shaped W H L rooms d -> P d -> interior W H x y ->
  run fail (if in_grid d x y then put x y Floor d else ret d) w
    (fun d' => shaped W H L rooms d' /\ P d').
Proof.
  intros Hs HP Hi. destruct (in_grid d x y); [|now run_step].
  apply put_kept; [assumption..|now left].
Qed.

Lemma createHorizontalCorridor_kept rooms d x1 x2 y w :
  shaped W H L rooms d -> P d ->
  interior W H x1 y -> interior W H x2 y ->
  run fail (createHorizontalCorridor x1 x2 y d) w
    (fun d' => shaped W H L rooms d' /\ P d').
Proof.
  intros Hs HP [H1 Hy] [H2 _]. unfold createHorizontalCorridor. cbv zeta. pow2.
  destruct (Z.eqb_spec (if x1 >? x2 then x1 else x2) int_max) as [E|_].
  { unfold int_max in E. pow2. destruct (x1 >? x2); lia. }
  apply run_for_each with (I := fun d' => shaped W H L rooms d' /\ P d'); [|auto].
  intros x d1 w1 Hx [Hs1 HP1]. apply elem_of_range in Hx.
  apply corridor_cell_kept; [assumption..|].
  split; [|exact Hy]. destruct (x1 >? x2); lia.
Qed.

Lemma createVerticalCorridor_kept rooms d y1 y2 x w :
  shaped W H L rooms d -> P d ->
  interior W H x y1 -> interior W H x y2 ->
  run fail (createVerticalCorridor y1 y2 x d) w
    (fun d' => shaped W H L rooms d' /\ P d').
Proof.
  intros Hs HP [Hx H1] [_ H2]. unfold createVerticalCorridor. cbv zeta. pow2.
  destruct (Z.eqb_spec (if y1 >? y2 then y1 else y2) int_max) as [E|_].
  { unfold int_max in E. pow2. destruct (y1 >? y2); lia. }
  apply run_for_each with (I := fun d' => shaped W H L rooms d' /\ P d'); [|auto].
  intros y d1 w1 Hy [Hs1 HP1]. apply elem_of_range in Hy.
  apply corridor_cell_kept; [assumption..|].
  split; [exact Hx|]. destruct (y1 >? y2); lia.
Qed.

Lemma centre_interior r :
  room_ok W H r -> interior W H (fst (centre r)) (snd (centre r)).
Proof.
  unfold room_ok, interior, centre. cbn [fst snd]. intros Hr.
  Z.to_euclidean_division_equations. lia.
Qed.

Lemma centre_machine r :
  room_ok W H r ->
  Room.X r +i Room.Width r /i 2 = fst (centre r)
  /\ Room.Y r +i Room.Height r /i 2 = snd (centre r).
Proof.
  intros Hr. destruct (centre_bounds W H HW HH r Hr) as (-> & -> & _). now split.
Qed.

Lemma connectRooms_kept rooms d w :
  shaped W H L rooms d -> P d ->
  run fail (connectRooms d) w (fun d' => shaped W H L rooms d' /\ P d').
Proof.
  intros Hs HP. pose proof Hs as (_ & _ & _ & HdR & _ & Hrooms).
  unfold connectRooms. destruct (_ <=? 1); [now run_step|].
  apply run_for_each with (I := fun d' => shaped W H L rooms d' /\ P d'); [|auto].
  intros i d1 w1 Hi [Hs1 HP1]. apply elem_of_range in Hi.
  pose proof Hs1 as (_ & _ & _ & HdR1 & _). rewrite HdR1. rewrite HdR in Hi.
  destruct (index_total rooms i) as (r1 & E1 & Hr1); [lia|].
  destruct (index_total rooms (i + 1)) as (r2 & E2 & Hr2); [lia|].
  rewrite E1, E2. run_step. run_step. run_step. run_step. cbv zeta.
  rewrite Forall_forall in Hrooms.
  destruct (centre_machine r1 (Hrooms _ Hr1)) as (-> & ->).
  destruct (centre_machine r2 (Hrooms _ Hr2)) as (-> & ->).
  pose proof (centre_interior r1 (Hrooms _ Hr1)) as [I1x I1y].
  pose proof (centre_interior r2 (Hrooms _ Hr2)) as [I2x I2y].
  run_step. apply run_Intn; [lia|]. intros c _ w2.
  destruct (c =? 0); run_step.
  - eapply run_mono;
      [apply createHorizontalCorridor_kept; [eassumption..|split; assumption|split; assumption]|].
    intros d2 [Hs2 HP2] w3.
    apply createVerticalCorridor_kept; [assumption..|split; assumption|split; assumption].
  - eapply run_mono;
      [apply createVerticalCorridor_kept; [eassumption..|split; assumption|split; assumption]|].
    intros d2 [Hs2 HP2] w3.
    apply createHorizontalCorridor_kept; [assumption..|split; assumption|split; assumption].
Qed.

(** Reads a tile at a position that [lia] finds inside the grid. *)
Ltac read_tile :=
  eapply (tile_at_shaped W H L); [eassumption | lia | lia | intros ? _ ?].

Lemma addDoor_kept rooms x y d w :
  shaped W H L rooms d -> P d -> interior W H x y ->
  run fail (addDoor x y d) w (fun d' => shaped W H L rooms d' /\ P d').
Proof.
  intros Hs HP Hi. pose proof Hi as [Hx Hy]. unfold addDoor. pow2. unwrap.
  run_step. read_tile.
  destruct (_ =? Floor); [|now run_step].
  run_step. read_tile. run_step.
  apply run_mono with (Q := fun _ => True).
  { destruct (_ =? Wall); [|now run_step]. run_step. read_tile. now run_step. }
  intros vertical _ w1. run_step.
  apply run_mono with (Q := fun _ => True).
  { destruct vertical; [now run_step|]. run_step. read_tile.
    destruct (_ =? Wall); [|now run_step]. run_step. read_tile. now run_step. }
  intros pinched _ w2. destruct pinched; [|now run_step].
  run_step. apply run_Intn; [lia|]. intros n _ w3.
  destruct (n <? 10); [|now run_step].
  apply put_kept; [assumption..|right; now left].
Qed.

Lemma addDoors_kept rooms d w :
  shaped W H L rooms d -> P d ->
  run fail (addDoors d) w (fun d' => shaped W H L rooms d' /\ P d').
Proof.
  intros Hs HP. unfold addDoors. pose proof Hs as (_ & HdH & _). rewrite HdH.
  pow2. unwrap.
  apply run_for_each with (I := fun d' => shaped W H L rooms d' /\ P d'); [|auto].
  intros y d1 w1 Hy [Hs1 HP1]. apply elem_of_range in Hy.
  pose proof Hs1 as (HdW1 & _). rewrite HdW1. unwrap.
  apply run_for_each with (I := fun d' => shaped W H L rooms d' /\ P d'); [|auto].
  intros x d2 w2 Hx [Hs2 HP2]. apply elem_of_range in Hx.
  apply addDoor_kept; [assumption..|]. unfold interior. lia.
Qed.

Lemma addTreasure_kept rooms room d w :
  shaped W H L rooms d -> P d -> room_ok W H room ->
  run fail (addTreasure room d) w (fun d' => shaped W H L rooms d' /\ P d').
Proof.
  intros Hs HP Hroom. pose proof Hroom as Hk. unfold addTreasure, room_ok in *. pow2.
  run_step. apply run_Intn; [lia|]. intros n _ w1.
  destruct (n <? 40); [|now run_step].
  run_step. apply run_Intn; [lia|]. intros rx Hrx w2. cbv zeta.
  run_step. apply run_Intn; [lia|]. intros ry Hry w3. unwrap.
  run_step. eapply run_mono.
  { apply put_kept; [eassumption..| |right; right; now left].
    unfold interior. lia. }
  intros d1 [Hs1 HP1] w4.
  run_step. apply run_Intn; [lia|]. intros v _ w5.
  run_step. split; [exact Hs1|]. now apply P_item.
Qed.

Lemma addTreasures_kept rooms d w :
  shaped W H L rooms d -> P d ->
  run fail (addTreasures d) w (fun d' => shaped W H L rooms d' /\ P d').
Proof.
  intros Hs HP. unfold addTreasures. pose proof Hs as (_ & _ & _ & HdR & _ & Hrooms).
  rewrite HdR.
  apply run_for_each with (I := fun d' => shaped W H L rooms d' /\ P d'); [|auto].
  intros room d1 w1 Hin [Hs1 HP1]. apply addTreasure_kept; [assumption..|].
  rewrite Forall_forall in Hrooms. now apply Hrooms.
Qed.

Lemma placeTrap_kept rooms attempts : forall d w,
  shaped W H L rooms d -> P d ->
  run fail (placeTrap attempts d) w (fun d' => shaped W H L rooms d' /\ P d').
Proof.
  induction attempts as [|attempts IH]; intros d w Hs HP; cbn [placeTrap].
  - now run_step.
  - pose proof Hs as (HdW & HdH & _). rewrite HdW, HdH. pow2. unwrap.
    run_step. apply run_Intn; [lia|]. intros rx Hrx w1. cbv zeta.
    run_step. apply run_Intn; [lia|]. intros ry Hry w2. unwrap.
    run_step. read_tile.
    destruct (_ =? Floor); [|now apply IH].
    apply put_kept; [assumption..| |right; right; now right].
    unfold interior. lia.
Qed.

Lemma addTraps_kept rooms d w :
  shaped W H L rooms d -> P d ->
  run fail (addTraps d) w (fun d' => shaped W H L rooms d' /\ P d').
Proof.
  intros Hs HP. unfold addTraps.
  run_step. apply run_Intn; [lia|]. intros n _ w1. cbv zeta.
  apply run_times with (I := fun d' => shaped W H L rooms d' /\ P d'); [|auto].
  intros s w0 [Hs0 HP0]. now apply placeTrap_kept.
Qed.

(** The three furnishing passes of [addFeatures], before the stairs. *)
Lemma furnish_kept rooms d w (Q : Dungeon.t -> Prop) :
  shaped W H L rooms d -> P d ->
  (forall d3, shaped W H L rooms d3 -> P d3 ->
              forall w3, run fail
                (if len (Dungeon.Rooms d3) >? 0 then
                   lastRoom <- must (index (Dungeon.Rooms d3) (len (Dungeon.Rooms d3) - 1)) ;;
                   put (Room.X lastRoom +i Room.Width lastRoom /i 2)
                       (Room.Y lastRoom +i Room.Height lastRoom /i 2) StairsDown d3
                 else ret d3) w3 Q) ->
  run fail (addFeatures d) w Q.
Proof.
  intros Hs HP HQ. unfold addFeatures.
  run_step. eapply run_mono; [apply addDoors_kept; eassumption|]. intros d1 [Hs1 HP1] w1.
  run_step. eapply run_mono; [apply addTreasures_kept; eassumption|]. intros d2 [Hs2 HP2] w2.
  run_step. eapply run_mono; [apply addTraps_kept; eassumption|]. intros d3 [Hs3 HP3] w3.
  now apply HQ.
Qed.
End Furnish.

(** *** Walks *)

Lemma linked_mono d d' a b : extends d d' -> linked d a b -> linked d' a b.
Proof.
  intros He Hl. induction Hl as [a Ha|a b c _ IH Hadj Hc].
  - apply linked_here. now apply He.
  - eapply linked_step; [exact IH | exact Hadj | now apply He].
Qed.

Lemma linked_trans d a b c : linked d a b -> linked d b c -> linked d a c.
Proof.
  intros Hab Hbc. induction Hbc as [b _|b c e _ IH Hadj He]; [exact Hab|].
  eapply linked_step; [apply IH, Hab | exact Hadj | exact He].
Qed.

(** A walkable run of cells along a row links any two of its cells. *)
Lemma linked_row d y lo hi :
  (forall x, lo <= x <= hi -> IsWalkable d x y = Some true) ->
  forall a b, lo <= a <= hi -> lo <= b <= hi -> linked d (a, y) (b, y).
Proof.
  intros Hrow a b Ha.
  assert (forall n : nat, forall b, Z.abs (b - a) = Z.of_nat n -> lo <= b <= hi ->
            linked d (a, y) (b, y)) as Hgen.
  { induction n as [|n IH]; intros b0 Hn Hb.
    - assert (b0 = a) as -> by lia. apply linked_here. now apply Hrow.
    - set (b1 := if b0 <? a then b0 + 1 else b0 - 1).
      assert (Z.abs (b1 - a) = Z.of_nat n /\ lo <= b1 <= hi /\ Z.abs (b1 - b0) = 1)
        as (Hn1 & Hb1 & Hstep).
      { unfold b1. destruct (Z.ltb_spec b0 a); lia. }
      apply linked_step with (b := (b1, y)).
      + now apply IH.
      + unfold adjacent. cbn [fst snd]. lia.
      + cbn [fst snd]. now apply Hrow. }
  intros Hb. apply (Hgen (Z.to_nat (Z.abs (b - a)))); [lia | exact Hb].
Qed.

Lemma linked_column d x lo hi :
  (forall y, lo <= y <= hi -> IsWalkable d x y = Some true) ->
  forall a b, lo <= a <= hi -> lo <= b <= hi -> linked d (x, a) (x, b).
Proof.
  intros Hcol a b Ha.
  assert (forall n : nat, forall b, Z.abs (b - a) = Z.of_nat n -> lo <= b <= hi ->
            linked d (x, a) (x, b)) as Hgen.
  { induction n as [|n IH]; intros b0 Hn Hb.
    - assert (b0 = a) as -> by lia. apply linked_here. now apply Hcol.
    - set (b1 := if b0 <? a then b0 + 1 else b0 - 1).
      assert (Z.abs (b1 - a) = Z.of_nat n /\ lo <= b1 <= hi /\ Z.abs (b1 - b0) = 1)
        as (Hn1 & Hb1 & Hstep).
      { unfold b1. destruct (Z.ltb_spec b0 a); lia. }
      apply linked_step with (b := (x, b1)).
      + now apply IH.
      + unfold adjacent. cbn [fst snd]. lia.
      + cbn [fst snd]. now apply Hcol. }
  intros Hb. apply (Hgen (Z.to_nat (Z.abs (b - a)))); [lia | exact Hb].
Qed.

(** A loop whose iterations only open cells: what each iteration achieves
    still holds when the loop ends. *)
Lemma run_for_each_grow {A} fail (J : Dungeon.t -> Prop) (Q : A -> Dungeon.t -> Prop)
    (l : list A) (body : A -> Dungeon.t -> Go Dungeon.t) :
  (forall a d d', extends d d' -> Q a d -> Q a d') ->
  (forall a d w, a ∈ l -> J d ->
     run fail (body a d) w (fun d' => J d' /\ extends d d' /\ Q a d')) ->
  forall d w, J d ->
    run fail (for_each l body d) w
      (fun d' => J d' /\ extends d d' /\ forall a, a ∈ l -> Q a d').
Proof.
  intros Hmono Hb d w HJ.
  eapply run_mono.
  { apply run_for_each_prefix
      with (I := fun done s => J s /\ extends d s /\ forall a, a ∈ done -> Q a s).
    - intros done a todo s w0 Hl (HJs & Hes & Hdone).
      eapply run_mono; [apply Hb; [|exact HJs]|].
      { rewrite Hl. apply elem_of_app. right. left. }
      intros s' (HJ' & He' & Ha). split; [exact HJ'|]. split.
      + eapply extends_trans; eassumption.
      + intros a0 Hin. apply elem_of_app in Hin as [Hin|Hin].
        * eapply Hmono; [exact He'|]. now apply Hdone.
        * apply list_elem_of_singleton in Hin. now subst a0.
    - split; [exact HJ|]. split; [apply extends_refl|].
      intros a Hin. inversion Hin. }
  intros d' H. exact H.
Qed.

Section Layout.
Variables W H L : Z.
Hypothesis HW : 13 <= W <= 2 ^ 31.
Hypothesis HH : 13 <= H <= 2 ^ 31.
Variable fail : Prop.

Lemma put_opens rooms d x y v w :
  shaped W H L rooms d -> interior W H x y -> walkable_tile v = true ->
  run fail (put x y v d) w
    (fun d' => shaped W H L rooms d' /\ extends d d' /\ IsWalkable d' x y = Some true).
Proof.
  intros Hs [Hx Hy] Hv. pose proof Hs as (HdW & HdH & _).
  eapply run_mono; [apply (put_shaped W H L); [exact Hs|lia|lia]|].
  intros d' [Hs' Hw]. split; [exact Hs'|]. split.
  - eapply extends_write; eassumption.
  - eapply written_walkable; try eassumption; lia.
Qed.

Lemma carveRoom_opens rooms room d w :
  shaped W H L rooms d -> room_ok W H room ->
  run fail (carveRoom room d) w
    (fun d' => shaped W H L rooms d' /\ extends d d' /\ room_open d' room).
Proof.
  intros Hs Hroom. pose proof Hroom as (Hx & Hw & Hxw & Hy & Hh & Hyh).
  unfold carveRoom. pow2. unwrap.
  eapply run_mono.
  { apply run_for_each_grow
      with (J := shaped W H L rooms)
           (Q := fun y d' => forall x, Room.X room <= x < Room.X room + Room.Width room ->
                                       IsWalkable d' x y = Some true);
      [|clear d w Hs|exact Hs].
    - intros y d1 d2 He Hq x Hin. apply He, Hq, Hin.
    - intros y d w Hiny Hs. apply elem_of_range in Hiny.
      eapply run_mono.
      { apply run_for_each_grow
          with (J := shaped W H L rooms)
               (Q := fun x d' => IsWalkable d' x y = Some true);
          [|clear d w Hs|exact Hs].
        - intros x d1 d2 He Hq. apply He, Hq.
        - intros x d w Hinx Hs. apply elem_of_range in Hinx.
          apply put_opens; [exact Hs| |reflexivity].
          eapply room_ok_interior; eauto. }
      intros d' (Hs' & He & Hq). split; [exact Hs'|]. split; [exact He|].
      intros x Hin. apply Hq, elem_of_range. lia. }
  intros d' (Hs' & He & Hq). split; [exact Hs'|]. split; [exact He|].
  intros x y Hinx Hiny. apply Hq; [apply elem_of_range; lia|exact Hinx].
Qed.

Lemma room_open_extends d d' r : extends d d' -> room_open d r -> room_open d' r.
Proof. intros He Hr x y Hx Hy. apply He, Hr; assumption. Qed.

Lemma placeRoom_opens d w :
  (exists rooms, shaped W H L rooms d /\ apart rooms) ->
  Forall (room_open d) (Dungeon.Rooms d) ->
  run fail (placeRoom d) w (fun d' => Forall (room_open d') (Dungeon.Rooms d')).
Proof.
  intros (rooms & Hs & Ha) Ho.
  pose proof Hs as (HdW & HdH & HdL & HdR & Hg & Hrooms).
  unfold placeRoom. change (maxSize -i minSize +i 1) with 7. unfold minSize.
  pow2. rewrite HdW, HdH.
  run_step. apply run_Intn; [lia|]. intros rw Hrw w1.
  run_step. apply run_Intn; [lia|]. intros rh Hrh w2. cbv zeta. unwrap.
  run_step. apply run_Intn; [lia|]. intros rx Hrx w3.
  run_step. apply run_Intn; [lia|]. intros ry Hry w4. unwrap.
  set (room := Room.mk (1 + rx) (1 + ry) (4 + rw) (4 + rh)).
  assert (room_ok W H room) as Hroom by (unfold room_ok, room; cbn; lia).
  destruct (existsb (roomsOverlap room) (Dungeon.Rooms d)); cbn [negb]; [now run_step|].
  run_step. eapply run_mono; [apply carveRoom_opens; eassumption|].
  intros d1 (Hs1 & He1 & Hr1) w5. run_step.
  pose proof Hs1 as (_ & _ & _ & HdR1 & _). cbn. rewrite HdR1, <- HdR.
  apply Forall_app. split.
  - eapply Forall_impl; [exact Ho|]. intros r Hr x y Hx Hy.
    apply (extends_terrain d1); [reflexivity|]. apply He1, Hr; assumption.
  - constructor; [|constructor]. intros x y Hx Hy.
    apply (extends_terrain d1); [reflexivity|]. now apply Hr1.
Qed.

Lemma generateRooms_opens minRooms maxRooms d w :
  - 2 ^ 31 <= minRooms <= maxRooms -> maxRooms <= 2 ^ 31 ->
  shaped W H L [] d ->
  run fail (generateRooms minRooms maxRooms d) w
    (fun d' => Forall (room_open d') (Dungeon.Rooms d')).
Proof.
  intros Hmin Hmax Hs.
  unfold generateRooms. pow2. unwrap.
  run_step. apply run_Intn; [lia|]. intros n Hn w1. cbv zeta.
  run_step. eapply run_mono.
  { apply run_times
      with (I := fun d' => (exists rooms, shaped W H L rooms d' /\ apart rooms)
                           /\ Forall (room_open d') (Dungeon.Rooms d')).
    - intros s w0 [HI Ho]. apply run_conj.
      + now apply (placeRoom_spec W H L).
      + now apply placeRoom_opens.
    - split.
      + exists []. split; [exact Hs|]. intros i j r1 r2 _ Hi. discriminate.
      + destruct Hs as (_ & _ & _ & -> & _). constructor. }
  intros d1 [(rooms & Hs1 & Ha1) Ho1] w2.
  pose proof Hs1 as (HdW & HdH & HdL & HdR & Hg & Hrooms).
  unfold len. rewrite HdR.
  destruct rooms as [|r rooms]; cbn [length].
  - rewrite HdW, HdH. unwrap_div. cbv zeta.
    set (room := Room.mk _ _ _ _).
    assert (room_ok W H room) as Hroom.
    { unfold room_ok, room. cbn -[Z.quot]. Z.to_euclidean_division_equations. lia. }
    change (Z.of_nat 0 =? 0) with true. cbv iota.
    run_step. eapply run_mono; [apply carveRoom_opens; eassumption|].
    intros d2 (Hs2 & He2 & Hr2) w3. run_step.
    pose proof Hs2 as (_ & _ & _ & HdR2 & _). cbn. rewrite HdR2. cbn.
    constructor; [|constructor]. intros x y Hx Hy.
    apply (extends_terrain d2); [reflexivity|]. now apply Hr2.
  - destruct (Z.eqb_spec (Z.of_nat (S (length rooms))) 0); [lia|].
    run_step. exact Ho1.
Qed.

Lemma corridor_cell_opens rooms d x y w :
  shaped W H L rooms d -> interior W H x y ->
  run fail (if in_grid d x y then put x y Floor d else ret d) w
    (fun d' => shaped W H L rooms d' /\ extends d d' /\ IsWalkable d' x y = Some true).
Proof.
  intros Hs Hi. pose proof Hs as (HdW & HdH & _). pose proof Hi as [Hx Hy].
  assert (in_grid d x y = true) as ->.
  { unfold in_grid. rewrite HdW, HdH.
    rewrite !andb_true_iff, !Z.geb_le, !Z.ltb_lt. lia. }
  now apply put_opens.
Qed.

Lemma createHorizontalCorridor_opens rooms d x1 x2 y w :
  shaped W H L rooms d -> interior W H x1 y -> interior W H x2 y ->
  run fail (createHorizontalCorridor x1 x2 y d) w
    (fun d' => shaped W H L rooms d' /\ extends d d' /\ linked d' (x1, y) (x2, y)).
Proof.
  intros Hs [H1 Hy] [H2 _]. unfold createHorizontalCorridor. cbv zeta. pow2.
  destruct (Z.eqb_spec (if x1 >? x2 then x1 else x2) int_max) as [E|_].
  { unfold int_max in E. pow2. destruct (x1 >? x2); lia. }
  eapply run_mono.
  { apply run_for_each_grow
      with (J := shaped W H L rooms) (Q := fun x d' => IsWalkable d' x y = Some true);
      [|clear d w Hs|exact Hs].
    - intros x d1 d2 He Hq. apply He, Hq.
    - intros x d w Hx Hs. apply elem_of_range in Hx.
      apply corridor_cell_opens; [assumption|].
      split; [|exact Hy]. destruct (x1 >? x2); lia. }
  intros d' (Hs' & He & Hq). split; [exact Hs'|]. split; [exact He|].
  apply linked_row with (lo := Z.min x1 x2) (hi := Z.max x1 x2); [|lia|lia].
  intros x Hx. apply Hq, elem_of_range. destruct (Z.gtb_spec x1 x2); lia.
Qed.

Lemma createVerticalCorridor_opens rooms d y1 y2 x w :
  shaped W H L rooms d -> interior W H x y1 -> interior W H x y2 ->
  run fail (createVerticalCorridor y1 y2 x d) w
    (fun d' => shaped W H L rooms d' /\ extends d d' /\ linked d' (x, y1) (x, y2)).
Proof.
  intros Hs [Hx H1] [_ H2]. unfold createVerticalCorridor. cbv zeta. pow2.
  destruct (Z.eqb_spec (if y1 >? y2 then y1 else y2) int_max) as [E|_].
  { unfold int_max in E. pow2. destruct (y1 >? y2); lia. }
  eapply run_mono.
  { apply run_for_each_grow
      with (J := shaped W H L rooms) (Q := fun y d' => IsWalkable d' x y = Some true);
      [|clear d w Hs|exact Hs].
    - intros y d1 d2 He Hq. apply He, Hq.
    - intros y d w Hy Hs. apply elem_of_range in Hy.
      apply corridor_cell_opens; [assumption|].
      split; [exact Hx|]. destruct (y1 >? y2); lia. }
  intros d' (Hs' & He & Hq). split; [exact Hs'|]. split; [exact He|].
  apply linked_column with (lo := Z.min y1 y2) (hi := Z.max y1 y2); [|lia|lia].
  intros y Hy. apply Hq, elem_of_range. destruct (Z.gtb_spec y1 y2); lia.
Qed.

(** [connectRooms] links the centres of consecutive rooms. *)
Lemma connectRooms_links rooms d w :
  shaped W H L rooms d ->
  run fail (connectRooms d) w
    (fun d' => shaped W H L rooms d' /\ extends d d'
               /\ forall i r1 r2, index rooms i = Some r1 -> index rooms (i + 1) = Some r2 ->
                                  linked d' (centre r1) (centre r2)).
Proof.
  intros Hs. pose proof Hs as (_ & _ & _ & HdR & _ & Hrooms).
  unfold connectRooms. rewrite HdR. destruct (Z.leb_spec (len rooms) 1) as [Hle|Hgt].
  { run_step. split; [exact Hs|]. split; [apply extends_refl|].
    intros i r1 r2 E1 E2. exfalso. unfold index in E1, E2.
    destruct (Z.ltb_spec i 0); [discriminate|].
    destruct (Z.ltb_spec (i + 1) 0); [discriminate|].
    apply lookup_lt_Some in E2. unfold len in Hle. lia. }
  eapply run_mono.
  { apply run_for_each_grow
      with (J := shaped W H L rooms)
           (Q := fun i d' => forall r1 r2, index rooms i = Some r1 ->
                                           index rooms (i + 1) = Some r2 ->
                                           linked d' (centre r1) (centre r2));
      [|clear d w Hs HdR|exact Hs].
    - intros i d1 d2 He Hq r1 r2 E1 E2. eapply linked_mono; [exact He|]. now apply Hq.
    - intros i d w Hi Hs. apply elem_of_range in Hi.
      pose proof Hs as (_ & _ & _ & HdR & _). rewrite HdR.
      destruct (index_total rooms i) as (r1 & E1 & Hr1); [lia|].
      destruct (index_total rooms (i + 1)) as (r2 & E2 & Hr2); [lia|].
      rewrite E1, E2. run_step. run_step. run_step. run_step. cbv zeta.
      rewrite Forall_forall in Hrooms.
      destruct (centre_bounds W H HW HH r1 (Hrooms _ Hr1)) as (-> & -> & B1x & B1y).
      destruct (centre_bounds W H HW HH r2 (Hrooms _ Hr2)) as (-> & -> & B2x & B2y).
      pose proof (Hrooms _ Hr1) as K1. pose proof (Hrooms _ Hr2) as K2.
      unfold room_ok in K1, K2.
      set (x1 := Room.X r1 + Room.Width r1 / 2) in *.
      set (y1 := Room.Y r1 + Room.Height r1 / 2) in *.
      set (x2 := Room.X r2 + Room.Width r2 / 2) in *.
      set (y2 := Room.Y r2 + Room.Height r2 / 2) in *.
      assert (forall r1' r2', Some r1 = Some r1' -> Some r2 = Some r2' ->
                centre r1' = (x1, y1) /\ centre r2' = (x2, y2)) as Hc.
      { intros ? ? [= <-] [= <-]. now split. }
      run_step. apply run_Intn; [lia|]. intros c _ w2.
      destruct (c =? 0); run_step.
      + eapply run_mono;
          [apply createHorizontalCorridor_opens with (x1 := x1) (x2 := x2) (y := y1);
           [exact Hs|unfold interior; lia|unfold interior; lia]|].
        intros d2 (Hs2 & He2 & Hl2) w3.
        eapply run_mono;
          [apply createVerticalCorridor_opens with (y1 := y1) (y2 := y2) (x := x2);
           [exact Hs2|unfold interior; lia|unfold interior; lia]|].
        intros d3 (Hs3 & He3 & Hl3). split; [exact Hs3|]. split.
        * eapply extends_trans; eassumption.
        * intros r1' r2' E1' E2'. destruct (Hc r1' r2' E1' E2') as [-> ->].
          eapply linked_trans; [eapply linked_mono; [exact He3|exact Hl2]|exact Hl3].
      + eapply run_mono;
          [apply createVerticalCorridor_opens with (y1 := y1) (y2 := y2) (x := x1);
           [exact Hs|unfold interior; lia|unfold interior; lia]|].
        intros d2 (Hs2 & He2 & Hl2) w3.
        eapply run_mono;
          [apply createHorizontalCorridor_opens with (x1 := x1) (x2 := x2) (y := y2);
           [exact Hs2|unfold interior; lia|unfold interior; lia]|].
        intros d3 (Hs3 & He3 & Hl3). split; [exact Hs3|]. split.
        * eapply extends_trans; eassumption.
        * intros r1' r2' E1' E2'. destruct (Hc r1' r2' E1' E2') as [-> ->].
          eapply linked_trans; [eapply linked_mono; [exact He3|exact Hl2]|exact Hl3]. }
  intros d' (Hs' & He & Hq). split; [exact Hs'|]. split; [exact He|].
  intros i r1 r2 E1 E2. apply (Hq i); [|exact E1|exact E2].
  apply elem_of_range. unfold index in E1, E2.
  destruct (Z.ltb_spec i 0); [discriminate|].
  destruct (Z.ltb_spec (i + 1) 0); [discriminate|].
  apply lookup_lt_Some in E2. unfold len. lia.
Qed.
End Layout.

(** Links between consecutive rooms link every room to the first. *)
Lemma linked_chain d rooms r0 :
  index rooms 0 = Some r0 ->
  IsWalkable d (fst (centre r0)) (snd (centre r0)) = Some true ->
  (forall i r1 r2, index rooms i = Some r1 -> index rooms (i + 1) = Some r2 ->
                   linked d (centre r1) (centre r2)) ->
  forall r, r ∈ rooms -> linked d (centre r0) (centre r).
Proof.
  intros E0 Hw Hstep.
  assert (forall n r, rooms !! n = Some r -> linked d (centre r0) (centre r)) as Hgen.
  { induction n as [|n IH]; intros r Er.
    - change (rooms !! 0%nat = Some r0) in E0. rewrite E0 in Er. injection Er as <-.
      now apply linked_here.
    - destruct (lookup_lt_is_Some_2 rooms n) as [r1 E1].
      { apply lookup_lt_Some in Er. lia. }
      eapply linked_trans; [apply IH, E1|].
      apply (Hstep (Z.of_nat n)); unfold index.
      + destruct (Z.ltb_spec (Z.of_nat n) 0); [lia|]. now rewrite Nat2Z.id.
      + destruct (Z.ltb_spec (Z.of_nat n + 1) 0); [lia|].
        replace (Z.to_nat (Z.of_nat n + 1)) with (S n) by lia. exact Er. }
  intros r Hin. apply list_elem_of_lookup_1 in Hin as [n Hn]. eapply Hgen, Hn.
Qed.

(** *** The whole generator *)

Lemma border_walls_write d x y v d' :
  interior (Dungeon.Width d) (Dungeon.Height d) x y ->
  write d x y v = Some d' -> border_walls d -> border_walls d'.
Proof.
  intros [Hx Hy] Hw Hb x0 y0 Hx0 Hy0 Hedge.
  pose proof (write_terrain _ _ _ _ _ Hw) as (EW & EH & _).
  rewrite EW, EH in *.
  unfold write in Hw. destruct (set_cell _ _ _ _) as [g|] eqn:Eg; [|discriminate].
  injection Hw as <-. cbn.
  rewrite (cell_set_cell _ _ _ _ _ x0 y0 Eg).
  destruct (Z.eqb_spec x0 x); destruct (Z.eqb_spec y0 y); cbn [andb];
    try (apply Hb; assumption).
  lia.
Qed.

Lemma border_walls_terrain d d' : terrain d' = terrain d -> border_walls d -> border_walls d'.
Proof. unfold terrain, border_walls. now intros [= -> -> ->]. Qed.

Lemma no_stairs_write d x y v d' :
  furnishing v -> write d x y v = Some d' -> no_stairs d -> no_stairs d'.
Proof.
  intros Hv Hw Hn x0 y0.
  unfold write in Hw. destruct (set_cell _ _ _ _) as [g|] eqn:Eg; [|discriminate].
  injection Hw as <-. cbn.
  rewrite (cell_set_cell _ _ _ _ _ x0 y0 Eg).
  destruct ((x0 =? x) && (y0 =? y)); [|apply Hn].
  destruct Hv as [-> | [-> | [-> | ->]]]; discriminate.
Qed.

Lemma no_stairs_terrain d d' : terrain d' = terrain d -> no_stairs d -> no_stairs d'.
Proof. unfold terrain, no_stairs. now intros [= _ _ ->]. Qed.

Lemma cell_makeGrid w h grid x y t :
  makeGrid w h = Some grid -> cell grid x y = Some t -> t = Wall.
Proof.
  unfold makeGrid. destruct (h <? 0); [discriminate|].
  destruct ((0 <? h) && (w <? 0)); [discriminate|]. intros [= <-].
  unfold cell, index. destruct (y <? 0); [discriminate|].
  destruct (replicate _ _ !! _) as [row|] eqn:Er; [|discriminate].
  apply lookup_replicate in Er as [-> _].
  destruct (x <? 0); [discriminate|]. intros Ec.
  now apply lookup_replicate in Ec as [-> _].
Qed.

Section Garrison.
Variables W H L : Z.
Hypothesis HW : 13 <= W <= 2 ^ 31.
Hypothesis HH : 13 <= H <= 2 ^ 31.
Variable fail : Prop.

Lemma spawnLoop_garrison rooms n : forall d w,
  shaped W H L rooms d -> Forall (garrisoned rooms) (Dungeon.Enemies d) ->
  run fail (spawnLoop n d) w
    (fun d' => (terrain d' = terrain d /\ Dungeon.Items d' = Dungeon.Items d)
               /\ Forall (garrisoned rooms) (Dungeon.Enemies d')
               /\ length (Dungeon.Enemies d')
                  = if len rooms <=? 1 then length (Dungeon.Enemies d)
                    else (length (Dungeon.Enemies d) + n)%nat).
Proof.
  induction n as [|n IH]; intros d w Hs Hg; cbn [spawnLoop].
  - run_step. split; [split; reflexivity|]. split; [exact Hg|].
    destruct (len rooms <=? 1); lia.
  - pose proof Hs as (_ & _ & _ & HdR & _ & Hrooms). rewrite HdR.
    destruct (Z.leb_spec (len rooms) 1) as [Hle|Hgt]; [run_step; auto|].
    run_step. apply run_Intn; [lia|]. intros ri Hri w1. cbv zeta.
    destruct (index_total rooms (1 + ri)) as (r & Er & Hr); [lia|]. rewrite Er.
    run_step. run_step.
    rewrite Forall_forall in Hrooms. pose proof (Hrooms _ Hr) as Hk.
    unfold room_ok in Hk. pow2.
    run_step. apply run_Intn; [lia|]. intros rx Hrx w2.
    run_step. apply run_Intn; [lia|]. intros ry Hry w3. unwrap.
    run_step. apply run_Intn; [unfold len; cbn; lia|]. intros k Hk5 w4.
    destruct (index_total enemyTypes k) as (t & -> & Ht); [exact Hk5|].
    run_step. run_step.
    eapply run_mono.
    { apply IH; [now apply (shaped_set_Enemies W H L)|]. cbn.
      apply Forall_app. split; [exact Hg|]. constructor; [|constructor]. split.
      - exists t, (Room.X r + rx), (Room.Y r + ry). now split.
      - exists (Z.to_nat (1 + ri)), r. split; [lia|]. split.
        + unfold index in Er. destruct (1 + ri <? 0); [discriminate|exact Er].
        + unfold inside. cbn. lia. }
    cbn. intros d' (Ht' & Hg' & Hn'). split; [exact Ht'|]. split; [exact Hg'|].
    rewrite Hn'. destruct (Z.leb_spec (len rooms) 1); [lia|].
    rewrite length_app. cbn. lia.
Qed.

Lemma spawnEnemies_garrison rooms d w :
  shaped W H L rooms d -> Dungeon.Enemies d = [] ->
  run fail (spawnEnemies 3 6 d) w
    (fun d' => (terrain d' = terrain d /\ Dungeon.Items d' = Dungeon.Items d)
               /\ Forall (garrisoned rooms) (Dungeon.Enemies d')
               /\ if len rooms <=? 1 then Dungeon.Enemies d' = []
                  else 3 <= len (Dungeon.Enemies d') <= 6).
Proof.
  intros Hs He. unfold spawnEnemies. change (6 -i 3 +i 1) with 4.
  run_step. apply run_Intn; [lia|]. intros n Hn w1. cbv zeta.
  pow2. unwrap.
  eapply run_mono; [apply spawnLoop_garrison; [exact Hs|rewrite He; constructor]|].
  cbn. intros d' (Ht & Hg & Hlen). split; [exact Ht|]. split; [exact Hg|].
  rewrite He in Hlen. cbn in Hlen. destruct (len rooms <=? 1).
  - now apply length_zero_iff_nil.
  - unfold len. lia.
Qed.
End Garrison.

Lemma NewDungeon_layout fail w h world :
  13 <= w <= 2 ^ 31 -> 13 <= h <= 2 ^ 31 ->
  run fail (NewDungeon w h) world
    (fun d => Dungeon.Width d = w /\ Dungeon.Height d = h /\ laid_out d).
Proof.
  intros Hw Hh. unfold NewDungeon.
  destruct (makeGrid_shaped w h) as (grid & Eg & Hs); [lia|lia|]. rewrite Eg.
  run_step. run_step. cbv zeta.
  set (P0 := fun d : Dungeon.t =>
          border_walls d /\ no_stairs d /\ Dungeon.Enemies d = []
          /\ Forall (fun it => Item.Type_ it = ItemTreasure) (Dungeon.Items d)).
  assert (forall d x y v d', Dungeon.Width d = w -> Dungeon.Height d = h ->
            interior w h x y -> furnishing v -> write d x y v = Some d' -> P0 d -> P0 d')
    as P0_write.
  { intros d x y v d' EW EH Hi Hv Hwr (Hb & Hn & He & Hit). split; [|split; [|split]].
    - eapply border_walls_write; [|exact Hwr|exact Hb]. now rewrite EW, EH.
    - eapply no_stairs_write; eassumption.
    - apply write_terrain in Hwr as (_ & _ & _ & -> & _). exact He.
    - apply write_terrain in Hwr as (_ & _ & _ & _ & -> & _). exact Hit. }
  assert (forall d d', terrain d' = terrain d -> Dungeon.Enemies d' = Dungeon.Enemies d ->
            Dungeon.Items d' = Dungeon.Items d -> P0 d -> P0 d') as P0_frame.
  { intros d d' Ht Ee Ei (Hb & Hn & He & Hit). split; [|split; [|split]].
    - eapply border_walls_terrain; eassumption.
    - eapply no_stairs_terrain; eassumption.
    - now rewrite Ee.
    - now rewrite Ei. }
  assert (forall d it, Item.Type_ it = ItemTreasure -> P0 d ->
            P0 (Dungeon.set_Items (Dungeon.Items d ++ [it]) d)) as P0_item.
  { intros d it Hty (Hb & Hn & He & Hit). split; [|split; [|split]].
    - exact Hb.
    - exact Hn.
    - exact He.
    - cbn. apply Forall_app. split; [exact Hit|]. now constructor. }
  run_step. eapply run_mono.
  { apply run_conj.
    - apply (generateRooms_kept w h 1 Hw Hh fail P0 P0_write P0_frame);
        [pow2; lia | pow2; lia | exact Hs |].
      split; [|split; [|split]]; [| |reflexivity|constructor].
      + intros x y Hx Hy _. cbn in Hx, Hy |- *.
        destruct (cell_in_grid _ x y (proj1 (proj2 (proj2 (proj2 (proj2 Hs))))))
          as [t Ht]; [cbn; lia..|]; cbn in Ht.
        rewrite Ht. f_equal. eapply cell_makeGrid; eassumption.
      + intros x y Ec. cbn in Ec. apply (cell_makeGrid _ _ _ _ _ _ Eg) in Ec. discriminate.
    - apply (generateRooms_opens w h 1 Hw Hh fail); [pow2; lia | pow2; lia | exact Hs]. }
  cbn beta. intros d1 [[(rooms & Hs1 & Hne & Ha) HP1] Ho1] w1.
  run_step. eapply run_mono.
  { apply run_conj.
    - apply (connectRooms_links w h 1 Hw Hh fail rooms), Hs1.
    - apply (connectRooms_kept w h 1 Hw Hh fail P0 P0_write rooms); assumption. }
  cbn beta. intros d2 [(Hs2 & He2 & Hl2) [_ HP2]] w2.
  run_step.
  set (P1 := fun d : Dungeon.t => extends d2 d /\ P0 d).
  apply (furnish_kept w h 1 Hw Hh fail P1) with (rooms := rooms); [| |exact Hs2| |].
  { intros d x y v d' EW EH Hi Hv Hwr [He HP]. split.
    - eapply extends_trans; [exact He|].
      eapply extends_write; [|exact Hwr]. now apply furnishing_walkable.
    - eapply P0_write; eassumption. }
  { intros d it Hty [He HP]. split.
    - eapply extends_trans; [exact He|]. now apply extends_terrain.
    - now apply P0_item. }
  { split; [apply extends_refl|exact HP2]. }
  intros d3 Hs3 [He3 (Hb3 & Hn3 & Hen3 & Hit3)] w3.
  pose proof Hs3 as (HdW & HdH & _ & HdR & _ & Hrooms). rewrite HdR.
  assert (0 < len rooms) as Hlen by (unfold len; destruct rooms; [congruence|cbn; lia]).
  destruct (Z.gtb_spec (len rooms) 0); [|lia].
  destruct (index_total rooms (len rooms - 1)) as (rl & El & Hrl); [lia|]. rewrite El.
  run_step. run_step.
  rewrite Forall_forall in Hrooms. pose proof (Hrooms _ Hrl) as Hk.
  destruct (centre_bounds w h Hw Hh rl Hk) as (-> & -> & Hcx & Hcy). unfold room_ok in Hk.
  eapply run_mono; [apply (put_shaped w h 1); [exact Hs3|lia|lia]|].
  cbn beta. intros d4 [Hs4 Hwr] w4.
  assert (Dungeon.Enemies d4 = []) as Hen4.
  { apply write_terrain in Hwr as (_ & _ & _ & -> & _). exact Hen3. }
  eapply run_mono.
  { apply run_conj.
    - apply (spawnEnemies_shaped w h 1 fail rooms);
        [pow2; lia | pow2; lia | exact Hs4].
    - apply (spawnEnemies_garrison w h 1 Hw Hh fail rooms); assumption. }
  cbn beta. intros d5 [Hs5 ([Ht5 Hi5] & Hg5 & Hc5)].
  pose proof Hs5 as (HdW5 & HdH5 & _ & HdR5 & _).
  split; [exact HdW5|]. split; [exact HdH5|].
  assert (extends d2 d5) as He5.
  { eapply extends_trans; [exact He3|]. eapply extends_trans.
    - eapply extends_write; [|exact Hwr]. reflexivity.
    - now apply extends_terrain. }
  constructor.
  - exists rooms. rewrite HdW5, HdH5. auto.
  - rewrite HdR5. eapply Forall_impl; [|intros r Hr; eapply room_open_extends, Hr].
    + destruct Hs1 as (_ & _ & _ & <- & _). exact Ho1.
    + eapply extends_trans; eassumption.
  - rewrite HdR5. intros i r1 r2 E1 E2. eapply linked_mono; [exact He5|]. eauto.
  - apply (border_walls_terrain d4); [exact Ht5|].
    eapply border_walls_write; [|exact Hwr|exact Hb3].
    rewrite HdW, HdH. unfold interior. lia.
  - rewrite HdR5. intros rl' El' x y. rewrite El in El'. injection El' as <-.
    injection Ht5 as _ _ ->.
    unfold write in Hwr. destruct (set_cell _ _ _ _) as [g|] eqn:Eg'; [|discriminate].
    injection Hwr as <-. cbn.
    rewrite (cell_set_cell _ _ _ _ _ x y Eg'). unfold centre.
    destruct (Z.eqb_spec x (Room.X rl + Room.Width rl / 2));
      destruct (Z.eqb_spec y (Room.Y rl + Room.Height rl / 2)); cbn [andb].
    + subst. tauto.
    + split; [intros Hc; now apply Hn3 in Hc|intros [= _ ?]; contradiction].
    + split; [intros Hc; now apply Hn3 in Hc|intros [= ? _]; contradiction].
    + split; [intros Hc; now apply Hn3 in Hc|intros [= ? _]; contradiction].
  - now rewrite HdR5.
  - now rewrite HdR5.
  - replace (Dungeon.Items d5) with (Dungeon.Items d3); [exact Hit3|].
    apply write_terrain in Hwr as (_ & _ & _ & _ & <- & _). symmetry. exact Hi5.
Qed.

Lemma inside_padded r x y : inside r x y -> padded r x y.
Proof. unfold inside, padded. lia. Qed.

Lemma laid_out_centre d r :
  laid_out d -> r ∈ Dungeon.Rooms d ->
  13 <= Dungeon.Width d <= 2 ^ 31 -> 13 <= Dungeon.Height d <= 2 ^ 31 ->
  inside r (fst (centre r)) (snd (centre r))
  /\ Room.X r +i Room.Width r /i 2 = fst (centre r)
  /\ Room.Y r +i Room.Height r /i 2 = snd (centre r)
  /\ out_of_bounds d (fst (centre r)) (snd (centre r)) = false.
Proof.
  intros Hl Hr HW HH. destruct (laid_shaped d Hl) as (rooms & Hs & _).
  destruct Hs as (_ & _ & _ & HdR & _ & Hrooms). rewrite <- HdR in Hrooms.
  rewrite Forall_forall in Hrooms. pose proof (Hrooms _ Hr) as Hk.
  destruct (centre_bounds _ _ HW HH r Hk) as (Ex & Ey & Hx & Hy).
  unfold room_ok in Hk. unfold inside, centre, out_of_bounds. cbn [fst snd].
  split; [lia|]. split; [exact Ex|]. split; [exact Ey|].
  rewrite !orb_false_iff, !Z.ltb_ge, Z.geb_leb, Z.geb_leb, !Z.leb_gt. lia.
Qed.



(** X4. The level can be finished: in the dungeon that [NewDungeon] returns,
    a walk over walkable cells, one step along an axis at a time, leads from
    the cell where [main] puts the player (the centre of the first room) to
    the centre of every room and to a cell holding the stairs. *)
Theorem NewDungeon_stairs_reachable w h world :
  13 <= w <= 2 ^ 31 -> 13 <= h <= 2 ^ 31 ->
  exists d world' start stairs,
    NewDungeon w h world = Done d world'
    /\ firstRoomCentre d world' = Done start world'
    /\ GetTileAt d (fst stairs) (snd stairs) = Some StairsDown
    /\ linked d start stairs
    /\ forall r, r ∈ Dungeon.Rooms d -> linked d start (centre r).
Proof.
  intros Hw Hh.
  destruct (total_Done _ _ _ (NewDungeon_layout False w h world Hw Hh))
    as (d & world' & E & EW & EH & Hl).
  rewrite <- EW in Hw. rewrite <- EH in Hh.
  destruct (laid_shaped d Hl) as (rooms & (_ & _ & _ & HdR & _) & Hne & _).
  assert (0 < len (Dungeon.Rooms d)) as Hlen.
  { rewrite HdR. unfold len. destruct rooms; [congruence|cbn; lia]. }
  destruct (index_total (Dungeon.Rooms d) 0) as (r0 & E0 & Hr0); [lia|].
  destruct (index_total (Dungeon.Rooms d) (len (Dungeon.Rooms d) - 1))
    as (rl & El & Hrl); [lia|].
  destruct (laid_out_centre d r0 Hl Hr0 Hw Hh) as (Hin0 & Ex0 & Ey0 & _).
  destruct (laid_out_centre d rl Hl Hrl Hw Hh) as (_ & _ & _ & Hbl).
  assert (forall r, r ∈ Dungeon.Rooms d -> linked d (centre r0) (centre r)) as Hall.
  { apply linked_chain; [exact E0| |apply (laid_linked d Hl)].
    pose proof (laid_open d Hl) as Ho. rewrite Forall_forall in Ho.
    destruct Hin0. now apply (Ho r0 Hr0). }
  exists d, world', (centre r0), (centre rl). split; [exact E|]. split; [|split; [|split]].
  - unfold firstRoomCentre. destruct (Z.gtb_spec (len (Dungeon.Rooms d)) 0); [|lia].
    unfold bind. rewrite E0. cbn. unfold ret. now rewrite Ex0, Ey0.
  - unfold GetTileAt. rewrite Hbl. now apply (laid_stairs d Hl rl El).
  - now apply Hall.
  - exact Hall.
Qed.

Lemma NewDungeon_stairs_reachable_witness :
  exists d world' start stairs,
    NewDungeon 80 24 sample_world = Done d world'
    /\ firstRoomCentre d world' = Done start world'
    /\ GetTileAt d (fst stairs) (snd stairs) = Some StairsDown
    /\ linked d start stairs.
Proof.
  destruct (NewDungeon_stairs_reachable 80 24 sample_world)
    as (d & world' & start & stairs & E & Es & Et & Hl & _); [pow2; lia | pow2; lia|].
  exists d, world', start, stairs. auto.
Defined.

(** X5. The dungeon that [NewDungeon] returns has exactly one stairs tile,
    at the centre of its last room. *)
Theorem NewDungeon_one_staircase w h world :
  13 <= w <= 2 ^ 31 -> 13 <= h <= 2 ^ 31 ->
  exists d world' rl,
    NewDungeon w h world = Done d world'
    /\ last (Dungeon.Rooms d) = Some rl
    /\ forall x y, GetTileAt d x y = Some StairsDown <-> (x, y) = centre rl.
Proof.
  intros Hw Hh.
  destruct (total_Done _ _ _ (NewDungeon_layout False w h world Hw Hh))
    as (d & world' & E & EW & EH & Hl).
  rewrite <- EW in Hw. rewrite <- EH in Hh.
  destruct (laid_shaped d Hl) as (rooms & (_ & _ & _ & HdR & _) & Hne & _).
  assert (0 < len (Dungeon.Rooms d)) as Hlen.
  { rewrite HdR. unfold len. destruct rooms; [congruence|cbn; lia]. }
  destruct (index_total (Dungeon.Rooms d) (len (Dungeon.Rooms d) - 1))
    as (rl & El & Hrl); [lia|].
  destruct (laid_out_centre d rl Hl Hrl Hw Hh) as (_ & _ & _ & Hbl).
  exists d, world', rl. split; [exact E|]. split.
  - rewrite last_lookup. unfold index in El.
    destruct (_ <? 0); [discriminate|]. rewrite <- El. f_equal. unfold len. lia.
  - intros x y. rewrite <- (laid_stairs d Hl rl El x y). unfold GetTileAt.
    destruct (out_of_bounds d x y) eqn:Eb; [|tauto].
    split; [discriminate|]. intros Hc. exfalso.
    apply (laid_stairs d Hl rl El) in Hc. rewrite <- Hc in Hbl. cbn in Hbl. congruence.
Qed.

Lemma NewDungeon_one_staircase_witness :
  exists d world' rl,
    NewDungeon 80 24 sample_world = Done d world'
    /\ last (Dungeon.Rooms d) = Some rl
    /\ forall x y, GetTileAt d x y = Some StairsDown <-> (x, y) = centre rl.
Proof. apply (NewDungeon_one_staircase 80 24 sample_world); pow2; lia. Defined.

(** X6. The dungeon that [NewDungeon] returns keeps its outer ring of walls:
    no cell of the first or last row or column is walkable. *)
Theorem NewDungeon_border_walls w h world :
  13 <= w <= 2 ^ 31 -> 13 <= h <= 2 ^ 31 ->
  exists d world',
    NewDungeon w h world = Done d world'
    /\ forall x y, 0 <= x < w -> 0 <= y < h ->
                   x = 0 \/ x = w - 1 \/ y = 0 \/ y = h - 1 ->
                   GetTileAt d x y = Some Wall /\ IsWalkable d x y = Some false.
Proof.
  intros Hw Hh.
  destruct (total_Done _ _ _ (NewDungeon_layout False w h world Hw Hh))
    as (d & world' & E & EW & EH & Hl).
  exists d, world'. split; [exact E|]. intros x y Hx Hy Hedge.
  pose proof (laid_border d Hl x y) as Hb. rewrite EW, EH in Hb.
  specialize (Hb Hx Hy Hedge).
  assert (out_of_bounds d x y = false) as Hin.
  { unfold out_of_bounds. rewrite EW, EH.
    rewrite !orb_false_iff, !Z.ltb_ge, Z.geb_leb, Z.geb_leb, !Z.leb_gt. lia. }
  unfold GetTileAt, IsWalkable. rewrite Hin, Hb. split; reflexivity.
Qed.

Lemma NewDungeon_border_walls_witness :
  exists d world',
    NewDungeon 80 24 sample_world = Done d world'
    /\ GetTileAt d 79 5 = Some Wall /\ IsWalkable d 79 5 = Some false.
Proof.
  destruct (NewDungeon_border_walls 80 24 sample_world)
    as (d & world' & E & Hb); [pow2; lia | pow2; lia|].
  exists d, world'. split; [exact E|]. apply Hb; lia.
Defined.

Lemma enemyTypes_alive t : t ∈ enemyTypes -> 0 < EnemyType.health t.
Proof.
  unfold enemyTypes. intros Hin.
  repeat (apply elem_of_cons in Hin as [->|Hin]); cbn; try lia.
  inversion Hin.
Qed.

(** X7. The enemies of the dungeon that [NewDungeon] returns: none when
    there is a single room, 3 to 6 otherwise; each one is made from the table
    of [spawnEnemies], alive and hostile, and stands on a walkable cell of a
    room, never in the first room, where the player starts. *)
Theorem NewDungeon_enemies w h world :
  13 <= w <= 2 ^ 31 -> 13 <= h <= 2 ^ 31 ->
  exists d world',
    NewDungeon w h world = Done d world'
    /\ (if len (Dungeon.Rooms d) <=? 1 then Dungeon.Enemies d = []
        else 3 <= len (Dungeon.Enemies d) <= 6)
    /\ forall e, e ∈ Dungeon.Enemies d ->
         spawned_from enemyTypes e
         /\ 0 < Enemy.Health e /\ Enemy.Hostile e = true
         /\ IsWalkable d (Enemy.X e) (Enemy.Y e) = Some true
         /\ (exists r, r ∈ Dungeon.Rooms d /\ inside r (Enemy.X e) (Enemy.Y e))
         /\ forall r0, head (Dungeon.Rooms d) = Some r0 ->
                       ~ inside r0 (Enemy.X e) (Enemy.Y e).
Proof.
  intros Hw Hh.
  destruct (total_Done _ _ _ (NewDungeon_layout False w h world Hw Hh))
    as (d & world' & E & EW & EH & Hl).
  exists d, world'. split; [exact E|]. split; [apply (laid_count d Hl)|].
  intros e He. pose proof (laid_enemies d Hl) as Hg. rewrite Forall_forall in Hg.
  destruct (Hg e He) as [Hsp (i & room & Hi & Er & Hin)].
  split; [exact Hsp|].
  destruct Hsp as (t & x & y & Ht & ->). cbn in Hin |- *.
  split; [now apply enemyTypes_alive|]. split; [reflexivity|].
  assert (room ∈ Dungeon.Rooms d) as Hroom by (eapply list_elem_of_lookup_2, Er).
  split; [|split].
  - pose proof (laid_open d Hl) as Ho. rewrite Forall_forall in Ho.
    destruct Hin. now apply (Ho room Hroom).
  - exists room. now split.
  - intros r0 E0 Hin0. rewrite head_lookup in E0.
    destruct (laid_shaped d Hl) as (rooms & (_ & _ & _ & HdR & _) & _ & Ha).
    rewrite HdR in Er, E0.
    apply (Ha i 0%nat room r0); [lia|exact Er|exact E0|].
    exists x, y. split; now apply inside_padded.
Qed.

Lemma NewDungeon_enemies_witness :
  exists d world',
    NewDungeon 80 24 sample_world = Done d world'
    /\ (if len (Dungeon.Rooms d) <=? 1 then Dungeon.Enemies d = []
        else 3 <= len (Dungeon.Enemies d) <= 6).
Proof.
  destruct (NewDungeon_enemies 80 24 sample_world)
    as (d & world' & E & Hc & _); [pow2; lia | pow2; lia|].
  exists d, world'. auto.
Defined.

(** ** The states of a game *)

(** *** The state in play *)

Lemma arena_terrain d d' px py :
  terrain d' = terrain d -> Dungeon.Enemies d' = Dungeon.Enemies d ->
  Dungeon.Items d' = Dungeon.Items d -> arena d px py -> arena d' px py.
Proof.
  intros Ht Ee Ei (Hg & Hp & He & Hi). split; [|split; [|split]].
  - eapply grid_ok_terrain; eassumption.
  - now rewrite (IsWalkable_terrain _ _ _ _ Ht).
  - rewrite Ee. eapply Forall_impl; [exact He|].
    intros e (? & ? & Hw & ?). unfold enemy_ok.
    rewrite (IsWalkable_terrain _ _ _ _ Ht). auto.
  - now rewrite Ei.
Qed.

Lemma enemy_ok_extends d d' px py e :
  extends d d' -> enemy_ok d px py e -> enemy_ok d' px py e.
Proof. intros He (? & ? & Hw & ?). unfold enemy_ok. auto. Qed.

Lemma arena_write d x y v d' px py :
  walkable_tile v = true -> write d x y v = Some d' ->
  arena d px py -> arena d' px py.
Proof.
  intros Hv Hw (Hg & Hp & He & Hi).
  pose proof (extends_write _ _ _ _ _ Hv Hw) as Hext.
  pose proof (write_terrain _ _ _ _ _ Hw) as (_ & _ & _ & Ee & Ei & _).
  split; [|split; [|split]].
  - eapply write_grid_ok; eassumption.
  - now apply Hext.
  - rewrite Ee. eapply Forall_impl; [exact He|].
    intros e. now apply enemy_ok_extends.
  - now rewrite Ei.
Qed.

(** A walkable cell can be read and written. *)
Lemma walkable_cell d x y :
  grid_ok d -> IsWalkable d x y = Some true ->
  exists t, GetTileAt d x y = Some t /\ walkable_tile t = true
            /\ forall v, exists d', write d x y v = Some d'.
Proof.
  intros Hg Hw. pose proof Hw as Hc.
  apply IsWalkable_true in Hc as (Hx & Hy & t & Ht & Hwt).
  exists t. split; [|split; [exact Hwt|]].
  - unfold IsWalkable in Hw. unfold GetTileAt.
    destruct (out_of_bounds d x y); [discriminate|exact Ht].
  - intros v. destruct (set_cell_total _ _ _ v _ Ht) as [g Eg].
    exists (Dungeon.set_Grid g d). unfold write. now rewrite Eg.
Qed.

Lemma IsWalkable_total d x y :
  grid_ok d -> exists b, IsWalkable d x y = Some b.
Proof.
  intros Hg. unfold IsWalkable. destruct (out_of_bounds d x y) eqn:E; [eauto|].
  unfold out_of_bounds in E.
  rewrite !orb_false_iff, !Z.ltb_ge, Z.geb_leb, Z.geb_leb, !Z.leb_gt in E.
  destruct (cell_in_grid d x y Hg) as [t ->]; [lia|lia|]. eauto.
Qed.

Lemma GetEnemyAt_Some d x y i :
  GetEnemyAt d x y = Some i ->
  exists e, Dungeon.Enemies d !! i = Some e
            /\ Enemy.X e = x /\ Enemy.Y e = y /\ 0 < Enemy.Health e.
Proof.
  unfold GetEnemyAt. intros E. apply find_from_Some in E as (e & _ & He & Hf).
  rewrite Nat.sub_0_r in He. exists e. split; [exact He|].
  rewrite !andb_true_iff, !Z.eqb_eq in Hf. destruct Hf as [[-> ->] Hh].
  split; [reflexivity|]. split; [reflexivity|]. lia.
Qed.

Lemma find_from_None {A} (f : A -> bool) l : forall k,
  find_from f l k = None -> Forall (fun a => f a = false) l.
Proof.
  induction l as [|a l IH]; intros k; cbn [find_from]; [constructor|].
  destruct (f a) eqn:Ef; [discriminate|]. intros E. constructor; [exact Ef|eauto].
Qed.

(** No living enemy where [GetEnemyAt] finds none. *)
Lemma GetEnemyAt_None d x y e :
  GetEnemyAt d x y = None -> e ∈ Dungeon.Enemies d -> 0 < Enemy.Health e ->
  ~ (Enemy.X e = x /\ Enemy.Y e = y).
Proof.
  unfold GetEnemyAt. intros E Hin Hh [Hx Hy].
  apply find_from_None in E. rewrite Forall_forall in E. specialize (E e Hin).
  cbn in E. rewrite Hx, Hy, !Z.eqb_refl in E. cbn in E.
  destruct (Z.gtb_spec (Enemy.Health e) 0); [discriminate|lia].
Qed.

Lemma GetItemAt_Some d x y i :
  GetItemAt d x y = Some i -> is_Some (Dungeon.Items d !! i).
Proof.
  unfold GetItemAt. intros E. apply find_from_Some in E as (it & _ & Hit & _).
  rewrite Nat.sub_0_r in Hit. eauto.
Qed.

(** *** Levelling up in play *)

Section Play.
Variable fail : Prop.

(** With the experience of one kill, [CheckLevelUp] gains at most one
    level. *)
Lemma CheckLevelUp_once fuel p w :
  ((fuel = 0)%nat -> fail) ->
  1 <= Player.Level p < 2 ^ 48 ->
  0 <= Player.Exp p < 100 * Player.Level p + 100 ->
  Player.MaxHealth p = 15 + 5 * Player.Level p ->
  Player.Attack p = 2 + Player.Level p ->
  run fail (CheckLevelUp fuel p) w
    (fun p' => (Player.Exp p < 100 * Player.Level p /\ p' = p)
               \/ (100 * Player.Level p <= Player.Exp p /\ p' = levelUp p)).
Proof.
  intros Hfuel HL HE HM HA. pow2.
  destruct (Z.lt_ge_cases (Player.Exp p) (100 * Player.Level p)) as [Hlt|Hge].
  - unfold run. rewrite CheckLevelUp_below; [now left|]. unwrap. lia.
  - destruct fuel as [|fuel].
    { unfold run. cbn [CheckLevelUp].
      assert ((Player.Exp p >=? 100 *i Player.Level p) = true) as ->
          by (unwrap; lia).
      now apply Hfuel. }
    cbn [CheckLevelUp].
    assert ((Player.Exp p >=? 100 *i Player.Level p) = true) as ->
        by (unwrap; lia).
    cbv zeta. run_step. run_step. run_step. run_step.
    unfold run. rewrite CheckLevelUp_below.
    + right. split; [exact Hge|]. unfold levelUp, threshold. rewrite HM, HA. unwrap.
      reflexivity.
    + cbn. unwrap. lia.
Qed.

Lemma fit_levelUp p :
  1 <= Player.Level p -> 100 * Player.Level p <= Player.Exp p < 100 * Player.Level p + 100 ->
  Player.MaxHealth p = 15 + 5 * Player.Level p ->
  Player.Attack p = 2 + Player.Level p ->
  Player.Defense p = 1 -> Player.Inventory p = [] ->
  fit (levelUp p).
Proof.
  intros HL HE HM HA HD HI. unfold fit, levelUp, threshold. cbn.
  repeat split; try lia; assumption.
Qed.

(** What a command may do to the player's level. *)
Lemma AttackEnemy_sound fuel i p d w e :
  ((fuel = 0)%nat -> fail) ->
  sound p d -> 0 < Player.Health p -> Player.Level p < 2 ^ 48 ->
  Dungeon.Enemies d !! i = Some e ->
  run fail (AttackEnemy fuel i p d) w
    (fun r => arena (snd r) (Player.X p) (Player.Y p) /\ fit (fst r)
              /\ Player.X (fst r) = Player.X p /\ Player.Y (fst r) = Player.Y p
              /\ Player.Level p <= Player.Level (fst r) <= Player.Level p + 1).
Proof.
  intros Hfuel [(Hg & Hp & He & Hi) Hfit] Hh HL Ei.
  pose proof Hfit as (HL1 & HE & HM & HA & HD & HHM & HInv).
  pose proof He as Hall. rewrite Forall_forall in Hall.
  pose proof (Hall e (list_elem_of_lookup_2 _ _ _ Ei)) as (Heh & Hed & Hew & Hne).
  pose proof (lookup_lt_Some _ _ _ Ei) as Hlt.
  unfold AttackEnemy. rewrite Ei. run_step. run_step. cbv zeta. pow2.
  run_step. run_step. cbn [Enemy.Health Enemy.set_Health Enemy.Damage Enemy.Name].
  rewrite HA, HD. unwrap.
  destruct (Z.leb_spec (Enemy.Health e - (2 + Player.Level p)) 0) as [Hdead|Halive].
  - run_step. run_step. run_step. run_step.
    run_step. eapply run_mono.
    { apply CheckLevelUp_once with (fuel := fuel); [exact Hfuel|cbn; lia..]. }
    cbn beta. intros p2 Hp2 w2.
    assert (fit p2 /\ Player.X p2 = Player.X p /\ Player.Y p2 = Player.Y p
            /\ Player.Level p <= Player.Level p2 <= Player.Level p + 1) as (Hf2 & Hx2 & Hy2 & Hl2).
    { destruct Hp2 as [[Hlt2 ->]|[Hge2 ->]]; cbn in *.
      - split; [|split; [reflexivity|split; [reflexivity|lia]]].
        unfold fit; cbn. repeat split; try lia; assumption.
      - split; [|split; [reflexivity|split; [reflexivity|lia]]].
        apply fit_levelUp; cbn; try lia; assumption. }
    assert (arena (RemoveEnemy i
                     (Dungeon.set_Enemies
                        (<[i:=Enemy.set_Health (Enemy.Health e - (2 + Player.Level p)) e]>
                           (Dungeon.Enemies d)) d))
                  (Player.X p) (Player.Y p)) as Ha2.
    { unfold RemoveEnemy. cbn [Dungeon.Enemies Dungeon.set_Enemies].
      rewrite length_insert. destruct (Nat.ltb_spec i (length (Dungeon.Enemies d))); [|lia].
      rewrite take_insert_ge, drop_insert_lt by lia.
      split; [exact Hg|]. split; [exact Hp|]. split; [|exact Hi]. cbn.
      apply Forall_app. split; [now apply Forall_take|now apply Forall_drop]. }
    run_step. apply run_Intn; [lia|]. intros r _ w3.
    destruct (r =? 0).
    + run_step. apply run_Intn; [lia|]. intros g _ w4. run_step. run_step.
      cbn [fst snd]. split; [exact Ha2|]. split; [|cbn; auto].
      destruct Hf2 as (? & ? & ? & ? & ? & ? & ?). unfold fit. cbn. auto 10.
    + run_step. cbn [fst snd]. auto.
  - set (dmg := if Enemy.Damage e - 1 <? 1 then 1 else Enemy.Damage e - 1).
    assert (1 <= dmg <= 2) as Hdmg by (unfold dmg; destruct (Z.ltb_spec (Enemy.Damage e - 1) 1); lia).
    run_step. run_step. run_step.
    apply run_mono with (Q := fun _ => True).
    { destruct (_ <=? 0); now run_step. }
    intros _ _ w2. run_step. cbn [fst snd].
    split; [|split; [|cbn; split; [reflexivity|split; [reflexivity|lia]]]].
    + split; [exact Hg|]. split; [exact Hp|]. split; [|exact Hi]. cbn.
      apply Forall_insert; [exact He|]. unfold enemy_ok. cbn. split; [lia|]. auto.
    + unfold fit. cbn. unwrap. repeat split; try lia; assumption.
Qed.

(** [CollectItem] has no case for the items of the generator: the item is
    marked, the player unchanged. *)
Lemma CollectItem_treasure i p d w :
  Forall (fun it => Item.Type_ it = ItemTreasure) (Dungeon.Items d) ->
  is_Some (Dungeon.Items d !! i) ->
  run fail (CollectItem i p d) w
    (fun r => fst r = p /\ terrain (snd r) = terrain d
              /\ Dungeon.Enemies (snd r) = Dungeon.Enemies d
              /\ Forall (fun it => Item.Type_ it = ItemTreasure) (Dungeon.Items (snd r))).
Proof.
  intros Hall [it0 Hit]. unfold CollectItem. rewrite Hit. run_step. run_step. cbv zeta.
  rewrite Forall_forall in Hall.
  pose proof (Hall it0 (list_elem_of_lookup_2 _ _ _ Hit)) as Hty.
  cbn [Item.Type_ Item.set_Collected]. rewrite Hty. run_step. cbn.
  split; [reflexivity|]. split; [reflexivity|]. split; [reflexivity|].
  apply Forall_insert; [now apply Forall_forall|exact Hty].
Qed.

Lemma CheckPosition_sound p d w :
  sound p d -> 0 < Player.Health p -> Player.Level p < 2 ^ 48 ->
  run fail (CheckPosition p d) w
    (fun r => arena (snd r) (Player.X p) (Player.Y p) /\ fit (fst r)
              /\ Player.X (fst r) = Player.X p /\ Player.Y (fst r) = Player.Y p
              /\ Player.Level (fst r) = Player.Level p).
Proof.
  intros [Ha Hfit] Hh HL. pose proof Ha as (Hg & Hp & He & Hi).
  pose proof Hfit as (HL1 & HE & HM & HA & HD & HHM & HInv).
  destruct (walkable_cell d _ _ Hg Hp) as (t & Ht & Hwt & Hwr).
  destruct (Hwr Floor) as [d1 Ed1].
  assert (arena d1 (Player.X p) (Player.Y p)) as Ha1
      by (eapply arena_write; [|exact Ed1|exact Ha]; reflexivity).
  unfold CheckPosition. rewrite Ht. run_step. run_step. run_step.
  apply run_mono
    with (Q := fun r => arena (snd r) (Player.X p) (Player.Y p) /\ fit (fst r)
                        /\ Player.X (fst r) = Player.X p /\ Player.Y (fst r) = Player.Y p
                        /\ Player.Level (fst r) = Player.Level p).
  - pow2. destruct (t =? Treasure); [|destruct (t =? Trap); [|destruct (t =? Door);
      [|destruct (t =? StairsDown)]]].
    + run_step. apply run_Intn; [lia|]. intros n Hn w1. cbv zeta.
      run_step. run_step. rewrite Ed1. run_step. run_step. run_step. cbn [fst snd].
      split; [exact Ha1|]. split; [|cbn; auto].
      unfold fit. cbn. auto 10.
    + run_step. apply run_Intn; [lia|]. intros n Hn w1. cbv zeta.
      run_step. run_step. rewrite Ed1. run_step. run_step. run_step.
      apply run_mono with (Q := fun _ => True).
      { destruct (_ <=? 0); now run_step. }
      intros _ _ w2. run_step. cbn [fst snd].
      split; [exact Ha1|]. split; [|cbn; auto].
      unfold fit. cbn. unwrap. repeat split; try lia; assumption.
    + run_step. run_step. rewrite Ed1. run_step. run_step. run_step. cbn [fst snd]. auto.
    + run_step. run_step. run_step. cbn [fst snd]. auto.
    + run_step. cbn [fst snd]. auto.
  - intros [p1 d2] (Ha2 & Hf2 & Hx2 & Hy2 & Hl2) w1. cbn [fst snd] in *. cbv zeta.
    destruct (GetItemAt d2 (Player.X p1) (Player.Y p1)) as [i|] eqn:Eit.
    + eapply run_mono.
      { apply CollectItem_treasure; [apply Ha2|]. eapply GetItemAt_Some, Eit. }
      intros [p3 d3] (E3 & Ht3 & Ee3 & Hi3). cbn [fst snd] in *. subst p3.
      split; [|auto]. destruct Ha2 as (Hg2 & Hp2 & He2 & _).
      split; [eapply grid_ok_terrain; eassumption|].
      split; [now rewrite (IsWalkable_terrain _ _ _ _ Ht3)|].
      split; [|exact Hi3]. rewrite Ee3.
      eapply Forall_impl; [exact He2|]. intros e (? & ? & Hw & ?). unfold enemy_ok.
      rewrite (IsWalkable_terrain _ _ _ _ Ht3). auto.
    + run_step. cbn [fst snd]. auto.
Qed.

Lemma Move_sound fuel dx dy p d w :
  ((fuel = 0)%nat -> fail) ->
  sound p d -> 0 < Player.Health p -> Player.Level p < 2 ^ 48 ->
  run fail (Move fuel dx dy p d) w
    (fun r => sound (fst r) (snd r)
              /\ Player.Level p <= Player.Level (fst r) <= Player.Level p + 1).
Proof.
  intros Hfuel Hs Hh HL. pose proof Hs as [Ha Hfit]. pose proof Ha as (Hg & Hp & He & Hi).
  unfold Move. cbv zeta.
  destruct (GetEnemyAt d _ _) as [i|] eqn:Ee.
  - apply GetEnemyAt_Some in Ee as (e & Ei & _).
    eapply run_mono; [eapply AttackEnemy_sound; eassumption|].
    intros [p1 d1] (Ha1 & Hf1 & Hx1 & Hy1 & Hl1). cbn [fst snd] in *.
    split; [|exact Hl1]. split; [|exact Hf1]. now rewrite Hx1, Hy1.
  - destruct (IsWalkable_total d (Player.X p +i dx) (Player.Y p +i dy) Hg) as [b Eb].
    rewrite Eb. run_step. run_step. destruct b.
    + eapply run_mono.
      { apply CheckPosition_sound; [|exact Hh|exact HL].
        split; [|exact Hfit]. cbn.
        split; [exact Hg|]. split; [exact Eb|]. split; [|exact Hi].
        rewrite Forall_forall in He. apply Forall_forall. intros e Hin.
        destruct (He e Hin) as (Hhe & Hde & Hwe & _).
        split; [exact Hhe|]. split; [exact Hde|]. split; [exact Hwe|].
        eapply GetEnemyAt_None; [exact Ee|exact Hin|lia]. }
      intros [p1 d1] (Ha1 & Hf1 & Hx1 & Hy1 & Hl1). cbn [fst snd] in *.
      split; [|cbn in Hl1; lia]. split; [|exact Hf1]. now rewrite Hx1, Hy1.
    + run_step. run_step. run_step. cbn [fst snd]. split; [exact Hs|lia].
Qed.

Lemma moveEnemy_sound player i d w :
  arena d (Player.X player) (Player.Y player) ->
  (i < length (Dungeon.Enemies d))%nat ->
  run fail (moveEnemy player i d) w
    (fun d' => arena d' (Player.X player) (Player.Y player)
               /\ length (Dungeon.Enemies d') = length (Dungeon.Enemies d)).
Proof.
  intros Ha Hi. pose proof Ha as (Hg & Hp & He & Hit).
  destruct (lookup_lt_is_Some_2 _ _ Hi) as [e Ee].
  rewrite Forall_forall in He.
  pose proof (He e (list_elem_of_lookup_2 _ _ _ Ee)) as (Hhe & Hde & Hwe & Hne).
  unfold moveEnemy. rewrite Ee. run_step. run_step.
  destruct (_ <=? 0); [now run_step|]. cbv zeta.
  run_step. apply run_mono with (Q := fun _ => True).
  { destruct (_ && _).
    - destruct (_ >? _); now run_step.
    - run_step. apply run_Intn; [lia|]. intros r _ w1.
      destruct (r >? 0); [|now run_step].
      run_step. apply run_Intn; [unfold len; cbn; lia|]. intros k Hk w2.
      destruct (index_total directions k Hk) as (dir & -> & _). now run_step. }
  intros dir _ w1.
  destruct ((Enemy.X e +i fst dir =? Player.X player)
            && (Enemy.Y e +i snd dir =? Player.Y player)) eqn:Eon; [now run_step|].
  destruct (IsWalkable_total d (Enemy.X e +i fst dir) (Enemy.Y e +i snd dir) Hg)
    as [b Eb].
  rewrite Eb. run_step. run_step.
  destruct (b && _) eqn:Efree; [|now run_step].
  apply andb_true_iff in Efree as [-> _].
  run_step. split; [|cbn; apply length_insert].
  split; [exact Hg|]. split; [exact Hp|]. split; [|exact Hit]. cbn.
  apply Forall_insert; [now apply Forall_forall|].
  unfold enemy_ok. cbn. split; [exact Hhe|]. split; [exact Hde|]. split; [exact Eb|].
  intros [Hx Hy]. rewrite Hx, Hy, !Z.eqb_refl in Eon. discriminate.
Qed.

Lemma MoveEnemies_sound player d w :
  arena d (Player.X player) (Player.Y player) ->
  run fail (MoveEnemies player d) w
    (fun d' => arena d' (Player.X player) (Player.Y player)).
Proof.
  intros Ha. unfold MoveEnemies.
  eapply run_mono.
  { apply run_for_each
      with (I := fun d' => arena d' (Player.X player) (Player.Y player)
                           /\ length (Dungeon.Enemies d') = length (Dungeon.Enemies d));
      [|auto].
    intros i d1 w1 Hin [Ha1 Hl1]. apply elem_of_seq in Hin.
    eapply run_mono; [apply moveEnemy_sound; [exact Ha1|lia]|].
    intros d2 [Ha2 Hl2]. split; [exact Ha2|congruence]. }
  now intros d' [? _].
Qed.

Lemma wrap_shift x k : k = 1 \/ k = -1 -> x +i k <> x.
Proof.
  unfold add, wrap. pow2. intros Hk E.
  pose proof (Z.div_mod (x + k + 9223372036854775808) 18446744073709551616 ltac:(lia)).
  lia.
Qed.

Lemma spawnNear_sound ps player d w :
  Forall (fun pos => (fst pos = 1 \/ fst pos = -1) \/ (snd pos = 1 \/ snd pos = -1)) ps ->
  arena d (Player.X player) (Player.Y player) ->
  run fail (spawnNear ps player d) w
    (fun d' => arena d' (Player.X player) (Player.Y player)).
Proof.
  intros Hps Ha. revert w. induction Hps as [|pos ps Hpos _ IH]; intros w; cbn [spawnNear].
  - now run_step.
  - cbv zeta. pose proof Ha as (Hg & Hp & He & Hit).
    destruct (IsWalkable_total d (Player.X player +i fst pos) (Player.Y player +i snd pos) Hg)
      as [b Eb].
    rewrite Eb. run_step. run_step.
    destruct (b && _) eqn:Efree; [|apply IH].
    apply andb_true_iff in Efree as [-> _].
    run_step. apply run_Intn; [unfold len; cbn; lia|]. intros k Hk w1.
    destruct (index_total nearEnemyTypes k Hk) as (t & -> & Ht).
    run_step. run_step. run_step. run_step. run_step.
    split; [exact Hg|]. split; [exact Hp|]. split; [|exact Hit]. cbn.
    apply Forall_app. split; [exact He|]. constructor; [|constructor].
    unfold enemy_ok. cbn.
    assert (0 < EnemyType.health t <= 8 /\ 1 <= EnemyType.damage t <= 3) as [? ?].
    { unfold nearEnemyTypes in Ht.
      repeat (apply elem_of_cons in Ht as [->|Ht]); cbn; try lia. inversion Ht. }
    split; [assumption|]. split; [assumption|]. split; [exact Eb|].
    intros [Hx Hy]. destruct Hpos as [Hf|Hs].
    + exact (wrap_shift _ _ Hf Hx).
    + exact (wrap_shift _ _ Hs Hy).
Qed.

Lemma positions_shift :
  Forall (fun pos => (fst pos = 1 \/ fst pos = -1) \/ (snd pos = 1 \/ snd pos = -1))
         positions.
Proof.
  unfold positions.
  repeat (apply Forall_cons; split; [cbn; lia|]). apply Forall_nil_2.
Qed.

Lemma rest_sound p d w :
  sound p d -> 0 < Player.Health p -> Player.Level p < 2 ^ 48 ->
  run fail (rest p d) w
    (fun r => sound (fst r) (snd r) /\ Player.Level (fst r) = Player.Level p
              /\ 0 < Player.Health (fst r)).
Proof.
  intros [Ha Hfit] Hh HL. pose proof Hfit as (HL1 & HE & HM & HA & HD & HHM & HInv).
  unfold rest. pow2.
  run_step. apply run_Intn; [lia|]. intros r _ w1.
  destruct (r =? 0).
  - run_step. run_step. run_step.
    eapply run_mono; [apply spawnNear_sound; [exact positions_shift|exact Ha]|].
    intros d1 Ha1 w2. run_step. cbn [fst snd]. split; [|auto]. now split.
  - run_step. apply run_Intn; [lia|]. intros n Hn w2. cbv zeta.
    run_step. run_step. run_step.
    set (p1 := Player.set_Health _ p).
    assert (fit p1 /\ 0 < Player.Health p1) as [Hf1 Hh1].
    { unfold fit, p1. cbn. unwrap.
      destruct (Z.gtb_spec (Player.Health p + (2 + n)) (Player.MaxHealth p));
        repeat split; try lia; assumption. }
    eapply run_mono; [apply (MoveEnemies_sound p1); exact Ha|].
    intros d1 Ha1 w3. run_step. cbn [fst snd]. split; [|auto]. now split.
Qed.

Lemma step_sound fuel dx dy p d w :
  ((fuel = 0)%nat -> fail) ->
  sound p d -> 0 < Player.Health p -> Player.Level p < 2 ^ 48 ->
  run fail (step fuel dx dy p d) w
    (fun r => sound (fst r) (snd r)
              /\ Player.Level p <= Player.Level (fst r) <= Player.Level p + 1).
Proof.
  intros Hfuel Hs Hh HL. unfold step.
  run_step. eapply run_mono; [apply Move_sound; eassumption|].
  intros [p1 d1] [[Ha1 Hf1] Hl1] w1. cbn [fst snd] in *.
  run_step. eapply run_mono; [apply MoveEnemies_sound, Ha1|].
  intros d2 Ha2 w2. run_step. cbn [fst snd]. split; [|exact Hl1]. now split.
Qed.

End Play.

(** *** New levels *)

Lemma garrisoned_enemy_ok d r0 e :
  laid_out d -> index (Dungeon.Rooms d) 0 = Some r0 ->
  garrisoned (Dungeon.Rooms d) e ->
  enemy_ok d (fst (centre r0)) (snd (centre r0)) e.
Proof.
  intros Hl E0 [Hsp (i & room & Hi & Er & Hin)].
  destruct Hsp as (t & x & y & Ht & ->). cbn in Hin |- *.
  assert (0 < EnemyType.health t <= 8 /\ 1 <= EnemyType.damage t <= 3) as [? ?].
  { unfold enemyTypes in Ht.
    repeat (apply elem_of_cons in Ht as [->|Ht]); cbn; try lia. inversion Ht. }
  unfold enemy_ok. cbn. split; [assumption|]. split; [assumption|].
  assert (room ∈ Dungeon.Rooms d) as Hroom by (eapply list_elem_of_lookup_2, Er).
  split.
  - pose proof (laid_open d Hl) as Ho. rewrite Forall_forall in Ho.
    destruct Hin. now apply (Ho room Hroom).
  - intros [Hx Hy].
    destruct (laid_shaped d Hl) as (rooms & (_ & _ & _ & HdR & _ & Hrooms) & _ & Ha).
    rewrite HdR in Er, E0. change (rooms !! 0%nat = Some r0) in E0.
    apply (Ha i 0%nat room r0); [lia|exact Er|exact E0|].
    exists x, y. split; [now apply inside_padded|].
    rewrite Forall_forall in Hrooms.
    pose proof (Hrooms r0 (list_elem_of_lookup_2 _ _ _ E0)) as Hk.
    unfold room_ok in Hk. unfold centre in Hx, Hy. cbn in Hx, Hy.
    unfold padded. subst x y. Z.to_euclidean_division_equations. lia.
Qed.

Lemma laid_out_arena d r0 :
  laid_out d -> index (Dungeon.Rooms d) 0 = Some r0 ->
  arena d (fst (centre r0)) (snd (centre r0)).
Proof.
  intros Hl E0.
  destruct (laid_shaped d Hl) as (rooms & (_ & _ & _ & HdR & Hg & Hrooms) & _ & _).
  assert (r0 ∈ Dungeon.Rooms d) as Hr0.
  { change (Dungeon.Rooms d !! 0%nat = Some r0) in E0.
    eapply list_elem_of_lookup_2, E0. }
  split; [exact Hg|]. split; [|split; [|apply (laid_items d Hl)]].
  - pose proof (laid_open d Hl) as Ho. rewrite Forall_forall in Ho.
    rewrite Forall_forall in Hrooms. rewrite <- HdR in Hrooms.
    pose proof (Hrooms r0 Hr0) as Hk. unfold room_ok in Hk.
    apply (Ho r0 Hr0); unfold centre; cbn; Z.to_euclidean_division_equations; lia.
  - eapply Forall_impl; [apply (laid_enemies d Hl)|].
    intros e. now apply garrisoned_enemy_ok.
Qed.

Section Levels.
Variable fail : Prop.

(** A new dungeon, and the cell where the player is put. *)
Lemma NewDungeon_arena w :
  run fail (NewDungeon 80 24) w
    (fun d => forall l w', run fail (firstRoomCentre (Dungeon.set_Level l d)) w'
                (fun xy => arena (Dungeon.set_Level l d) (fst xy) (snd xy))).
Proof.
  eapply run_mono; [apply (NewDungeon_layout fail 80 24); pow2; lia|].
  intros d (EW & EH & Hl) l w'.
  destruct (laid_shaped d Hl) as (rooms & (_ & _ & _ & HdR & _) & Hne & _).
  assert (0 < len (Dungeon.Rooms d)) as Hlen.
  { rewrite HdR. unfold len. destruct rooms; [congruence|cbn; lia]. }
  destruct (index_total (Dungeon.Rooms d) 0) as (r0 & E0 & Hr0); [lia|].
  destruct (laid_out_centre d r0 Hl Hr0) as (_ & Ex0 & Ey0 & _);
    [rewrite EW; pow2; lia | rewrite EH; pow2; lia|].
  unfold firstRoomCentre. cbn [Dungeon.Rooms Dungeon.set_Level].
  destruct (Z.gtb_spec (len (Dungeon.Rooms d)) 0); [|lia].
  rewrite E0. run_step. run_step. run_step. cbn [fst snd]. rewrite Ex0, Ey0.
  apply (arena_terrain d); [reflexivity..|]. now apply laid_out_arena.
Qed.

Lemma newGame_sound w :
  run fail newGame w
    (fun r => sound (fst r) (snd r) /\ Player.Level (fst r) = 1
              /\ Player.Health (fst r) = 20).
Proof.
  unfold newGame. run_step. eapply run_mono; [apply NewDungeon_arena|].
  intros d Hd w1. run_step.
  eapply run_mono; [apply (Hd (Dungeon.Level d))|].
  destruct d as [W H g rooms enemies items l]. cbn [Dungeon.set_Level Dungeon.Level].
  intros xy Ha w2. run_step. cbn [fst snd]. split; [|auto].
  split; [exact Ha|]. unfold fit, NewPlayer. cbn. repeat split; lia.
Qed.

Lemma descend_sound p d w :
  sound p d ->
  run fail (descend p d) w
    (fun r => sound (fst r) (snd r) /\ Player.Level (fst r) = Player.Level p
              /\ Player.Health (fst r) = Player.Health p).
Proof.
  intros Hs. pose proof Hs as [(Hg & Hp & _) Hfit].
  destruct (walkable_cell d _ _ Hg Hp) as (t & Ht & _).
  unfold descend. rewrite Ht. run_step. run_step.
  destruct (t =? StairsDown).
  - run_step. eapply run_mono; [apply NewDungeon_arena|].
    intros d1 Hd1 w1. cbv zeta. run_step.
    eapply run_mono; [apply Hd1|].
    intros xy Ha w2. run_step. run_step. run_step. cbn [fst snd].
    split; [|auto]. split; [exact Ha|]. exact Hfit.
  - run_step. run_step. run_step. cbn [fst snd]. auto.
Qed.

Lemma printHelp_runs w (Q : unit -> Prop) : Q tt -> run fail printHelp w Q.
Proof.
  intros HQ. unfold printHelp.
  apply run_for_each with (I := fun u => Q u); [|exact HQ].
  intros line [] w1 _ Hq. now run_step.
Qed.

Lemma playing_sound fuel input p d w :
  ((fuel = 0)%nat -> fail) ->
  sound p d -> 0 < Player.Health p -> Player.Level p < 2 ^ 48 ->
  run fail (playing fuel input p d) w
    (fun r => sound (fst (snd r)) (snd (snd r))
              /\ Player.Level p <= Player.Level (fst (snd r)) <= Player.Level p + 1
              /\ (fst r <> Some StateGameOver -> 0 < Player.Health (fst (snd r)))).
Proof.
  intros Hfuel Hs Hh HL. unfold playing.
  destruct (said input "q" "quit").
  { run_step. run_step. run_step. cbn [fst snd]. split; [exact Hs|]. split; [lia|auto]. }
  run_step.
  apply run_mono
    with (Q := fun r => sound (fst (snd r)) (snd (snd r))
                        /\ Player.Level p <= Player.Level (fst (snd r)) <= Player.Level p + 1).
  - destruct (said input "w" "up");
      [|destruct (said input "s" "down");
        [|destruct (said input "a" "left"); [|destruct (said input "d" "right")]]];
      try (run_step; eapply run_mono; [apply step_sound; eassumption|];
           intros r Hr w1; run_step; exact Hr).
    destruct (said input "i" "inventory").
    { run_step. cbn [fst snd]. split; [exact Hs|lia]. }
    destruct (input =? ">")%string.
    { run_step. eapply run_mono; [apply descend_sound, Hs|].
      intros r (Hr & Hl & _) w1. run_step. cbn [fst snd]. split; [exact Hr|lia]. }
    destruct (said input "h" "help").
    { run_step. apply printHelp_runs. intros w1. run_step. cbn [fst snd].
      split; [exact Hs|lia]. }
    destruct (said input "r" "rest").
    { run_step. eapply run_mono; [apply rest_sound; eassumption|].
      intros r (Hr & Hl & _) w1. run_step. cbn [fst snd]. split; [exact Hr|lia]. }
    run_step. run_step. run_step. cbn [fst snd]. split; [exact Hs|lia].
  - intros [s [p1 d1]] [Hs1 Hl1] w1. cbn [fst snd] in *.
    destruct (Z.leb_spec (Player.Health p1) 0).
    + run_step. cbn [fst snd]. split; [exact Hs1|]. split; [exact Hl1|]. congruence.
    + run_step. cbn [fst snd]. auto.
Qed.

Lemma inventoryScreen_sound input scanned p w :
  Player.Inventory p = [] ->
  run fail (inventoryScreen input scanned p) w
    (fun r => snd r = p /\ fst r <> StateGameOver).
Proof.
  intros Hinv. unfold inventoryScreen. rewrite Hinv.
  destruct (said input "b" "back"); [run_step; cbn; split; [reflexivity|discriminate]|].
  destruct scanned as [itemIndex|].
  - assert ((itemIndex >? 0) && (itemIndex <=? len (@nil Item.t)) = false) as ->.
    { unfold len. cbn. destruct (Z.gtb_spec itemIndex 0); cbn; [|reflexivity].
      apply Z.leb_gt. lia. }
    run_step. run_step. run_step. cbn. split; [reflexivity|discriminate].
  - run_step. run_step. run_step. cbn. split; [reflexivity|discriminate].
Qed.

Lemma gameOver_sound input p d w :
  sound p d ->
  run fail (gameOver input p d) w
    (fun r => sound (fst (snd r)) (snd (snd r))
              /\ ((fst r = Some StatePlaying
                   /\ Player.Level (fst (snd r)) = 1 /\ 0 < Player.Health (fst (snd r)))
                  \/ fst r = None
                  \/ (fst r = Some StateGameOver /\ fst (snd r) = p))).
Proof.
  intros Hs. unfold gameOver.
  destruct (said input "r" "restart").
  { run_step. eapply run_mono; [apply newGame_sound|].
    intros r (Hr & Hl & Hh) w1. run_step. cbn [fst snd].
    split; [exact Hr|]. left. split; [reflexivity|]. split; [exact Hl|lia]. }
  destruct (said input "q" "quit").
  { run_step. run_step. run_step. cbn [fst snd]. split; [exact Hs|]. right. now left. }
  run_step. cbn [fst snd]. split; [exact Hs|]. right. right. auto.
Qed.
End Levels.

(** *** Every state of a game *)

Lemma reachable_sound n s p d :
  reachable n s p d -> Z.of_nat n < 2 ^ 48 - 1 ->
  sound p d /\ 1 <= Player.Level p <= 1 + Z.of_nat n
  /\ (s <> StateGameOver -> 0 < Player.Health p).
Proof.
  induction 1 as [w p d w' E
                 |n fuel input p d w s p' d' w' _ IH E
                 |n input scanned p d w s p' w' _ IH E
                 |n input p d w s p' d' w' Hr IH E]; intros Hn.
  - pose proof (partial_Done _ _ _ _ _ (newGame_sound True w) E) as (Hs & Hl & Hh).
    cbn [fst snd] in *. split; [exact Hs|]. split; [lia|]. intros _. lia.
  - destruct IH as (Hs & Hl & Hh); [lia|]. specialize (Hh ltac:(discriminate)).
    assert (run True (playing fuel input p d) w
              (fun r => sound (fst (snd r)) (snd (snd r))
                        /\ Player.Level p <= Player.Level (fst (snd r)) <= Player.Level p + 1
                        /\ (fst r <> Some StateGameOver -> 0 < Player.Health (fst (snd r)))))
      as Hrun by (apply playing_sound; [trivial|assumption|assumption|lia]).
    pose proof (partial_Done _ _ _ _ _ Hrun E) as (Hs' & Hl' & Hh'). cbn [fst snd] in *.
    split; [exact Hs'|]. split; [lia|]. intros Hne. apply Hh'. congruence.
  - destruct IH as (Hs & Hl & Hh); [lia|]. specialize (Hh ltac:(discriminate)).
    pose proof Hs as [_ (_ & _ & _ & _ & _ & _ & Hinv)].
    pose proof (partial_Done _ _ _ _ _ (inventoryScreen_sound True input scanned p w Hinv) E)
      as [Ep _]. cbn [snd] in Ep. subst p'.
    split; [exact Hs|]. split; [lia|]. auto.
  - destruct IH as (Hs & Hl & Hh); [lia|].
    pose proof (partial_Done _ _ _ _ _ (gameOver_sound True input p d w Hs) E)
      as (Hs' & [(_ & Hl' & Hh')|[Hnone|[Hover Hp]]]); cbn [fst snd] in *.
    + split; [exact Hs'|]. split; [lia|auto].
    + discriminate.
    + subst p'. split; [exact Hs'|]. split; [lia|].
      intros Hne. exfalso. apply Hne. congruence.
Qed.

Lemma game_start_reachable : exists p d, reachable 0 StatePlaying p d.
Proof.
  destruct (total_Done _ _ _ (newGame_sound False sample_world)) as ([p d] & w' & E & _).
  exists p, d. econstructor. exact E.
Qed.

(** X8. Where everyone stands, in every state a game reaches within 2^48
    answers, from the start of [main] through commands, descents, the
    inventory and game-over screens and restarts: the grid has its declared
    dimensions, the player is on a walkable cell of it, every enemy of the
    list is alive and on a walkable cell, none on the player's cell, and
    outside the game-over state the player is alive. *)
Theorem reachable_positions n s p d :
  reachable n s p d -> Z.of_nat n < 2 ^ 48 - 1 ->
  grid_ok d
  /\ IsWalkable d (Player.X p) (Player.Y p) = Some true
  /\ (forall e, e ∈ Dungeon.Enemies d ->
        0 < Enemy.Health e
        /\ IsWalkable d (Enemy.X e) (Enemy.Y e) = Some true
        /\ (Enemy.X e, Enemy.Y e) <> (Player.X p, Player.Y p))
  /\ (s <> StateGameOver -> 0 < Player.Health p).
Proof.
  intros Hr Hn. destruct (reachable_sound n s p d Hr Hn) as ([Ha _] & _ & Hh).
  destruct Ha as (Hg & Hp & He & _).
  split; [exact Hg|]. split; [exact Hp|]. split; [|exact Hh].
  intros e Hin. rewrite Forall_forall in He.
  destruct (He e Hin) as ([? _] & _ & Hw & Hne).
  split; [assumption|]. split; [exact Hw|]. intros [= Hx Hy]. now apply Hne.
Qed.

Lemma reachable_positions_witness :
  exists p d,
    reachable 0 StatePlaying p d
    /\ IsWalkable d (Player.X p) (Player.Y p) = Some true.
Proof.
  destruct game_start_reachable as (p & d & Hr). exists p, d. split; [exact Hr|].
  apply (reachable_positions 0 StatePlaying p d Hr). pow2. lia.
Defined.

(** X9. A game never fills the inventory: in every state a game reaches
    within 2^48 answers, the items of the dungeon are all of the type
    [ItemTreasure], for which [CollectItem] has no case, the inventory is
    empty, and so the inventory screen never calls [UseItem]: whatever is
    typed and scanned, it leaves the player as he is.  Nothing being
    equipped, the statistics are those of the level, which is at most one
    more than the number of answers, with the experience below the next
    threshold. *)
Theorem reachable_player n s p d :
  reachable n s p d -> Z.of_nat n < 2 ^ 48 - 1 ->
  Forall (fun it => Item.Type_ it = ItemTreasure) (Dungeon.Items d)
  /\ Player.Inventory p = []
  /\ (forall input scanned w, exists s' w',
        inventoryScreen input scanned p w = Done (s', p) w')
  /\ 1 <= Player.Level p <= 1 + Z.of_nat n
  /\ 0 <= Player.Exp p < 100 * Player.Level p
  /\ Player.MaxHealth p = 15 + 5 * Player.Level p
  /\ Player.Attack p = 2 + Player.Level p
  /\ Player.Defense p = 1
  /\ Player.Health p <= Player.MaxHealth p.
Proof.
  intros Hr Hn. destruct (reachable_sound n s p d Hr Hn) as ([Ha Hf] & Hl & _).
  destruct Ha as (_ & _ & _ & Hi). destruct Hf as (_ & HE & HM & HA & HD & HH & Hinv).
  split; [exact Hi|]. split; [exact Hinv|]. split; [|auto 10].
  intros input scanned w.
  destruct (total_Done _ _ _ (inventoryScreen_sound False input scanned p w Hinv))
    as ([s' p'] & w' & E & Hp & _). cbn in Hp. subst p'. eauto.
Qed.

Lemma reachable_player_witness :
  exists p d,
    reachable 0 StatePlaying p d
    /\ Player.Inventory p = []
    /\ Player.Level p = 1.
Proof.
  destruct game_start_reachable as (p & d & Hr). exists p, d. split; [exact Hr|].
  destruct (reachable_player 0 StatePlaying p d Hr) as (_ & Hinv & _ & Hl & _);
    [pow2; lia|].
  split; [exact Hinv|]. cbn in Hl. lia.
Defined.

(** X10. No command crashes the game: from every playing state a game
    reaches within 2^48 answers, every answer makes [playing] return (no
    index out of range, no [rand.Intn] of a non-positive bound, no endless
    loop), the level-up recursing at most once, and the state it returns is
    reached in turn. *)
Theorem playing_returns n fuel input p d w :
  reachable n StatePlaying p d -> Z.of_nat n < 2 ^ 48 - 1 -> (1 <= fuel)%nat ->
  exists s p' d' w',
    playing fuel input p d w = Done (s, (p', d')) w'
    /\ (forall s', s = Some s' -> reachable (S n) s' p' d')
    /\ Player.Level p <= Player.Level p' <= Player.Level p + 1.
Proof.
  intros Hr Hn Hfuel. destruct (reachable_sound n _ p d Hr Hn) as (Hs & Hl & Hh).
  specialize (Hh ltac:(discriminate)).
  destruct (total_Done _ _ _ (playing_sound False fuel input p d w ltac:(lia) Hs Hh
                                ltac:(lia)))
    as ([s [p' d']] & w' & E & _ & Hl' & _). cbn [fst snd] in *.
  exists s, p', d', w'. split; [exact E|]. split; [|exact Hl'].
  intros s' ->. econstructor; eassumption.
Qed.

Lemma playing_returns_witness :
  exists p d s p' d' w',
    reachable 0 StatePlaying p d
    /\ playing 1 "w" p d sample_world = Done (s, (p', d')) w'.
Proof.
  destruct game_start_reachable as (p & d & Hr).
  destruct (playing_returns 0 1 "w" p d sample_world Hr)
    as (s & p' & d' & w' & E & _); [pow2; lia | lia|].
  exists p, d, s, p', d', w'. auto.
Defined.

(** *** Treasure tiles *)

Lemma CheckPosition_treasure fail p d w :
  GetTileAt d (Player.X p) (Player.Y p) = Some Treasure ->
  Forall (fun it => Item.Type_ it = ItemTreasure) (Dungeon.Items d) ->
  run fail (CheckPosition p d) w
    (fun r => exists n d1,
         0 <= n < 20
         /\ fst r = Player.set_Gold (Player.Gold p +i (10 +i n)) p
         /\ write d (Player.X p) (Player.Y p) Floor = Some d1
         /\ terrain (snd r) = terrain d1
         /\ (forall i, GetItemAt d (Player.X p) (Player.Y p) = Some i ->
               exists it, Dungeon.Items d !! i = Some it
                          /\ Dungeon.Items (snd r)
                             = <[i := Item.set_Collected true it]> (Dungeon.Items d))
         /\ (GetItemAt d (Player.X p) (Player.Y p) = None ->
               Dungeon.Items (snd r) = Dungeon.Items d)).
Proof.
  intros Ht Hall. unfold CheckPosition. rewrite Ht.
  run_step. run_step. run_step.
  change (Treasure =? Treasure) with true. cbv iota.
  run_step. apply run_Intn; [lia|]. intros n Hn w1.
  run_step. run_step.
  assert (cell (Dungeon.Grid d) (Player.X p) (Player.Y p) = Some Treasure) as Hc
      by (apply GetTileAt_Some_cell; [exact Ht|discriminate]).
  destruct (set_cell_total _ _ _ Floor _ Hc) as [g Eg].
  assert (write d (Player.X p) (Player.Y p) Floor = Some (Dungeon.set_Grid g d)) as Ew
      by (unfold write; now rewrite Eg).
  rewrite Ew. run_step. run_step. run_step. cbn [fst snd]. cbv zeta.
  change (GetItemAt (Dungeon.set_Grid g d)) with (GetItemAt d).
  cbn [Player.X Player.Y Player.set_Gold].
  destruct (GetItemAt d (Player.X p) (Player.Y p)) as [i|] eqn:Ei.
  - pose proof (GetItemAt_Some _ _ _ _ Ei) as [it Hit].
    rewrite Forall_forall in Hall.
    pose proof (Hall it (list_elem_of_lookup_2 _ _ _ Hit)) as Hty.
    unfold CollectItem. cbn [Dungeon.Items Dungeon.set_Grid]. rewrite Hit.
    run_step. run_step. cbv zeta. cbn [Item.Type_ Item.set_Collected]. rewrite Hty.
    run_step. exists n, (Dungeon.set_Grid g d). cbn [fst snd].
    split; [exact Hn|]. split; [reflexivity|]. split; [reflexivity|].
    split; [reflexivity|]. split; [|discriminate].
    intros i' [= <-]. exists it. split; [exact Hit|reflexivity].
  - run_step. exists n, (Dungeon.set_Grid g d). cbn [fst snd].
    split; [exact Hn|]. split; [reflexivity|]. split; [reflexivity|].
    split; [reflexivity|]. split; [discriminate|reflexivity].
Qed.

(** X11. Arriving on a treasure tile of a generated dungeon: the player
    gains 10 to 29 gold, drawn on the spot, and nothing else of him changes;
    the tile becomes floor; the item the generator registered for the tile,
    if it is still there, is marked as collected, and the value recorded on
    it (10 to 99) is credited to nobody. *)
Theorem treasure_tile_gold p d w :
  GetTileAt d (Player.X p) (Player.Y p) = Some Treasure ->
  Forall (fun it => Item.Type_ it = ItemTreasure) (Dungeon.Items d) ->
  exists n p' d' w',
    CheckPosition p d w = Done (p', d') w'
    /\ 0 <= n < 20
    /\ p' = Player.set_Gold (Player.Gold p +i (10 +i n)) p
    /\ GetTileAt d' (Player.X p) (Player.Y p) = Some Floor
    /\ (forall i, GetItemAt d (Player.X p) (Player.Y p) = Some i ->
          exists it, Dungeon.Items d !! i = Some it
                     /\ Dungeon.Items d'
                        = <[i := Item.set_Collected true it]> (Dungeon.Items d))
    /\ (GetItemAt d (Player.X p) (Player.Y p) = None ->
          Dungeon.Items d' = Dungeon.Items d).
Proof.
  intros Ht Hall.
  destruct (total_Done _ _ _ (CheckPosition_treasure False p d w Ht Hall))
    as ([p' d'] & w' & E & n & d1 & Hn & Hp & Hw & Hterr & Hsome & Hnone).
  cbn [fst snd] in *.
  exists n, p', d', w'. split; [exact E|]. split; [exact Hn|]. split; [exact Hp|].
  split; [|split; assumption].
  rewrite (GetTileAt_terrain _ _ _ _ Hterr), (GetTileAt_write _ _ _ _ _ _ _ Hw).
  unfold GetTileAt in Ht. destruct (out_of_bounds d _ _); [discriminate|].
  now rewrite !Z.eqb_refl.
Qed.

Lemma treasure_tile_gold_witness :
  exists p' d' w',
    CheckPosition (NewPlayer 1 1) treasure_dungeon sample_world = Done (p', d') w'
    /\ 10 <= Player.Gold p' <= 29
    /\ Player.Inventory p' = []
    /\ map Item.Collected (Dungeon.Items d') = [true].
Proof.
  destruct (treasure_tile_gold (NewPlayer 1 1) treasure_dungeon sample_world)
    as (n & p' & d' & w' & E & Hn & -> & _ & Hsome & _);
    [reflexivity | repeat constructor|].
  eexists _, d', w'. split; [exact E|].
  destruct (Hsome 0%nat eq_refl) as (it & [= <-] & ->).
  cbn. unwrap. split; [lia|]. split; reflexivity.
Defined.

(** *** The killing blow *)

Lemma AttackEnemy_kill_run fail fuel i p d w e :
  ((fuel = 0)%nat -> fail) ->
  fit p -> Player.Level p < 2 ^ 48 ->
  Dungeon.Enemies d !! i = Some e ->
  0 < Enemy.Health e <= Player.Attack p -> 1 <= Enemy.Damage e <= 3 ->
  run fail (AttackEnemy fuel i p d) w
    (fun r =>
       snd r = Dungeon.set_Enemies
                 (take i (Dungeon.Enemies d) ++ drop (S i) (Dungeon.Enemies d)) d
       /\ exists gold,
            0 <= gold <= 10
            /\ fst r
               = let q := Player.set_Exp (Player.Exp p + (5 + 2 * Enemy.Damage e)) p in
                 Player.set_Gold
                   (if gold =? 0 then Player.Gold p else Player.Gold p +i gold)
                   (if Player.Exp q <? 100 * Player.Level p then q else levelUp q)).
Proof.
  intros Hfuel Hfit HL Ei Hhe Hde.
  pose proof Hfit as (HL1 & HE & HM & HA & HD & HHM & HInv).
  pose proof (lookup_lt_Some _ _ _ Ei) as Hlt.
  unfold AttackEnemy. rewrite Ei. run_step. run_step. cbv zeta. pow2.
  run_step. run_step. cbn [Enemy.Health Enemy.set_Health Enemy.Damage Enemy.Name].
  rewrite HA in *. unwrap.
  destruct (Z.leb_spec (Enemy.Health e - (2 + Player.Level p)) 0) as [_|Halive]; [|lia].
  run_step. run_step. run_step. run_step.
  replace (5 + Enemy.Damage e * 2) with (5 + 2 * Enemy.Damage e) by lia.
  set (q := Player.set_Exp (Player.Exp p + (5 + 2 * Enemy.Damage e)) p).
  run_step. eapply run_mono.
  { apply CheckLevelUp_once with (fuel := fuel); [exact Hfuel|unfold q; cbn; lia..]. }
  cbn beta. intros p2 Hp2 w2.
  assert (p2 = if Player.Exp q <? 100 * Player.Level p then q else levelUp q) as Ep2.
  { change (Player.Level q) with (Player.Level p) in Hp2.
    destruct (Z.ltb_spec (Player.Exp q) (100 * Player.Level p));
      destruct Hp2 as [[? ->]|[? ->]]; try reflexivity; lia. }
  assert (Player.Gold p2 = Player.Gold p) as Eg
      by (rewrite Ep2; destruct (_ <? _); reflexivity).
  assert (RemoveEnemy i
            (Dungeon.set_Enemies
               (<[i:=Enemy.set_Health (Enemy.Health e - (2 + Player.Level p)) e]>
                  (Dungeon.Enemies d)) d)
          = Dungeon.set_Enemies
              (take i (Dungeon.Enemies d) ++ drop (S i) (Dungeon.Enemies d)) d) as Ed.
  { unfold RemoveEnemy. cbn [Dungeon.Enemies Dungeon.set_Enemies].
    rewrite length_insert. destruct (Nat.ltb_spec i (length (Dungeon.Enemies d))); [|lia].
    rewrite take_insert_ge, drop_insert_lt by lia. reflexivity. }
  rewrite Ed. clear Ed.
  run_step. apply run_Intn; [lia|]. intros r _ w3.
  destruct (r =? 0).
  - run_step. apply run_Intn; [lia|]. intros g Hg w4. run_step. run_step.
    cbn [fst snd]. split; [reflexivity|]. exists (1 + g). split; [lia|].
    cbv zeta. rewrite <- Ep2, Eg.
    destruct (Z.eqb_spec (1 + g) 0); [lia|]. cbn [fst]. unwrap. reflexivity.
  - run_step. cbn [fst snd]. split; [reflexivity|]. exists 0. split; [lia|].
    cbv zeta. rewrite <- Ep2, <- Eg. now destruct p2.
Qed.

(** X12. The killing blow in a game: when the attack of a player without
    equipment matches the health of the enemy, the enemy leaves the list, the
    other enemies and the rest of the dungeon are left as they are, the
    player is not hit back, gains 5 + 2 * damage experience points, levels
    up at most once, and finds 1 to 10 gold or none. *)
Theorem AttackEnemy_kill fuel i p d w e :
  (1 <= fuel)%nat ->
  fit p -> Player.Level p < 2 ^ 48 ->
  Dungeon.Enemies d !! i = Some e ->
  0 < Enemy.Health e <= Player.Attack p -> 1 <= Enemy.Damage e <= 3 ->
  exists gold p' d' w',
    AttackEnemy fuel i p d w = Done (p', d') w'
    /\ d' = Dungeon.set_Enemies
              (take i (Dungeon.Enemies d) ++ drop (S i) (Dungeon.Enemies d)) d
    /\ 0 <= gold <= 10
    /\ p' = let q := Player.set_Exp (Player.Exp p + (5 + 2 * Enemy.Damage e)) p in
            Player.set_Gold
              (if gold =? 0 then Player.Gold p else Player.Gold p +i gold)
              (if Player.Exp q <? 100 * Player.Level p then q else levelUp q).
Proof.
  intros Hfuel Hfit HL Ei Hhe Hde.
  destruct (total_Done _ _ _
              (AttackEnemy_kill_run False fuel i p d w e ltac:(lia) Hfit HL Ei Hhe Hde))
    as ([p' d'] & w' & E & Hd & gold & Hg & Hp). cbn [fst snd] in *.
  exists gold, p', d', w'. auto.
Qed.

Lemma fit_NewPlayer x y : fit (NewPlayer x y).
Proof. unfold fit, NewPlayer. cbn. repeat split; lia. Qed.

Lemma AttackEnemy_kill_witness :
  exists p' d' w',
    AttackEnemy 1 0 (NewPlayer 1 1) goblin_dungeon sample_world = Done (p', d') w'
    /\ Dungeon.Enemies d' = []
    /\ Player.Exp p' = 7 /\ Player.Health p' = 20.
Proof.
  destruct (AttackEnemy_kill 1 0 (NewPlayer 1 1) goblin_dungeon sample_world
              (newEnemy 2 1 (EnemyType.mk "Goblin" (rune "g") 3 1)))
    as (gold & p' & d' & w' & E & -> & _ & ->);
    [lia | apply fit_NewPlayer | cbn; pow2; lia | reflexivity | cbn; lia | cbn; lia|].
  eexists _, _, w'. split; [exact E|]. split; [reflexivity|]. split; reflexivity.
Defined.

(** *** The enemies' round *)

Lemma moveEnemy_step fail player i d w e :
  grid_ok d -> Dungeon.Enemies d !! i = Some e ->
  run fail (moveEnemy player i d) w
    (fun d' => d' = d
               \/ exists e', stepped player d e e'
                             /\ d' = Dungeon.set_Enemies (<[i := e']> (Dungeon.Enemies d)) d).
Proof.
  intros Hg Ee. unfold moveEnemy. rewrite Ee. run_step. run_step.
  destruct (Z.leb_spec (Enemy.Health e) 0) as [|Hh]; [run_step; now left|]. cbv zeta.
  run_step. apply run_mono with (Q := fun dir => Z.abs (fst dir) + Z.abs (snd dir) <= 1).
  { destruct (_ && _).
    - destruct (_ >? _); run_step; destruct (_ >? 0); cbn; lia.
    - run_step. apply run_Intn; [lia|]. intros r _ w1.
      destruct (r >? 0); [|run_step; cbn; lia].
      run_step. apply run_Intn; [unfold len; cbn; lia|]. intros k Hk w2.
      destruct (index_total directions k Hk) as (dir & -> & Hdir). run_step.
      unfold directions in Hdir.
      repeat (apply elem_of_cons in Hdir as [->|Hdir]); cbn; try lia. inversion Hdir. }
  intros dir Hdir w1.
  destruct ((Enemy.X e +i fst dir =? Player.X player)
            && (Enemy.Y e +i snd dir =? Player.Y player)) eqn:Eon; [run_step; now left|].
  destruct (IsWalkable_total d (Enemy.X e +i fst dir) (Enemy.Y e +i snd dir) Hg)
    as [b Eb].
  rewrite Eb. run_step. run_step.
  destruct (b && _) eqn:Efree; [|run_step; now left].
  apply andb_true_iff in Efree as [-> _].
  run_step. right. eexists. split; [|reflexivity].
  right. exists (fst dir), (snd dir). split; [exact Hdir|]. split; [reflexivity|].
  split; [exact Hh|]. cbn. split; [exact Eb|].
  intros [Hx Hy]. rewrite Hx, Hy, !Z.eqb_refl in Eon. discriminate.
Qed.

Lemma MoveEnemies_steps_run fail player d w :
  grid_ok d ->
  run fail (MoveEnemies player d) w
    (fun d' => terrain d' = terrain d
               /\ Dungeon.Items d' = Dungeon.Items d
               /\ length (Dungeon.Enemies d') = length (Dungeon.Enemies d)
               /\ forall i e e',
                    Dungeon.Enemies d !! i = Some e -> Dungeon.Enemies d' !! i = Some e' ->
                    stepped player d e e').
Proof.
  intros Hg. unfold MoveEnemies.
  eapply run_mono.
  { apply run_for_each_prefix
      with (I := fun done ds =>
                   terrain ds = terrain d
                   /\ Dungeon.Items ds = Dungeon.Items d
                   /\ length (Dungeon.Enemies ds) = length (Dungeon.Enemies d)
                   /\ forall i e e',
                        Dungeon.Enemies d !! i = Some e ->
                        Dungeon.Enemies ds !! i = Some e' ->
                        (i ∉ done -> e' = e) /\ stepped player d e e').
    - intros done a todo ds w0 Hl (Ht & Hit & Hlen & Hall).
      assert ((a ∉ done) /\ (a < length (Dungeon.Enemies d))%nat) as [Hnew Ha].
      { pose proof (NoDup_seq 0 (length (Dungeon.Enemies d))) as Hnd.
        rewrite Hl in Hnd. apply NoDup_app in Hnd as (_ & Hdis & _).
        split.
        - intros Hin. apply (Hdis a Hin). left.
        - assert (a ∈ seq 0 (length (Dungeon.Enemies d))) as Hin
              by (rewrite Hl; apply elem_of_app; right; left).
          apply elem_of_seq in Hin. lia. }
      destruct (lookup_lt_is_Some_2 (Dungeon.Enemies d) a Ha) as [e Ee].
      destruct (lookup_lt_is_Some_2 (Dungeon.Enemies ds) a ltac:(lia)) as [e1 Ee1].
      destruct (Hall a e e1 Ee Ee1) as [Hsame _]. rewrite (Hsame Hnew) in Ee1.
      eapply run_mono.
      { apply moveEnemy_step; [eapply grid_ok_terrain; eassumption|exact Ee1]. }
      intros ds' [->|(e' & Hst & ->)].
      + split; [exact Ht|]. split; [exact Hit|]. split; [exact Hlen|].
        intros i e0 e0' E0 E0'. destruct (Hall i e0 e0' E0 E0') as [Hs0 Hst0].
        split; [|exact Hst0]. intros Hni. apply Hs0. intros Hin. apply Hni.
        apply elem_of_app. now left.
      + split; [exact Ht|]. split; [exact Hit|]. cbn.
        split; [now rewrite length_insert|].
        intros i e0 e0' E0 E0'. destruct (Nat.eq_dec i a) as [->|Hne].
        * rewrite list_lookup_insert_eq in E0' by lia. injection E0' as <-.
          rewrite Ee in E0. injection E0 as <-. split.
          -- intros Hni. exfalso. apply Hni. apply elem_of_app. right. left.
          -- destruct Hst as [->|(dx & dy & Hd & -> & Hh & Hw & Hp)]; [now left|].
             right. exists dx, dy. split; [exact Hd|]. split; [reflexivity|].
             split; [exact Hh|]. split; [|exact Hp].
             now rewrite <- (IsWalkable_terrain _ _ _ _ Ht).
        * rewrite list_lookup_insert_ne in E0' by congruence.
          destruct (Hall i e0 e0' E0 E0') as [Hs0 Hst0].
          split; [|exact Hst0]. intros Hni. apply Hs0. intros Hin. apply Hni.
          apply elem_of_app. now left.
    - split; [reflexivity|]. split; [reflexivity|]. split; [reflexivity|].
      intros i e e' E E'. rewrite E in E'. injection E' as <-.
      split; [reflexivity|now left]. }
  cbn beta. intros d' (Ht & Hit & Hlen & Hall).
  split; [exact Ht|]. split; [exact Hit|]. split; [exact Hlen|].
  intros i e e' E E'. now apply (Hall i e e' E E').
Qed.

(** X13. A round of [MoveEnemies] on a grid of the declared dimensions
    returns; it leaves the grid and the items as they are and the enemies as
    many, in the same order; each enemy has stayed, or has made one step
    along an axis onto a walkable cell that is not the player's, its health,
    name and damage unchanged. *)
Theorem MoveEnemies_steps player d w :
  grid_ok d ->
  exists d' w',
    MoveEnemies player d w = Done d' w'
    /\ terrain d' = terrain d
    /\ Dungeon.Items d' = Dungeon.Items d
    /\ length (Dungeon.Enemies d') = length (Dungeon.Enemies d)
    /\ forall i e e',
         Dungeon.Enemies d !! i = Some e -> Dungeon.Enemies d' !! i = Some e' ->
         stepped player d e e'.
Proof.
  intros Hg.
  destruct (total_Done _ _ _ (MoveEnemies_steps_run False player d w Hg))
    as (d' & w' & E & H). exists d', w'. split; [exact E|exact H].
Qed.

Lemma MoveEnemies_steps_witness :
  exists d' w',
    MoveEnemies (NewPlayer 1 1) sample_dungeon sample_world = Done d' w'
    /\ length (Dungeon.Enemies d') = 1%nat.
Proof.
  destruct (MoveEnemies_steps (NewPlayer 1 1) sample_dungeon sample_world)
    as (d' & w' & E & _ & _ & Hlen & _); [exact sample_dungeon_grid_ok|].
  exists d', w'. split; [exact E|exact Hlen].
Defined.

(** *** Wandering monsters *)

(** A cell where [spawnEnemyNearPlayer] puts nothing. *)
Lemma spawnNear_first fail ps player d w :
  grid_ok d ->
  run fail (spawnNear ps player d) w
    (fun d' =>
       (d' = d
        /\ Forall (fun pos => blocked d (Player.X player +i fst pos)
                                        (Player.Y player +i snd pos)) ps)
       \/ exists before pos after t,
            ps = before ++ pos :: after
            /\ Forall (fun pos => blocked d (Player.X player +i fst pos)
                                            (Player.Y player +i snd pos)) before
            /\ ~ blocked d (Player.X player +i fst pos) (Player.Y player +i snd pos)
            /\ t ∈ nearEnemyTypes
            /\ d' = Dungeon.set_Enemies
                      (Dungeon.Enemies d
                       ++ [newEnemy (Player.X player +i fst pos)
                                    (Player.Y player +i snd pos) t]) d).
Proof.
  intros Hg. revert w. induction ps as [|pos ps IH]; intros w; cbn [spawnNear].
  - run_step. left. split; [reflexivity|constructor].
  - cbv zeta.
    destruct (IsWalkable_total d (Player.X player +i fst pos) (Player.Y player +i snd pos) Hg)
      as [b Eb].
    rewrite Eb. run_step. run_step.
    destruct (b && negb (is_Some_bool (GetEnemyAt d _ _))) eqn:Efree.
    + apply andb_true_iff in Efree as [-> Hfree].
      run_step. apply run_Intn; [unfold len; cbn; lia|]. intros k Hk w1.
      destruct (index_total nearEnemyTypes k Hk) as (t & -> & Ht).
      run_step. run_step. run_step. run_step. run_step.
      right. exists [], pos, ps, t. split; [reflexivity|]. split; [constructor|].
      split; [|split; [exact Ht|reflexivity]].
      unfold blocked. intros [Hb|Hb]; [congruence|].
      destruct (GetEnemyAt d _ _); [discriminate|]. now apply Hb.
    + assert (blocked d (Player.X player +i fst pos) (Player.Y player +i snd pos)) as Hb.
      { unfold blocked. destruct b; [right|now left].
        cbn in Efree. destruct (GetEnemyAt d _ _); [discriminate|discriminate]. }
      eapply run_mono; [apply IH|].
      intros d' [[-> Hall]|(before & pos' & after & t & -> & Hbef & Hfree & Ht & ->)].
      * left. split; [reflexivity|]. now constructor.
      * right. exists (pos :: before), pos', after, t.
        split; [reflexivity|]. split; [now constructor|]. auto.
Qed.

(** X14. The wandering monster of an interrupted rest: on a grid of the
    declared dimensions [spawnEnemyNearPlayer] returns; it tries the eight
    neighbours of the player in its fixed order and puts one goblin or rat on
    the first that is walkable and free of living enemies, appending it to
    the list; when the eight are blocked it leaves the dungeon as it is. *)
Theorem spawnEnemyNearPlayer_first_free player d w :
  grid_ok d ->
  exists d' w',
    spawnEnemyNearPlayer player d w = Done d' w'
    /\ ((d' = d
         /\ Forall (fun pos => blocked d (Player.X player +i fst pos)
                                         (Player.Y player +i snd pos)) positions)
        \/ exists before pos after t,
             positions = before ++ pos :: after
             /\ Forall (fun pos => blocked d (Player.X player +i fst pos)
                                             (Player.Y player +i snd pos)) before
             /\ ~ blocked d (Player.X player +i fst pos) (Player.Y player +i snd pos)
             /\ t ∈ nearEnemyTypes
             /\ d' = Dungeon.set_Enemies
                       (Dungeon.Enemies d
                        ++ [newEnemy (Player.X player +i fst pos)
                                     (Player.Y player +i snd pos) t]) d).
Proof.
  intros Hg. unfold spawnEnemyNearPlayer.
  destruct (total_Done _ _ _ (spawnNear_first False positions player d w Hg))
    as (d' & w' & E & H). exists d', w'. split; [exact E|exact H].
Qed.

Lemma spawnEnemyNearPlayer_first_free_witness :
  exists d' w',
    spawnEnemyNearPlayer (NewPlayer 1 1) sample_dungeon sample_world = Done d' w'.
Proof.
  destruct (spawnEnemyNearPlayer_first_free (NewPlayer 1 1) sample_dungeon sample_world)
    as (d' & w' & E & _); [exact sample_dungeon_grid_ok|].
  exists d', w'. exact E.
Defined.

(** ** Item descriptions *)

Lemma fmt_d_head z :
  exists c s, fmt_d z = String c s /\ (N_of_ascii c < 128)%N.
Proof.
  assert (forall u, exists c s, NilZero.string_of_uint u = String c s
                               /\ (N_of_ascii c < 128)%N) as Hu.
  { intros u. destruct u; cbn; eexists _, _; (split; [reflexivity|]);
      vm_compute; reflexivity. }
  unfold fmt_d. destruct (Z.to_int z) as [u|u]; cbn [NilZero.string_of_int].
  - apply Hu.
  - eexists _, _. split; [reflexivity|]. vm_compute. reflexivity.
Qed.

Lemma byte_code z : 0 <= z < 256 -> N_of_ascii (byte z) = Z.to_N z.
Proof. intros Hz. unfold byte. apply N_ascii_embedding. lia. Qed.

Lemma string_of_rune_head r :
  r < 0 \/ 128 <= r ->
  exists c s, string_of_rune r = String c s /\ (128 <= N_of_ascii c)%N.
Proof.
  intros Hr. unfold string_of_rune.
  destruct (_ || _ || _) eqn:Ev.
  { eexists _, _. split; [reflexivity|]. vm_compute. discriminate. }
  rewrite !orb_false_iff in Ev. destruct Ev as [[Hneg Hmax] _].
  apply Z.ltb_ge in Hneg. rewrite Z.gtb_ltb in Hmax. apply Z.ltb_ge in Hmax.
  destruct (Z.ltb_spec r 128); [lia|].
  destruct (Z.ltb_spec r 2048); [|destruct (Z.ltb_spec r 65536)];
    (eexists _, _; split; [reflexivity|]; rewrite byte_code;
     Z.to_euclidean_division_equations; lia).
Qed.

Lemma string_of_rune_low :
  forallb (fun r => negb (String.eqb (string_of_rune r) (fmt_d r))
                    && negb (String.eqb (string_of_rune r +:+ " gold")
                                        (fmt_d r +:+ " gold")))
          (seqZ 0 128) = true.
Proof. vm_compute. reflexivity. Qed.

(** [string(i)] is never the decimal numeral of [i]. *)
Lemma string_of_rune_not_decimal r :
  string_of_rune r <> fmt_d r
  /\ string_of_rune r +:+ " gold" <> fmt_d r +:+ " gold".
Proof.
  destruct (Z.lt_ge_cases r 0) as [Hneg|Hpos];
    [|destruct (Z.lt_ge_cases r 128) as [Hlow|Hhigh]].
  2:{ pose proof string_of_rune_low as Hall. rewrite forallb_forall in Hall.
      specialize (Hall r). cbv beta in Hall.
      rewrite andb_true_iff, !negb_true_iff, !String.eqb_neq in Hall.
      apply Hall. apply list_elem_of_In, elem_of_seqZ. lia. }
  all: destruct (string_of_rune_head r ltac:(lia)) as (c & s & -> & Hc);
    destruct (fmt_d_head r) as (c' & s' & -> & Hc');
    split; cbn; intros [= -> _]; lia.
Qed.

Lemma append_cancel (s a b : string) : s +:+ a = s +:+ b -> a = b.
Proof. induction s as [|c s IH]; cbn; [auto|]. intros [= H]. auto. Qed.

(** X15. The descriptions that [NewWeapon], [NewArmor] and [NewGold] build
    never show the number they are given: [string(n)] on an integer is the
    character of code point [n], not its decimal numeral, so the description
    differs from the text with the number in decimal for every value. *)
Theorem descriptions_not_decimal :
  (forall x y name damage,
      Item.Description (NewWeapon x y name damage)
      <> "Increases attack by " +:+ fmt_d damage)
  /\ (forall x y name defense,
        Item.Description (NewArmor x y name defense)
        <> "Increases defense by " +:+ fmt_d defense)
  /\ (forall x y amount,
        Item.Description (NewGold x y amount)
        <> "Worth " +:+ fmt_d amount +:+ " gold").
Proof.
  split; [|split].
  - intros x y name damage H. unfold NewWeapon in H. cbn [Item.Description] in H.
    apply append_cancel in H.
    exact (proj1 (string_of_rune_not_decimal damage) H).
  - intros x y name defense H. unfold NewArmor in H. cbn [Item.Description] in H.
    apply append_cancel in H.
    exact (proj1 (string_of_rune_not_decimal defense) H).
  - intros x y amount H. unfold NewGold in H. cbn [Item.Description] in H.
    apply append_cancel in H.
    exact (proj2 (string_of_rune_not_decimal amount) H).
Qed.

(** *** Picking up and using *)

Lemma take_drop_snoc {A} (l : list A) (a : A) :
  take (length l) (l ++ [a]) ++ drop (S (length l)) (l ++ [a]) = l.
Proof.
  rewrite take_app_length, drop_app_ge by lia.
  replace (S (length l) - length l)%nat with 1%nat by lia. cbn.
  apply app_nil_r.
Qed.

Lemma index_snoc {A} (l : list A) (a : A) : index (l ++ [a]) (len l) = Some a.
Proof.
  unfold index, len. destruct (Z.ltb_spec (Z.of_nat (length l)) 0); [lia|].
  rewrite Nat2Z.id. apply list_lookup_middle. reflexivity.
Qed.

Lemma UseItem_last p it w :
  run False
    (UseItem (len (Player.Inventory p))
       (Player.set_Inventory (Player.Inventory p ++ [it]) p)) w
    (fun p2 =>
       match Item.Type_ it with
       | ItemPotion =>
           p2 = Player.set_Health
                  (if Player.Health p +i Item.Value it >? Player.MaxHealth p
                   then Player.MaxHealth p else Player.Health p +i Item.Value it) p
       | ItemWeapon =>
           p2 = Player.set_Attack (Item.Value it)
                  (Player.set_Inventory (Player.Inventory p ++ [it]) p)
       | ItemArmor =>
           p2 = Player.set_Defense (Item.Value it)
                  (Player.set_Inventory (Player.Inventory p ++ [it]) p)
       | _ => p2 = Player.set_Inventory (Player.Inventory p ++ [it]) p
       end).
Proof.
  unfold UseItem. cbn [Player.Inventory Player.set_Inventory].
  assert ((len (Player.Inventory p) <? 0)
          || (len (Player.Inventory p) >=? len (Player.Inventory p ++ [it])) = false) as ->.
  { unfold len. rewrite length_app. cbn.
    rewrite orb_false_iff, Z.ltb_ge, Z.geb_leb, Z.leb_gt. lia. }
  rewrite index_snoc. run_step. run_step.
  destruct (Item.Type_ it); cbv zeta.
  - now run_step.
  - run_step. run_step. run_step.
    cbn [Player.Inventory Player.set_Inventory Player.set_Health Player.Health
         Player.MaxHealth].
    unfold len. rewrite Nat2Z.id.
    replace (Z.to_nat (Z.of_nat (length (Player.Inventory p)) + 1))
      with (S (length (Player.Inventory p))) by lia.
    rewrite take_drop_snoc. destruct p; reflexivity.
  - run_step. run_step. now run_step.
  - run_step. run_step. now run_step.
  - now run_step.
  - now run_step.
Qed.

Lemma CollectItem_carried i p d w it :
  Dungeon.Items d !! i = Some it ->
  Item.Type_ it = ItemPotion \/ Item.Type_ it = ItemWeapon \/ Item.Type_ it = ItemArmor ->
  run False (CollectItem i p d) w
    (fun r => r = (Player.set_Inventory
                     (Player.Inventory p ++ [Item.set_Collected true it]) p,
                   Dungeon.set_Items
                     (<[i := Item.set_Collected true it]> (Dungeon.Items d)) d)).
Proof.
  intros Hit Hty. unfold CollectItem. rewrite Hit. run_step. run_step. cbv zeta.
  cbn [Item.Type_ Item.set_Collected].
  destruct Hty as [-> | [-> | ->]]; run_step; run_step; now run_step.
Qed.

Lemma UseItem_equip q k it w :
  index (Player.Inventory q) k = Some it ->
  Item.Type_ it = ItemWeapon \/ Item.Type_ it = ItemArmor ->
  run False (UseItem k q) w
    (fun q' => q' = match Item.Type_ it with
                    | ItemWeapon => Player.set_Attack (Item.Value it) q
                    | _ => Player.set_Defense (Item.Value it) q
                    end).
Proof.
  intros Hk Hty. unfold UseItem.
  assert ((k <? 0) || (k >=? len (Player.Inventory q)) = false) as ->.
  { unfold index in Hk. destruct (Z.ltb_spec k 0); [discriminate|].
    apply lookup_lt_Some in Hk. unfold len.
    rewrite orb_false_iff, Z.geb_leb, Z.leb_gt. split; [reflexivity|lia]. }
  rewrite Hk. run_step. run_step.
  destruct Hty as [-> | ->]; run_step; run_step; now run_step.
Qed.

(** X16. A potion picked up and drunk: [CollectItem] on a potion lying in
    the dungeon marks it as collected and appends it to the inventory;
    [UseItem] on that last slot then heals by the value of the potion, up to
    the maximum health, and takes the potion out again, so that the player
    ends as he started but for his health. *)
Theorem potion_round_trip i it p d w :
  Dungeon.Items d !! i = Some it ->
  Item.Type_ it = ItemPotion ->
  is_int (Player.Health p + Item.Value it) ->
  exists p1 d1 w1 p2 w2,
    CollectItem i p d w = Done (p1, d1) w1
    /\ Player.Inventory p1 = Player.Inventory p ++ [Item.set_Collected true it]
    /\ Dungeon.Items d1 = <[i := Item.set_Collected true it]> (Dungeon.Items d)
    /\ UseItem (len (Player.Inventory p)) p1 w1 = Done p2 w2
    /\ p2 = Player.set_Health
              (Z.min (Player.MaxHealth p) (Player.Health p + Item.Value it)) p.
Proof.
  intros Hit Hty Hint.
  destruct (total_Done _ _ _ (CollectItem_carried i p d w it Hit (or_introl Hty)))
    as ([p1 d1] & w1 & E1 & [= -> ->]).
  destruct (total_Done _ _ _ (UseItem_last p (Item.set_Collected true it) w1))
    as (p2 & w2 & E2 & Hp2).
  cbn [Item.Type_ Item.set_Collected Item.Value] in Hp2. rewrite Hty in Hp2.
  eexists _, _, w1, p2, w2. split; [exact E1|]. split; [reflexivity|].
  split; [reflexivity|]. split; [exact E2|]. rewrite Hp2. f_equal.
  unfold add. rewrite wrap_small by exact Hint.
  destruct (Z.gtb_spec (Player.Health p + Item.Value it) (Player.MaxHealth p)); lia.
Qed.

Lemma potion_round_trip_witness :
  exists p1 d1 w1 p2 w2,
    CollectItem 0 (Player.set_Health 5 (NewPlayer 1 1))
      (Dungeon.set_Items [NewHealthPotion 1 1] sample_dungeon) sample_world
    = Done (p1, d1) w1
    /\ UseItem 0 p1 w1 = Done p2 w2
    /\ p2 = Player.set_Health 15 (NewPlayer 1 1).
Proof.
  destruct (potion_round_trip 0 (NewHealthPotion 1 1)
              (Player.set_Health 5 (NewPlayer 1 1))
              (Dungeon.set_Items [NewHealthPotion 1 1] sample_dungeon) sample_world)
    as (p1 & d1 & w1 & p2 & w2 & E1 & _ & _ & E2 & ->);
    [reflexivity | reflexivity | apply is_int_iff; cbn; lia|].
  eexists p1, d1, w1, _, w2. split; [exact E1|]. split; [exact E2|reflexivity].
Defined.

(** X17. Equipment picked up and put on: [CollectItem] appends the weapon
    or the armor to the inventory; [UseItem] on that slot sets the attack
    (the defense) to the value of the item, whatever it was before, and leaves
    the item in the inventory; using it again changes nothing. *)
Theorem equipment_replaces i it p d w :
  Dungeon.Items d !! i = Some it ->
  Item.Type_ it = ItemWeapon \/ Item.Type_ it = ItemArmor ->
  exists p1 d1 w1 p2 w2 w3,
    CollectItem i p d w = Done (p1, d1) w1
    /\ UseItem (len (Player.Inventory p)) p1 w1 = Done p2 w2
    /\ p2 = (let carrying :=
               Player.set_Inventory
                 (Player.Inventory p ++ [Item.set_Collected true it]) p in
             match Item.Type_ it with
             | ItemWeapon => Player.set_Attack (Item.Value it) carrying
             | _ => Player.set_Defense (Item.Value it) carrying
             end)
    /\ UseItem (len (Player.Inventory p)) p2 w2 = Done p2 w3.
Proof.
  intros Hit Hty.
  destruct (total_Done _ _ _
              (CollectItem_carried i p d w it Hit (or_intror Hty)))
    as ([p1 d1] & w1 & E1 & [= -> ->]).
  set (it' := Item.set_Collected true it).
  set (p1 := Player.set_Inventory (Player.Inventory p ++ [it']) p).
  assert (Item.Type_ it' = ItemWeapon \/ Item.Type_ it' = ItemArmor) as Hty' by exact Hty.
  destruct (total_Done _ _ _
              (UseItem_equip p1 (len (Player.Inventory p)) it' w1
                 (index_snoc _ _) Hty'))
    as (p2 & w2 & E2 & Hp2).
  assert (index (Player.Inventory p2) (len (Player.Inventory p)) = Some it') as Hk.
  { rewrite Hp2. destruct (Item.Type_ it'); apply index_snoc. }
  destruct (total_Done _ _ _
              (UseItem_equip p2 (len (Player.Inventory p)) it' w2 Hk Hty'))
    as (p3 & w3 & E3 & Hp3).
  eexists p1, _, w1, p2, w2, w3. split; [exact E1|]. split; [exact E2|].
  split; [exact Hp2|]. rewrite E3. f_equal. rewrite Hp3, Hp2.
  destruct (Item.Type_ it'); reflexivity.
Qed.

Lemma equipment_replaces_witness :
  exists p1 d1 w1 p2 w2,
    CollectItem 0 (NewPlayer 1 1)
      (Dungeon.set_Items [NewWeapon 1 1 "Dagger" 2] sample_dungeon) sample_world
    = Done (p1, d1) w1
    /\ UseItem 0 p1 w1 = Done p2 w2
    /\ Player.Attack p2 = 2.
Proof.
  destruct (equipment_replaces 0 (NewWeapon 1 1 "Dagger" 2) (NewPlayer 1 1)
              (Dungeon.set_Items [NewWeapon 1 1 "Dagger" 2] sample_dungeon) sample_world)
    as (p1 & d1 & w1 & p2 & w2 & w3 & E1 & E2 & -> & _);
    [reflexivity | left; reflexivity|].
  eexists p1, d1, w1, _, w2. split; [exact E1|]. split; [exact E2|reflexivity].
Defined.

(** ** Test vectors *)

(** The scenario of the specification: a new player (attack 3) hits a Goblin
    (health 3): the Goblin dies, leaves the dungeon and yields 5 + 1 * 2
    experience points. *)
Example goblin_dies_in_one_hit :
  exists p' d' w',
    AttackEnemy 1 0 (NewPlayer 1 1)
      (Dungeon.set_Enemies [newEnemy 2 1 (EnemyType.mk "Goblin" (rune "g") 3 1)]
         sample_dungeon)
      sample_world
    = Done (p', d') w'
    /\ Dungeon.Enemies d' = [] /\ Player.Exp p' = 7 /\ Player.Level p' = 1.
Proof.
  eexists _, _, _. split; [vm_compute; reflexivity|].
  repeat split.
Qed.

(** Two level-ups in one check need 100 + 200 experience points. *)
Example cascade_of_two_levels :
  exists w',
    CheckLevelUp 2 (Player.mk 0 0 20 20 3 1 0 1 300 []) sample_world
    = Done (Player.mk 0 0 30 30 5 1 0 3 0 []) w'.
Proof. eexists. vm_compute. reflexivity. Qed.

(** The rooms and the population of the dungeon generated from the sample
    stream. *)
Example sample_generation :
  match NewDungeon 80 24 sample_world with
  | Done d _ =>
      (Dungeon.Rooms d, length (Dungeon.Enemies d), length (Dungeon.Items d),
       Dungeon.Level d)
  | _ => ([], 0%nat, 0%nat, 0)
  end
  = ([Room.mk 22 1 7 8; Room.mk 56 7 4 8; Room.mk 65 7 5 5; Room.mk 37 2 8 10],
     3%nat, 2%nat, 1).
Proof. vm_compute. reflexivity. Qed.

(** Two descents in a row from the dungeon generated from the sample stream:
    the level counter goes from 1 to 2, and from 2 to 2. *)
Example second_descent_stays_at_level_2 :
  match NewDungeon 80 24 sample_world with
  | Done d1 w1 =>
      match playing 0 ">" (on_stairs (NewPlayer 1 1) d1) d1 w1 with
      | Done (_, (p2, d2)) w2 =>
          match playing 0 ">" (on_stairs p2 d2) d2 w2 with
          | Done (_, (_, d3)) _ =>
              (Dungeon.Level d1, Dungeon.Level d2, Dungeon.Level d3)
          | _ => (0, 0, 0)
          end
      | _ => (0, 0, 0)
      end
  | _ => (0, 0, 0)
  end
  = (1, 2, 2).
Proof. vm_compute. reflexivity. Qed.
